(** * Bit Tool (main.pyw): the bit-manipulation engine of [BitCalc]

    The Tk application object is embedded as a record of its instance
    variables; every method is a computation in a state-and-exception
    monad over that record, written in the order of the Python source.
    Python integers are [Z], [&], [|], [~], [<<] and [>>] are [Z.land],
    [Z.lor], [Z.lnot], [Z.shiftl] and [Z.shiftr]; a negative shift count
    raises [ValueError], as in Python.  Text is [string] (ASCII), and
    [int()], [str()], [format] and [str.strip] are modelled on it.

    Where the embedding stops: text outside ASCII (Unicode blanks and
    digits, which [int()] and [str.strip] also know), shift counts
    beyond what the interpreter can allocate ([<<] then raises
    [OverflowError] or [MemoryError]) and values beyond the digit limit
    of [str()].  The theorems about a candidate text ask for [isascii],
    those about [_shift_left] for an amount of up to [2^16]; at the
    widths the tool offers, 1 to 8 bytes, a displayed value has at most
    20 decimal digits.

    Left out: icon, status bar, clipboard and the settings file.
    The shift amount is the integer that [shift_amount_var.get()]
    returns. *)

From Stdlib Require Import ZArith List String Ascii Bool Lia.
Import ListNotations.

Open Scope string_scope.
Open Scope list_scope.
Open Scope Z_scope.

(** ** Python text: characters, [str.strip], [str(int)] and [format] *)

Definition ord (c : ascii) : Z := Z.of_N (N_of_ascii c).
Definition chr (n : Z) : ascii := ascii_of_N (Z.to_N n).

(** C-locale [isspace], used by [int()] to skip blanks: TAB..CR and SPACE. *)
Definition Py_ISSPACE (c : ascii) : bool :=
  ((9 <=? ord c) && (ord c <=? 13)) || (ord c =? 32).

(** [str.isspace] on ASCII, used by [str.strip()]: also FS, GS, RS, US. *)
Definition Py_UNICODE_ISSPACE (c : ascii) : bool :=
  ((9 <=? ord c) && (ord c <=? 13))
  || ((28 <=? ord c) && (ord c <=? 31))
  || (ord c =? 32).

(** Value of a character as a digit; 37 for a non-digit. *)
Definition _PyLong_DigitValue (c : ascii) : Z :=
  if (48 <=? ord c) && (ord c <=? 57) then ord c - 48
  else if (97 <=? ord c) && (ord c <=? 122) then ord c - 87
  else if (65 <=? ord c) && (ord c <=? 90) then ord c - 55
  else 37.

Definition is_empty (s : string) : bool :=
  match s with EmptyString => true | String _ _ => false end.

Fixpoint lstrip (s : string) : string :=
  match s with
  | EmptyString => EmptyString
  | String c r => if Py_UNICODE_ISSPACE c then lstrip r else s
  end.

Fixpoint rstrip (s : string) : string :=
  match s with
  | EmptyString => EmptyString
  | String c r =>
      let r' := rstrip r in
      if Py_UNICODE_ISSPACE c && is_empty r' then EmptyString else String c r'
  end.

(** [s.strip()] *)
Definition strip (s : string) : string := rstrip (lstrip s).

(** [s.startswith("-")] *)
Definition startswith_minus (s : string) : bool :=
  match s with
  | String c _ => Ascii.eqb c "-"
  | EmptyString => false
  end.

Fixpoint all_chars (p : ascii -> bool) (s : string) : bool :=
  match s with
  | EmptyString => true
  | String c r => p c && all_chars p r
  end.

(** The digit characters of [format]: [0-9a-z], or [0-9A-Z] for ['X']. *)
Definition digit_char (upper : bool) (d : Z) : ascii :=
  chr (if d <? 10 then 48 + d else if upper then 55 + d else 87 + d).

(** Positional digits of [n >= 0], most significant first, put in front of
    [acc].  [fuel] bounds the number of digits. *)
Fixpoint to_digits (fuel : nat) (base : Z) (upper : bool) (n : Z)
         (acc : string) : string :=
  match fuel with
  | O => acc
  | S fuel' =>
      let acc' := String (digit_char upper (n mod base)) acc in
      if n / base =? 0 then acc'
      else to_digits fuel' base upper (n / base) acc'
  end.

(** A number below [2^(1 + log2 n)] has at most [1 + log2 n] digits in any
    base from 2 on. *)
Definition digit_fuel (n : Z) : nat := S (Z.to_nat (Z.log2 n)).

Definition format_radix (base : Z) (upper : bool) (n : Z) : string :=
  let body := to_digits (digit_fuel (Z.abs n)) base upper (Z.abs n) "" in
  if n <? 0 then String "-" body else body.

(** [str(n)], [f"{n:X}"], [f"{n:o}"], [f"{n:b}"].  [str(n)] is exact
    up to the digit limit of the interpreter (4300 digits by default
    since CPython 3.11), past which it raises [ValueError]. *)
Definition py_str (n : Z) : string := format_radix 10 false n.
Definition format_X (n : Z) : string := format_radix 16 true n.
Definition format_o (n : Z) : string := format_radix 8 false n.
Definition format_b (n : Z) : string := format_radix 2 false n.

(** ** Python [int(text, base)]

    CPython's [PyLong_FromString] for a base among 2, 8, 10 and 16: blanks,
    an optional sign, an optional base prefix ([0x], [0o], [0b], each
    with one optional underscore after it), then digits with single
    underscores between them, then blanks.  Exact on ASCII text; on other
    text [int()] first turns Unicode blanks and decimal digits into
    ASCII ones, which is not modelled. *)

(** The digit loop: the value read so far, the number of digits, whether
    the previous character was an underscore.  Stops at the first
    character that is neither a digit of the base nor an underscore. *)
Fixpoint scan_digits (base : Z) (prev_underscore : bool) (acc : Z)
         (digits : nat) (s : string) : option (Z * nat * string) :=
  match s with
  | EmptyString =>
      if prev_underscore then None else Some (acc, digits, EmptyString)
  | String c r =>
      if Ascii.eqb c "_" then
        if prev_underscore then None
        else scan_digits base true acc digits r
      else if _PyLong_DigitValue c <? base then
        scan_digits base false (acc * base + _PyLong_DigitValue c)
                    (S digits) r
      else if prev_underscore then None else Some (acc, digits, s)
  end.

Fixpoint skip_spaces (s : string) : string :=
  match s with
  | EmptyString => EmptyString
  | String c r => if Py_ISSPACE c then skip_spaces r else s
  end.

Definition take_sign (s : string) : Z * string :=
  match s with
  | String c r =>
      if Ascii.eqb c "+" then (1, r)
      else if Ascii.eqb c "-" then (-1, r)
      else (1, s)
  | EmptyString => (1, s)
  end.

Definition prefix_letter (base : Z) (c : ascii) : bool :=
  ((base =? 16) && (Ascii.eqb c "x" || Ascii.eqb c "X"))
  || ((base =? 8) && (Ascii.eqb c "o" || Ascii.eqb c "O"))
  || ((base =? 2) && (Ascii.eqb c "b" || Ascii.eqb c "B")).

Definition starts_with_underscore (s : string) : bool :=
  match s with
  | String c _ => Ascii.eqb c "_"
  | EmptyString => false
  end.

Definition skip_prefix (base : Z) (s : string) : string :=
  match s with
  | String zero (String c r) =>
      if Ascii.eqb zero "0" && prefix_letter base c then
        match r with
        | String _ r' => if starts_with_underscore r then r' else r
        | EmptyString => r
        end
      else s
  | _ => s
  end.

(** [(base & (base - 1)) == 0] *)
Definition is_binary_base (base : Z) : bool :=
  Z.land base (base - 1) =? 0.

(** ** Exceptions and the instance record *)

Inductive exn : Type := ValueError | IndexError.

Inductive outcome (A : Type) : Type :=
| Ok (a : A)
| Raise (e : exn).
Arguments Ok {A} a.
Arguments Raise {A} e.

(** The keys of [base_map] and [var_map]. *)
Inductive entry : Type := hex | dec | oct | bin.

Definition entry_eqb (a b : entry) : bool :=
  match a, b with
  | hex, hex | dec, dec | oct, oct | bin, bin => true
  | _, _ => false
  end.

(** The instance variables of [BitCalc] that the engine reads or writes.
    [bit_vars] holds the 64 checkbox variables, index 0 the least
    significant bit; [checkbox_disabled] the state flag of the 64
    checkbox widgets. *)
Record BitCalc : Type := mkBitCalc {
  _current_value : Z;
  _is_updating : bool;
  num_bytes_var : Z;
  hex_var : string;
  dec_var : string;
  oct_var : string;
  bin_var : string;
  bit_vars : list Z;
  checkbox_disabled : list bool;
  signed_mode_var : bool;
  shift_amount_var : Z
}.

Definition set_current_value (v : Z) (self : BitCalc) : BitCalc :=
  mkBitCalc v (_is_updating self) (num_bytes_var self) (hex_var self)
    (dec_var self) (oct_var self) (bin_var self) (bit_vars self)
    (checkbox_disabled self) (signed_mode_var self) (shift_amount_var self).

Definition set_is_updating (b : bool) (self : BitCalc) : BitCalc :=
  mkBitCalc (_current_value self) b (num_bytes_var self) (hex_var self)
    (dec_var self) (oct_var self) (bin_var self) (bit_vars self)
    (checkbox_disabled self) (signed_mode_var self) (shift_amount_var self).

Definition set_num_bytes_var (n : Z) (self : BitCalc) : BitCalc :=
  mkBitCalc (_current_value self) (_is_updating self) n (hex_var self)
    (dec_var self) (oct_var self) (bin_var self) (bit_vars self)
    (checkbox_disabled self) (signed_mode_var self) (shift_amount_var self).

Definition set_hex_var (s : string) (self : BitCalc) : BitCalc :=
  mkBitCalc (_current_value self) (_is_updating self) (num_bytes_var self) s
    (dec_var self) (oct_var self) (bin_var self) (bit_vars self)
    (checkbox_disabled self) (signed_mode_var self) (shift_amount_var self).

Definition set_dec_var (s : string) (self : BitCalc) : BitCalc :=
  mkBitCalc (_current_value self) (_is_updating self) (num_bytes_var self)
    (hex_var self) s (oct_var self) (bin_var self) (bit_vars self)
    (checkbox_disabled self) (signed_mode_var self) (shift_amount_var self).

Definition set_oct_var (s : string) (self : BitCalc) : BitCalc :=
  mkBitCalc (_current_value self) (_is_updating self) (num_bytes_var self)
    (hex_var self) (dec_var self) s (bin_var self) (bit_vars self)
    (checkbox_disabled self) (signed_mode_var self) (shift_amount_var self).

Definition set_bin_var (s : string) (self : BitCalc) : BitCalc :=
  mkBitCalc (_current_value self) (_is_updating self) (num_bytes_var self)
    (hex_var self) (dec_var self) (oct_var self) s (bit_vars self)
    (checkbox_disabled self) (signed_mode_var self) (shift_amount_var self).

Definition set_bit_vars (l : list Z) (self : BitCalc) : BitCalc :=
  mkBitCalc (_current_value self) (_is_updating self) (num_bytes_var self)
    (hex_var self) (dec_var self) (oct_var self) (bin_var self) l
    (checkbox_disabled self) (signed_mode_var self) (shift_amount_var self).

Definition set_checkbox_disabled (l : list bool) (self : BitCalc) : BitCalc :=
  mkBitCalc (_current_value self) (_is_updating self) (num_bytes_var self)
    (hex_var self) (dec_var self) (oct_var self) (bin_var self)
    (bit_vars self) l (signed_mode_var self) (shift_amount_var self).

Definition set_signed_mode_var (b : bool) (self : BitCalc) : BitCalc :=
  mkBitCalc (_current_value self) (_is_updating self) (num_bytes_var self)
    (hex_var self) (dec_var self) (oct_var self) (bin_var self)
    (bit_vars self) (checkbox_disabled self) b (shift_amount_var self).

Definition set_shift_amount_var (n : Z) (self : BitCalc) : BitCalc :=
  mkBitCalc (_current_value self) (_is_updating self) (num_bytes_var self)
    (hex_var self) (dec_var self) (oct_var self) (bin_var self)
    (bit_vars self) (checkbox_disabled self) (signed_mode_var self) n.

(** ** The monad of methods: state that survives an exception *)

Definition M (A : Type) : Type := BitCalc -> outcome A * BitCalc.

Definition ret {A : Type} (a : A) : M A := fun self => (Ok a, self).

Definition raise {A : Type} (e : exn) : M A := fun self => (Raise e, self).

Definition bind {A B : Type} (m : M A) (k : A -> M B) : M B :=
  fun self =>
    match m self with
    | (Ok a, self') => k a self'
    | (Raise e, self') => (Raise e, self')
    end.

Definition get {A : Type} (f : BitCalc -> A) : M A :=
  fun self => (Ok (f self), self).

Definition update (f : BitCalc -> BitCalc) : M unit :=
  fun self => (Ok tt, f self).

(** [try: body  except ValueError: handler] *)
Definition try_except_ValueError {A : Type} (body handler : M A) : M A :=
  fun self =>
    match body self with
    | (Raise ValueError, self') => handler self'
    | r => r
    end.

Notation "x <- m ;; k" := (bind m (fun x => k))
  (at level 61, m at next level, right associativity).
Notation "m ;; k" := (bind m (fun _ => k))
  (at level 61, right associativity).

(** [for i in l: a = body(i, a)] with the loop-carried local [a]. *)
Fixpoint for_in {X A : Type} (l : list X) (body : X -> A -> M A) (a : A)
  : M A :=
  match l with
  | [] => ret a
  | i :: l' => a' <- body i a ;; for_in l' body a'
  end.

(** [range(n)] *)
Definition range (n : Z) : list Z := map Z.of_nat (seq 0 (Z.to_nat n)).

(** [a << n] and [a >> n]: [ValueError: negative shift count].  Exact
    for the counts the interpreter can allocate the result of; past
    that [<<] on a non-zero operand raises [OverflowError] or
    [MemoryError], which is not modelled. *)
Definition lshift (a n : Z) : M Z :=
  if n <? 0 then raise ValueError else ret (Z.shiftl a n).

Definition rshift (a n : Z) : M Z :=
  if n <? 0 then raise ValueError else ret (Z.shiftr a n).

(** Truth value of an integer. *)
Definition truthy (n : Z) : bool := negb (n =? 0).

(** [l[i] = v] on a list: negative indices count from the end, anything
    else out of range is an [IndexError]. *)
Fixpoint list_set {A : Type} (l : list A) (i : nat) (v : A) : list A :=
  match l, i with
  | [], _ => []
  | _ :: l', O => v :: l'
  | x :: l', S i' => x :: list_set l' i' v
  end.

Definition setitem {A : Type} (l : list A) (i : Z) (v : A) : option (list A) :=
  let len := Z.of_nat (List.length l) in
  if (0 <=? i) && (i <? len) then Some (list_set l (Z.to_nat i) v)
  else if (- len <=? i) && (i <? 0) then Some (list_set l (Z.to_nat (len + i)) v)
  else None.

(** [enumerate(l)] *)
Definition enumerate {A : Type} (l : list A) : list (Z * A) :=
  combine (range (Z.of_nat (List.length l))) l.

Definition set_bit_var (i v : Z) : M unit :=
  fun self =>
    match setitem (bit_vars self) i v with
    | Some l => (Ok tt, set_bit_vars l self)
    | None => (Raise IndexError, self)
    end.

Definition set_checkbox_state (i : Z) (disabled : bool) : M unit :=
  fun self =>
    match setitem (checkbox_disabled self) i disabled with
    | Some l => (Ok tt, set_checkbox_disabled l self)
    | None => (Raise IndexError, self)
    end.

Section Interpreter.

(** [sys.get_int_max_str_digits()]: the longest decimal text [int()]
    converts.  0 is no limit; CPython starts with 4300 since 3.11, older
    interpreters have no limit.  Texts of up to 640 digits always pass,
    and so do texts in the bases 2, 8 and 16. *)
Variable int_max_str_digits : nat.

Definition exceeds_max_str_digits (base : Z) (digits : nat) : bool :=
  negb (is_binary_base base)
  && (640 <? digits)%nat
  && (0 <? int_max_str_digits)%nat
  && (int_max_str_digits <? digits)%nat.

(** What follows the sign: prefix, digits, blanks. *)
Definition int_magnitude (base : Z) (s : string) : option Z :=
  let s := skip_prefix base s in
  if starts_with_underscore s then None
  else
    match scan_digits base false 0 0 s with
    | None => None
    | Some (v, digits, rest) =>
        if (digits =? 0)%nat then None
        else if negb (is_empty (skip_spaces rest)) then None
        else if exceeds_max_str_digits base digits then None
        else Some v
    end.

Definition int_of_text (text : string) (base : Z) : option Z :=
  let (sign, s) := take_sign (skip_spaces text) in
  match int_magnitude base s with
  | Some v => Some (sign * v)
  | None => None
  end.

(** [int(text, base)]: [ValueError: invalid literal for int()]. *)
Definition py_int (text : string) (base : Z) : M Z :=
  match int_of_text text base with
  | Some v => ret v
  | None => raise ValueError
  end.

(** ** The methods of [BitCalc] *)

Definition _validate_input (P : string) (base : Z) : M bool :=
  if is_empty P then ret true
  else try_except_ValueError (_ <- py_int P base ;; ret true) (ret false).

Definition _validate_hex (P : string) : M bool := _validate_input P 16.

Definition _validate_dec (P : string) : M bool :=
  signed <- get signed_mode_var ;;
  if signed then
    if String.eqb P "-" then ret true
    else if startswith_minus P then
      try_except_ValueError (_ <- py_int P 10 ;; ret true) (ret false)
    else _validate_input P 10
  else
    if startswith_minus P then ret false
    else _validate_input P 10.

Definition _validate_oct (P : string) : M bool := _validate_input P 8.

Definition _validate_bin (P : string) : M bool := _validate_input P 2.

Definition _validate_shift_amount (P : string) : M bool :=
  if is_empty P then ret true
  else try_except_ValueError (val <- py_int P 10 ;; ret (val >=? 0))
                             (ret false).

Definition _get_mask : M Z :=
  num_bytes <- get num_bytes_var ;;
  let num_bits := num_bytes * 8 in
  one_shl <- lshift 1 num_bits ;;
  ret (one_shl - 1).

(** The body of the loop [for i in range(64)] of [_update_display]. *)
Definition update_checkbox (display_value num_bits i : Z) : M unit :=
  let is_active_bit := i <? num_bits in
  (if is_active_bit then set_checkbox_state i false
   else set_checkbox_state i true) ;;
  if is_active_bit then
    shifted <- rshift display_value i ;;
    if truthy (Z.land shifted 1) then set_bit_var i 1
    else set_bit_var i 0
  else set_bit_var i 0.

(** The writes to the four text variables fire their traces, which are
    [_update_from_entry]; it returns at once since [_is_updating] is set. *)
Definition _update_display : M unit :=
  update (set_is_updating true) ;;
  mask <- _get_mask ;;
  current <- get _current_value ;;
  let display_value := Z.land current mask in
  num_bytes <- get num_bytes_var ;;
  let num_bits := num_bytes * 8 in
  update (set_hex_var (format_X display_value)) ;;
  signed <- get signed_mode_var ;;
  (if signed then
     top <- rshift display_value (num_bits - 1) ;;
     if truthy (Z.land top 1) then
       one_shl <- lshift 1 num_bits ;;
       let signed_val := display_value - one_shl in
       update (set_dec_var (py_str signed_val))
     else update (set_dec_var (py_str display_value))
   else update (set_dec_var (py_str display_value))) ;;
  update (set_oct_var (format_o display_value)) ;;
  update (set_bin_var (if (num_bits >? 0) || (display_value >? 0)
                       then format_b display_value else "0")) ;;
  for_in (range 64) (fun i _ => update_checkbox display_value num_bits i) tt ;;
  update (set_is_updating false).

Definition base_map (source : entry) : Z :=
  match source with hex => 16 | dec => 10 | oct => 8 | bin => 2 end.

Definition var_map (source : entry) : BitCalc -> string :=
  match source with
  | hex => hex_var | dec => dec_var | oct => oct_var | bin => bin_var
  end.

Definition _update_from_entry (source : entry) : M unit :=
  updating <- get _is_updating ;;
  if updating then ret tt
  else
    text <- get (var_map source) ;;
    let value_str := strip text in
    (if is_empty value_str then update (set_current_value 0)
     else
       try_except_ValueError
         (signed <- get signed_mode_var ;;
          if entry_eqb source dec && signed then
            num_val <- py_int value_str 10 ;;
            num_bytes <- get num_bytes_var ;;
            let num_bits := num_bytes * 8 in
            if num_val <? 0 then
              half <- lshift 1 (num_bits - 1) ;;
              if num_val >=? - half then
                one_shl <- lshift 1 num_bits ;;
                update (set_current_value (one_shl + num_val))
              else
                mask <- _get_mask ;;
                update (set_current_value (Z.land num_val mask))
            else
              half <- lshift 1 (num_bits - 1) ;;
              if num_val <? half then update (set_current_value num_val)
              else
                mask <- _get_mask ;;
                update (set_current_value (Z.land num_val mask))
          else
            num_val <- py_int value_str (base_map source) ;;
            update (set_current_value num_val))
         (if is_empty value_str then update (set_current_value 0)
          else ret tt)) ;;
    _update_display.

Definition _update_from_bits : M unit :=
  updating <- get _is_updating ;;
  if updating then ret tt
  else
    vars <- get bit_vars ;;
    new_value <- for_in (enumerate vars) (fun '(i, var) new_value =>
      if var =? 1 then
        one_shl <- lshift 1 i ;;
        ret (Z.lor new_value one_shl)
      else ret new_value) 0 ;;
    update (set_current_value new_value) ;;
    _update_display.

Definition _on_num_bytes_change : M unit :=
  new_mask <- _get_mask ;;
  current <- get _current_value ;;
  update (set_current_value (Z.land current new_mask)) ;;
  _update_display.

Definition _shift_left : M unit :=
  amount <- get shift_amount_var ;;
  if amount <? 0 then ret tt
  else
    mask <- _get_mask ;;
    current <- get _current_value ;;
    shifted <- lshift current amount ;;
    update (set_current_value (Z.land shifted mask)) ;;
    _update_display.

Definition _shift_right_logical : M unit :=
  amount <- get shift_amount_var ;;
  if amount <? 0 then ret tt
  else
    mask <- _get_mask ;;
    current <- get _current_value ;;
    shifted <- rshift current amount ;;
    update (set_current_value (Z.land shifted mask)) ;;
    _update_display.

Definition _shift_right_arithmetic : M unit :=
  amount <- get shift_amount_var ;;
  if amount <? 0 then ret tt
  else
    num_bytes <- get num_bytes_var ;;
    let num_bits := num_bytes * 8 in
    mask <- _get_mask ;;
    if num_bits =? 0 then
      update (set_current_value 0) ;;
      _update_display
    else
      current <- get _current_value ;;
      top <- rshift current (num_bits - 1) ;;
      let msb_is_set := Z.land top 1 in
      val <- for_in (range amount) (fun _ val =>
        if truthy msb_is_set then
          shifted <- rshift val 1 ;;
          fill <- lshift 1 (num_bits - 1) ;;
          ret (Z.lor shifted fill)
        else rshift val 1) current ;;
      update (set_current_value (Z.land val mask)) ;;
      _update_display.

Definition _rotate_left : M unit :=
  amount <- get shift_amount_var ;;
  if amount <? 0 then ret tt
  else
    num_bytes <- get num_bytes_var ;;
    let num_bits := num_bytes * 8 in
    if num_bits =? 0 then ret tt
    else
      mask <- _get_mask ;;
      let amount := amount mod num_bits in
      current <- get _current_value ;;
      let val := Z.land current mask in
      high <- lshift val amount ;;
      low <- rshift val (num_bits - amount) ;;
      let rotated := Z.land (Z.lor high low) mask in
      update (set_current_value rotated) ;;
      _update_display.

Definition _rotate_right : M unit :=
  amount <- get shift_amount_var ;;
  if amount <? 0 then ret tt
  else
    num_bytes <- get num_bytes_var ;;
    let num_bits := num_bytes * 8 in
    if num_bits =? 0 then ret tt
    else
      mask <- _get_mask ;;
      let amount := amount mod num_bits in
      current <- get _current_value ;;
      let val := Z.land current mask in
      low <- rshift val amount ;;
      high <- lshift val (num_bits - amount) ;;
      let rotated := Z.land (Z.lor low high) mask in
      update (set_current_value rotated) ;;
      _update_display.

Definition _invert_bits : M unit :=
  mask <- _get_mask ;;
  current <- get _current_value ;;
  update (set_current_value (Z.land (Z.lnot current) mask)) ;;
  _update_display.

Definition _reverse_bits : M unit :=
  num_bytes <- get num_bytes_var ;;
  let num_bits := num_bytes * 8 in
  current <- get _current_value ;;
  mask <- _get_mask ;;
  let val := Z.land current mask in
  reversed_val <- for_in (range num_bits) (fun i reversed_val =>
    shifted <- rshift val i ;;
    if truthy (Z.land shifted 1) then
      one_shl <- lshift 1 (num_bits - 1 - i) ;;
      ret (Z.lor reversed_val one_shl)
    else ret reversed_val) 0 ;;
  update (set_current_value reversed_val) ;;
  _update_display.

Definition _clear_bits : M unit :=
  update (set_current_value 0) ;;
  _update_display.

(** ** The wiring of [__init__]: widgets, variables and traces *)

Definition validatecommand (source : entry) : string -> M bool :=
  match source with
  | hex => _validate_hex
  | dec => _validate_dec
  | oct => _validate_oct
  | bin => _validate_bin
  end.

Definition write_var (source : entry) (text : string) : BitCalc -> BitCalc :=
  match source with
  | hex => set_hex_var text
  | dec => set_dec_var text
  | oct => set_oct_var text
  | bin => set_bin_var text
  end.

(** An edit in an entry field ([validate="key"]): the validator sees the
    prospective text [P]; when it agrees the text variable is written and
    the trace of the variable runs. *)
Definition entry_key (source : entry) (P : string) : M unit :=
  accepted <- validatecommand source P ;;
  if accepted then
    update (write_var source P) ;;
    _update_from_entry source
  else ret tt.

(** A radio button of "Select Bytes" writes [num_bytes_var]. *)
Definition select_bytes (n : Z) : M unit :=
  update (set_num_bytes_var n) ;;
  _on_num_bytes_change.

(** The "Signed" check button writes [signed_mode_var]. *)
Definition select_signed (b : bool) : M unit :=
  update (set_signed_mode_var b) ;;
  _update_display.

(** A click on bit check button [i]: nothing when the widget is disabled,
    else its variable flips between 0 and 1 and the command runs. *)
Definition click_bit (i : nat) : M unit :=
  disabled <- get checkbox_disabled ;;
  if nth i disabled true then ret tt
  else
    vars <- get bit_vars ;;
    set_bit_var (Z.of_nat i) (if nth i vars 0 =? 1 then 0 else 1) ;;
    _update_from_bits.

(** The instance before [_load_settings], and [__init__] from there on
    with the three settings read from the configuration file. *)
Definition fresh : BitCalc :=
  mkBitCalc 0 false 0 "" "" "" "" (repeat 0 64) (repeat false 64) false 1.

Definition startup (num_bytes : Z) (signed_mode : bool) (shift_amount : Z)
  : M unit :=
  select_bytes num_bytes ;;
  select_signed signed_mode ;;
  update (set_shift_amount_var shift_amount) ;;
  _update_display.


(** ** Notions of the specification *)

(** [mask(width) = (1 << width) - 1] *)
Definition mask (width : Z) : Z := 2 ^ width - 1.

(** The active width, in bits. *)
Definition Width (st : BitCalc) : Z := num_bytes_var st * 8.

(** All 64 check buttons and their variables exist. *)
Definition well_formed (st : BitCalc) : Prop :=
  List.length (bit_vars st) = 64%nat
  /\ List.length (checkbox_disabled st) = 64%nat.

(** What [_update_display] shows of a value at a width. *)
Definition bit_at (value i : Z) : Z := Z.land (Z.shiftr value i) 1.

Definition dec_text (signed : bool) (value width : Z) : string :=
  if signed && truthy (bit_at value (width - 1))
  then py_str (value - 2 ^ width)
  else py_str value.

Definition bin_text (value width : Z) : string :=
  if (width >? 0) || (value >? 0) then format_b value else "0".

Definition bit_state (value width i : Z) : Z :=
  if (i <? width) && truthy (bit_at value i) then 1 else 0.

Definition displayed (st : BitCalc) : BitCalc :=
  let value := Z.land (_current_value st) (mask (Width st)) in
  mkBitCalc (_current_value st) false (num_bytes_var st)
    (format_X value)
    (dec_text (signed_mode_var st) value (Width st))
    (format_o value)
    (bin_text value (Width st))
    (map (bit_state value (Width st)) (range 64))
    (map (fun i => negb (i <? Width st)) (range 64))
    (signed_mode_var st) (shift_amount_var st).

(** The value each operation stores, as a function of the stored value,
    the width and the amount. *)
Definition shiftLeft (v w n : Z) : Z := Z.land (Z.shiftl v n) (mask w).

Definition shiftRightLogical (v w n : Z) : Z := Z.land (Z.shiftr v n) (mask w).

Definition asr_step (msb_is_set w val : Z) : Z :=
  if truthy msb_is_set then Z.lor (Z.shiftr val 1) (Z.shiftl 1 (w - 1))
  else Z.shiftr val 1.

Definition shiftRightArithmetic (v w n : Z) : Z :=
  Z.land (fold_left (fun val _ => asr_step (bit_at v (w - 1)) w val)
                    (range n) v)
         (mask w).

Definition rotateLeft (v w n : Z) : Z :=
  let val := Z.land v (mask w) in
  Z.land (Z.lor (Z.shiftl val (n mod w)) (Z.shiftr val (w - n mod w)))
         (mask w).

Definition rotateRight (v w n : Z) : Z :=
  let val := Z.land v (mask w) in
  Z.land (Z.lor (Z.shiftr val (n mod w)) (Z.shiftl val (w - n mod w)))
         (mask w).

Definition invert (v w : Z) : Z := Z.land (Z.lnot v) (mask w).

Definition reverse_step (val w i reversed_val : Z) : Z :=
  if truthy (bit_at val i) then Z.lor reversed_val (Z.shiftl 1 (w - 1 - i))
  else reversed_val.

Definition reverse (v w : Z) : Z :=
  fold_left (fun reversed_val i => reverse_step (Z.land v (mask w)) w i
                                                reversed_val)
            (range w) 0.

(** Bit [i] of the value after [k] rounds of the loop of
    [_shift_right_arithmetic] started at [v]. *)
Definition sign_extended (v w k val : Z) : Prop :=
  forall i, 0 <= i ->
    Z.testbit val i =
    if i <? w then (if i + k <? w then Z.testbit v (i + k)
                    else Z.testbit v (w - 1))
    else false.

(** A digit of the base. *)
Definition is_digit (base : Z) (c : ascii) : bool :=
  _PyLong_DigitValue c <? base.

(** The value [_update_from_entry] stores for a signed decimal literal. *)
Definition signed_entry_value (literal w : Z) : Z :=
  if literal <? 0 then
    if literal >=? - 2 ^ (w - 1) then 2 ^ w + literal
    else Z.land literal (mask w)
  else
    if literal <? 2 ^ (w - 1) then literal
    else Z.land literal (mask w).

(** The texts [int(text, base)] reads, with their number of digits:
    blanks, a sign, a base prefix, digits with single underscores between
    them, blanks. *)
Definition blank (s : string) : Prop := all_chars Py_ISSPACE s = true.

Inductive sign_text : string -> Prop :=
| sign_none : sign_text ""
| sign_plus : sign_text "+"
| sign_minus : sign_text "-".

Inductive prefix_text (base : Z) : string -> Prop :=
| prefix_none : prefix_text base ""
| prefix_plain (c : ascii) :
    prefix_letter base c = true ->
    prefix_text base (String "0" (String c ""))
| prefix_underscore (c : ascii) :
    prefix_letter base c = true ->
    prefix_text base (String "0" (String c "_")).

(** What may follow a digit. *)
Inductive digit_tail (base : Z) : string -> nat -> Prop :=
| tail_end : digit_tail base "" 0
| tail_digit (c : ascii) (t : string) (k : nat) :
    is_digit base c = true -> digit_tail base t k ->
    digit_tail base (String c t) (S k)
| tail_underscore (c : ascii) (t : string) (k : nat) :
    is_digit base c = true -> digit_tail base t k ->
    digit_tail base (String "_" (String c t)) (S k).

Inductive digit_group (base : Z) : string -> nat -> Prop :=
| group_intro (c : ascii) (t : string) (k : nat) :
    is_digit base c = true -> digit_tail base t k ->
    digit_group base (String c t) (S k).

Definition int_literal (base : Z) (text : string) (digits : nat) : Prop :=
  exists blanks1 sign pre body blanks2,
    text = (blanks1 ++ sign ++ pre ++ body ++ blanks2)%string
    /\ blank blanks1
    /\ sign_text sign
    /\ prefix_text base pre
    /\ digit_group base body digits
    /\ blank blanks2.

(** A validator answers yes, or no, and leaves the instance alone. *)
Definition accepts (validate : string -> M bool) (st : BitCalc) (P : string)
  : Prop :=
  validate P st = (Ok true, st).

Definition rejects (validate : string -> M bool) (st : BitCalc) (P : string)
  : Prop :=
  validate P st = (Ok false, st).

(** The instance with a stored value, once displayed. *)
Definition instance_at (num_bytes : Z) (signed_mode : bool)
           (value shift_amount : Z) : BitCalc :=
  displayed (mkBitCalc value false num_bytes "" "" "" "" (repeat 0 64)
                       (repeat false 64) signed_mode shift_amount).

(** The same with [text] typed into the decimal field. *)
Definition instance_with_dec (num_bytes : Z) (signed_mode : bool)
           (value : Z) (text : string) : BitCalc :=
  set_dec_var text (instance_at num_bytes signed_mode value 1).

(** The two's complement reading of a value at a width, as the signed
    decimal field shows it. *)
Definition to_signed (v w : Z) : Z :=
  if Z.testbit v (w - 1) then v - 2 ^ w else v.

(** The Amount entry writes [shift_amount_var]. *)
Definition set_amount (n : Z) : M unit := update (set_shift_amount_var n).


(** A computation returns and leaves [x] as the stored value. *)
Definition stores (m : M unit) (st : BitCalc) (x : Z) : Prop :=
  exists st', m st = (Ok tt, st') /\ _current_value st' = x.

(** Two runs return and store the same value. *)
Definition store_the_same (m1 : M unit) (st1 : BitCalc) (m2 : M unit)
           (st2 : BitCalc) : Prop :=
  exists x, stores m1 st1 x /\ stores m2 st2 x.


(** The value [_update_from_bits] rebuilds from the check box variables. *)
Definition from_bits (vars : list Z) : Z :=
  fold_left (fun new_value (iv : Z * Z) =>
               if snd iv =? 1 then Z.lor new_value (Z.shiftl 1 (fst iv))
               else new_value)
            (enumerate vars) 0.


(** ** The bit grid of [_create_bit_display] *)

(** A check button of the grid: the cell of its frame in the grid, the
    position in [bit_vars] of its variable, the text of the label packed
    under it. *)
Record Checkbutton : Type := mkCheckbutton {
  grid_row : Z;
  grid_column : Z;
  variable : Z;
  label_text : string
}.

Record Separator : Type := mkSeparator {
  sep_row : Z;
  sep_column : Z;
  sep_rowspan : Z
}.

Record ByteLabel : Type := mkByteLabel {
  byte_label_text : string;
  label_row : Z;
  label_column : Z;
  label_columnspan : Z
}.

(** One round of the loop [for i in range(64)]: the widget goes into
    [checkbox_widgets[bit_index]]; [bit_vars[bit_index]] is in range when
    that slot is, both lists having 64 entries. *)
Definition create_checkbox (i : Z)
           (checkbox_widgets : list (option Checkbutton))
  : option (list (option Checkbutton)) :=
  let byte_num := 7 - i / 8 in
  let checkbox_frame_base_row := 1 - byte_num / 4 in
  let actual_checkbox_row := checkbox_frame_base_row * 2 + 1 in
  let byte_group_col_idx := 3 - byte_num mod 4 in
  let byte_group_col_offset := byte_group_col_idx * 9 in
  let actual_checkbox_col := i mod 8 + byte_group_col_offset in
  let bit_index := 63 - i in
  let cb := mkCheckbutton actual_checkbox_row actual_checkbox_col bit_index
                          (py_str bit_index) in
  setitem checkbox_widgets bit_index (Some cb).

(** [_create_bit_display] on the [checkbox_widgets = [None] * 64] of
    [__init__]: the widgets, the separators and the byte labels it puts
    on the grid; [None] is an [IndexError]. *)
Definition _create_bit_display
  : option (list (option Checkbutton) * list Separator * list ByteLabel) :=
  let checkbox_widgets :=
    fold_left (fun widgets i =>
                 match widgets with
                 | Some l => create_checkbox i l
                 | None => None
                 end)
              (range 64) (Some (repeat None 64)) in
  let separators :=
    flat_map (fun row_idx =>
                let separator_row := row_idx * 2 + 1 in
                map (fun i =>
                       let sep_col := i * 9 + 8 in
                       mkSeparator separator_row sep_col 2)
                    (range 3))
             (range 2) in
  let byte_labels :=
    map (fun i =>
           let byte_label_text := (py_str (8 - i) ++ "byte")%string in
           let actual_label_col := i mod 4 * 9 in
           let actual_label_row := i / 4 * 2 in
           mkByteLabel byte_label_text actual_label_row actual_label_col 8)
        (range 8) in
  match checkbox_widgets with
  | Some l => Some (l, separators, byte_labels)
  | None => None
  end.


(** [s.isascii()] and ["-" in s] *)
Definition isascii (s : string) : bool :=
  all_chars (fun c => ord c <? 128) s.

Definition contains_minus (s : string) : bool :=
  negb (all_chars (fun c => negb (Ascii.eqb c "-")) s).


(** * Properties *)

(** ** Running the monad *)

Lemma lshift_nonneg (a n : Z) : 0 <= n -> lshift a n = ret (Z.shiftl a n).
Proof.
  intros Hn. unfold lshift.
  destruct (Z.ltb_spec n 0); [lia | reflexivity].
Qed.

Lemma rshift_nonneg (a n : Z) : 0 <= n -> rshift a n = ret (Z.shiftr a n).
Proof.
  intros Hn. unfold rshift.
  destruct (Z.ltb_spec n 0); [lia | reflexivity].
Qed.

Lemma _get_mask_run (st : BitCalc) :
  0 <= num_bytes_var st -> _get_mask st = (Ok (mask (Width st)), st).
Proof.
  intros Hn. unfold _get_mask, bind, get.
  rewrite lshift_nonneg by lia. unfold ret, mask, Width.
  now rewrite Z.shiftl_1_l.
Qed.

Lemma bind_run {A B : Type} (m : M A) (k : A -> M B) (st st' : BitCalc)
      (a : A) :
  m st = (Ok a, st') -> (x <- m ;; k x) st = k a st'.
Proof. intros H. unfold bind. now rewrite H. Qed.

Lemma bind_ret_l {A B : Type} (a : A) (k : A -> M B) :
  (x <- ret a ;; k x) = k a.
Proof. reflexivity. Qed.

Lemma bind_assoc_run {A B C : Type} (m : M A) (k : A -> M B) (h : B -> M C)
      (st : BitCalc) :
  (y <- (x <- m ;; k x) ;; h y) st = (x <- m ;; y <- k x ;; h y) st.
Proof. unfold bind. now destruct (m st) as [[a|e] st']. Qed.


(** A loop whose body neither raises nor touches the instance is a fold. *)
Lemma for_in_ret {X A : Type} (f : X -> A -> A) (l : list X)
      (body : X -> A -> M A) :
  (forall x a, In x l -> body x a = ret (f x a)) ->
  forall a st,
    for_in l body a st = (Ok (fold_left (fun a x => f x a) l a), st).
Proof.
  induction l as [|x l IH]; intros Hbody a st; simpl.
  - reflexivity.
  - unfold bind. rewrite (Hbody x a (or_introl eq_refl)). unfold ret at 1.
    apply IH. intros y b Hy. apply Hbody. now right.
Qed.

(** ** The display *)

Lemma list_set_middle {A : Type} (pre suf : list A) (x v : A) :
  list_set (pre ++ x :: suf) (List.length pre) v = pre ++ v :: suf.
Proof.
  induction pre as [|y pre IH]; simpl; [reflexivity | now rewrite IH].
Qed.

Lemma setitem_middle {A : Type} (pre suf : list A) (x v : A) :
  setitem (pre ++ x :: suf) (Z.of_nat (List.length pre)) v
  = Some (pre ++ v :: suf).
Proof.
  unfold setitem. rewrite length_app. simpl List.length.
  destruct (Z.leb_spec 0 (Z.of_nat (List.length pre))); [|lia].
  destruct (Z.ltb_spec (Z.of_nat (List.length pre))
              (Z.of_nat (List.length pre + S (List.length suf)))); [|lia].
  simpl. now rewrite Nat2Z.id, list_set_middle.
Qed.

Lemma update_checkbox_run (value width : Z) (st : BitCalc)
      (pre suf : list Z) (cpre csuf : list bool) (x : Z) (c : bool) :
  bit_vars st = pre ++ x :: suf ->
  checkbox_disabled st = cpre ++ c :: csuf ->
  List.length cpre = List.length pre ->
  update_checkbox value width (Z.of_nat (List.length pre)) st =
  (Ok tt,
   set_bit_vars
     (pre ++ bit_state value width (Z.of_nat (List.length pre)) :: suf)
     (set_checkbox_disabled
        (cpre ++ negb (Z.of_nat (List.length pre) <? width) :: csuf) st)).
Proof.
  intros Hb Hc Hl. unfold update_checkbox, bit_state, bit_at.
  rewrite rshift_nonneg by lia.
  destruct (Z.of_nat (List.length pre) <? width) eqn:Hact;
    unfold bind, set_checkbox_state; rewrite Hc, <- Hl, setitem_middle;
    rewrite Hl; cbn [ret andb negb].
  - destruct (truthy _); unfold set_bit_var; cbn [bit_vars set_checkbox_disabled];
      rewrite Hb, setitem_middle; reflexivity.
  - unfold set_bit_var; cbn [bit_vars set_checkbox_disabled];
      rewrite Hb, setitem_middle; reflexivity.
Qed.

Lemma update_checkbox_loop (value width : Z) (m : nat) :
  forall (st : BitCalc) (pre suf : list Z) (cpre csuf : list bool),
    bit_vars st = pre ++ suf ->
    checkbox_disabled st = cpre ++ csuf ->
    List.length cpre = List.length pre ->
    List.length suf = m -> List.length csuf = m ->
    for_in (map Z.of_nat (seq (List.length pre) m))
           (fun i _ => update_checkbox value width i) tt st =
    (Ok tt,
     set_bit_vars
       (pre ++ map (bit_state value width)
                   (map Z.of_nat (seq (List.length pre) m)))
       (set_checkbox_disabled
          (cpre ++ map (fun i => negb (i <? width))
                       (map Z.of_nat (seq (List.length pre) m))) st)).
Proof.
  induction m as [|m IH]; intros st pre suf cpre csuf Hb Hc Hl Hs Hcs.
  - destruct suf; [|discriminate]. destruct csuf; [|discriminate].
    simpl. rewrite !app_nil_r in *. destruct st; simpl in *; subst.
    reflexivity.
  - destruct suf as [|x suf]; [discriminate|].
    destruct csuf as [|c csuf]; [discriminate|].
    simpl in Hs, Hcs. injection Hs as Hs. injection Hcs as Hcs.
    cbn [seq map for_in]. unfold bind.
    rewrite (update_checkbox_run value width st pre suf cpre csuf x c Hb Hc Hl).
    set (v := bit_state value width (Z.of_nat (List.length pre))).
    set (b := negb (Z.of_nat (List.length pre) <? width)).
    specialize (IH (set_bit_vars (pre ++ v :: suf)
                      (set_checkbox_disabled (cpre ++ b :: csuf) st))
                   (pre ++ [v]) suf (cpre ++ [b]) csuf).
    rewrite !length_app in IH. simpl List.length in IH.
    rewrite !Nat.add_1_r in IH. rewrite IH.
    + rewrite <- !app_assoc. reflexivity.
    + rewrite <- app_assoc. reflexivity.
    + rewrite <- app_assoc. reflexivity.
    + now rewrite Hl.
    + assumption.
    + assumption.
Qed.

Lemma for_in_update_checkbox (value width : Z) (st : BitCalc) :
  well_formed st ->
  for_in (range 64) (fun i _ => update_checkbox value width i) tt st =
  (Ok tt,
   set_bit_vars (map (bit_state value width) (range 64))
     (set_checkbox_disabled
        (map (fun i => negb (i <? width)) (range 64)) st)).
Proof.
  intros [Hb Hc].
  exact (update_checkbox_loop value width 64 st [] (bit_vars st) []
           (checkbox_disabled st) eq_refl eq_refl eq_refl Hb Hc).
Qed.

(** Unfolding of the monad and of the record updates, nothing else. *)
Ltac run1 :=
  cbn [bind get update ret raise fst snd
       _current_value _is_updating num_bytes_var hex_var dec_var oct_var
       bin_var bit_vars checkbox_disabled signed_mode_var shift_amount_var
       set_current_value set_is_updating set_num_bytes_var set_hex_var
       set_dec_var set_oct_var set_bin_var set_bit_vars
       set_checkbox_disabled set_signed_mode_var set_shift_amount_var].

Ltac run := run1; repeat (rewrite bind_assoc_run; run1).

(** [_update_display] returns, and leaves the instance as [displayed]
    tells, whenever the width is not negative (and not zero in signed
    mode, where the sign bit is looked up at position [width - 1]). *)
Lemma _update_display_run (st : BitCalc) :
  well_formed st ->
  0 <= num_bytes_var st ->
  (signed_mode_var st = true -> 1 <= num_bytes_var st) ->
  _update_display st = (Ok tt, displayed st).
Proof.
  intros Hwf Hn Hs. unfold _update_display.
  run. rewrite (bind_run _ _ _ _ _ (_get_mask_run (set_is_updating true st) Hn)).
  unfold displayed, dec_text, bin_text, bit_at, Width.
  destruct st as [cur upd nb h d o b bits boxes sg amt].
  cbn [num_bytes_var signed_mode_var] in Hn, Hs. run.
  set (width := nb * 8).
  set (value := Z.land cur (mask width)).
  destruct sg; cbn [andb].
  - specialize (Hs eq_refl).
    rewrite rshift_nonneg by (subst width; lia). run.
    destruct (truthy (Z.land (Z.shiftr value (width - 1)) 1)).
    + rewrite lshift_nonneg by (subst width; lia). run.
      erewrite bind_run by (apply for_in_update_checkbox; exact Hwf). run.
      rewrite Z.shiftl_1_l. reflexivity.
    + run. erewrite bind_run by (apply for_in_update_checkbox; exact Hwf).
      reflexivity.
  - run. erewrite bind_run by (apply for_in_update_checkbox; exact Hwf).
    reflexivity.
Qed.


(** ** Bits of masks and of values in range *)

Lemma mask_ones (w : Z) : mask w = Z.ones w.
Proof. unfold mask. rewrite Z.ones_equiv. lia. Qed.

Lemma testbit_mask (w i : Z) :
  0 <= w -> 0 <= i -> Z.testbit (mask w) i = (i <? w).
Proof. intros. rewrite mask_ones. now apply Z.testbit_ones_nonneg. Qed.

Lemma mask_nonneg (w : Z) : 0 <= w -> 0 <= mask w.
Proof. intros H. unfold mask. pose proof (Z.pow_pos_nonneg 2 w). lia. Qed.

Lemma land_mask_mod (v w : Z) : 0 <= w -> Z.land v (mask w) = v mod 2 ^ w.
Proof. intros. rewrite mask_ones. now apply Z.land_ones. Qed.

Lemma land_mask_range (v w : Z) : 0 <= w -> 0 <= Z.land v (mask w) <= mask w.
Proof.
  intros H. rewrite land_mask_mod by assumption. unfold mask.
  pose proof (Z.mod_pos_bound v (2 ^ w)). pose proof (Z.pow_pos_nonneg 2 w).
  lia.
Qed.

Lemma land_mask_id (v w : Z) :
  0 <= w -> 0 <= v <= mask w -> Z.land v (mask w) = v.
Proof.
  intros H Hv. rewrite land_mask_mod by assumption. unfold mask in Hv.
  apply Z.mod_small. lia.
Qed.

Lemma testbit_above (v w i : Z) :
  0 <= w -> 0 <= v <= mask w -> w <= i -> Z.testbit v i = false.
Proof.
  intros Hw Hv Hi. rewrite <- (land_mask_id v w Hw Hv).
  rewrite Z.land_spec, testbit_mask by lia.
  destruct (Z.ltb_spec i w); [lia|]. apply andb_false_r.
Qed.

Lemma land_1_testbit (a : Z) : Z.land a 1 = Z.b2z (Z.testbit a 0).
Proof.
  change 1 with (Z.ones 1) at 1. rewrite Z.land_ones by lia.
  symmetry. apply Z.bit0_mod.
Qed.

Lemma truthy_bit_at (v i : Z) : 0 <= i -> truthy (bit_at v i) = Z.testbit v i.
Proof.
  intros Hi. unfold truthy, bit_at. rewrite land_1_testbit.
  rewrite Z.shiftr_spec by lia. simpl.
  now destruct (Z.testbit v i).
Qed.

Lemma bit_at_cases (v i : Z) : bit_at v i = 0 \/ bit_at v i = 1.
Proof.
  unfold bit_at. rewrite land_1_testbit.
  destruct (Z.testbit _ 0); simpl; auto.
Qed.

Lemma In_range (i n : Z) : In i (range n) -> 0 <= i < n.
Proof.
  unfold range. rewrite in_map_iff. intros [k [<- Hk]].
  apply in_seq in Hk. lia.
Qed.

Ltac case_ltb :=
  repeat match goal with
         | |- context [?a <? ?b] => destruct (Z.ltb_spec a b)
         | |- context [?a <=? ?b] => destruct (Z.leb_spec a b)
         | |- context [?a =? ?b] => destruct (Z.eqb_spec a b)
         end.

Ltac same_bit :=
  match goal with
  | |- Z.testbit ?v ?a = Z.testbit ?v ?b => f_equal; lia
  end.

Lemma testbit_shiftl_1 (n i : Z) :
  0 <= n -> 0 <= i -> Z.testbit (Z.shiftl 1 n) i = (n =? i).
Proof. intros. rewrite Z.shiftl_1_l. now apply Z.pow2_bits_eqb. Qed.

(** ** Arithmetic shift right: the loop extends the sign *)

Section SignExtension.

Variables v w : Z.
Hypothesis Hw : 1 <= w.
Hypothesis Hv : 0 <= v <= mask w.

Lemma sign_extended_start : sign_extended v w 0 v.
Proof.
  intros i Hi. case_ltb; try lia.
  - same_bit.
  - apply testbit_above with (w := w); lia.
Qed.

Lemma sign_extended_step (k val : Z) :
  0 <= k -> sign_extended v w k val ->
  sign_extended v w (k + 1) (asr_step (bit_at v (w - 1)) w val).
Proof.
  intros Hk Hval i Hi. unfold asr_step.
  rewrite truthy_bit_at by lia.
  destruct (Z.testbit v (w - 1)) eqn:Hmsb.
  - rewrite Z.lor_spec, Z.shiftr_spec, testbit_shiftl_1 by lia.
    rewrite (Hval (i + 1)) by lia. rewrite ?Hmsb.
    case_ltb; try lia; rewrite ?orb_false_r, ?orb_true_r;
      try reflexivity; try same_bit.
  - rewrite Z.shiftr_spec by lia. rewrite (Hval (i + 1)) by lia.
    rewrite ?Hmsb. case_ltb; try lia; try reflexivity; try same_bit.
Qed.

Lemma sign_extended_loop (l : list Z) :
  forall k val, 0 <= k -> sign_extended v w k val ->
    sign_extended v w (k + Z.of_nat (List.length l))
      (fold_left (fun val _ => asr_step (bit_at v (w - 1)) w val) l val).
Proof.
  induction l as [|x l IH]; intros k val Hk Hval.
  - simpl. now rewrite Z.add_0_r.
  - cbn [fold_left List.length].
    replace (k + Z.of_nat (S (List.length l)))
      with (k + 1 + Z.of_nat (List.length l)) by lia.
    apply IH; [lia|]. now apply sign_extended_step.
Qed.

Lemma length_range (n : Z) : 0 <= n -> Z.of_nat (List.length (range n)) = n.
Proof. intros. unfold range. rewrite length_map, length_seq. lia. Qed.

Lemma shiftRightArithmetic_bits (n i : Z) :
  0 <= n -> 0 <= i ->
  Z.testbit (shiftRightArithmetic v w n) i =
  (i <? w) && (if i + n <? w then Z.testbit v (i + n)
               else Z.testbit v (w - 1)).
Proof.
  intros Hn Hi. unfold shiftRightArithmetic.
  rewrite Z.land_spec, testbit_mask by lia.
  pose proof (sign_extended_loop (range n) 0 v (Z.le_refl 0)
                sign_extended_start) as H.
  rewrite length_range in H by assumption. rewrite (H i Hi).
  simpl. case_ltb; try lia; now rewrite ?andb_true_r, ?andb_false_r.
Qed.

Lemma shiftRightArithmetic_negative (n : Z) :
  bit_at v (w - 1) = 1 -> 0 <= n -> n < w ->
  shiftRightArithmetic v w n =
  Z.lor (Z.shiftr v n) (Z.land (mask w) (Z.lnot (Z.shiftr (mask w) n))).
Proof.
  intros Hmsb Hn Hlt. apply Z.bits_inj'. intros i Hi.
  rewrite shiftRightArithmetic_bits by assumption.
  pose proof (truthy_bit_at v (w - 1)) as Ht. rewrite Hmsb in Ht.
  rewrite <- Ht by lia. cbn [truthy Z.eqb negb].
  rewrite Z.lor_spec, Z.land_spec, Z.lnot_spec, !Z.shiftr_spec by lia.
  rewrite !testbit_mask by lia.
  case_ltb; try lia; cbn [andb negb orb];
    rewrite ?orb_false_r, ?orb_true_r; try reflexivity.
  symmetry. apply testbit_above with (w := w); lia.
Qed.

Lemma shiftRightArithmetic_negative_saturates (n : Z) :
  bit_at v (w - 1) = 1 -> w <= n -> shiftRightArithmetic v w n = mask w.
Proof.
  intros Hmsb Hn. apply Z.bits_inj'. intros i Hi.
  rewrite shiftRightArithmetic_bits by lia.
  pose proof (truthy_bit_at v (w - 1)) as Ht. rewrite Hmsb in Ht.
  rewrite <- Ht by lia. cbn [truthy Z.eqb negb].
  rewrite testbit_mask by lia.
  case_ltb; try lia; reflexivity.
Qed.

Lemma shiftRightArithmetic_positive (n : Z) :
  bit_at v (w - 1) = 0 -> 0 <= n ->
  shiftRightArithmetic v w n = shiftRightLogical v w n.
Proof.
  intros Hmsb Hn. apply Z.bits_inj'. intros i Hi.
  rewrite shiftRightArithmetic_bits by assumption.
  pose proof (truthy_bit_at v (w - 1)) as Ht. rewrite Hmsb in Ht.
  rewrite <- Ht by lia. cbn [truthy Z.eqb negb].
  unfold shiftRightLogical.
  rewrite Z.land_spec, Z.shiftr_spec, testbit_mask by lia.
  case_ltb; try lia; cbn [andb]; rewrite ?andb_true_r, ?andb_false_r;
    try reflexivity.
  symmetry. apply testbit_above with (w := w); lia.
Qed.

Lemma shiftRightLogical_saturates (n : Z) :
  w <= n -> shiftRightLogical v w n = 0.
Proof.
  intros Hn. apply Z.bits_inj'. intros i Hi. unfold shiftRightLogical.
  rewrite Z.land_spec, Z.shiftr_spec, Z.bits_0 by lia.
  rewrite (testbit_above v w (i + n)) by lia. reflexivity.
Qed.

End SignExtension.

(** ** Rotations *)

Lemma testbit_land_mask (v w i : Z) :
  0 <= w -> Z.testbit (Z.land v (mask w)) i = Z.testbit v i && (0 <=? i) && (i <? w).
Proof.
  intros Hw. destruct (Z.leb_spec 0 i).
  - rewrite Z.land_spec, testbit_mask by lia. now rewrite andb_true_r.
  - rewrite Z.testbit_neg_r by lia. now rewrite andb_false_r.
Qed.

Lemma rotateLeft_bits (v w n i : Z) :
  1 <= w -> 0 <= i ->
  Z.testbit (rotateLeft v w n) i =
  (i <? w) && (if n mod w <=? i then Z.testbit v (i - n mod w)
               else Z.testbit v (i + w - n mod w)).
Proof.
  intros Hw Hi. pose proof (Z.mod_pos_bound n w ltac:(lia)) as Hk.
  unfold rotateLeft. set (k := n mod w) in *.
  rewrite Z.land_spec, Z.lor_spec, Z.shiftl_spec, Z.shiftr_spec by lia.
  rewrite testbit_mask, !testbit_land_mask by lia.
  case_ltb; try lia; cbn [andb orb];
    rewrite ?andb_true_r, ?andb_false_r, ?orb_false_r; cbn [andb orb];
    try reflexivity; same_bit.
Qed.

Lemma rotateRight_bits (v w n i : Z) :
  1 <= w -> 0 <= i ->
  Z.testbit (rotateRight v w n) i =
  (i <? w) && (if i + n mod w <? w then Z.testbit v (i + n mod w)
               else Z.testbit v (i + n mod w - w)).
Proof.
  intros Hw Hi. pose proof (Z.mod_pos_bound n w ltac:(lia)) as Hk.
  unfold rotateRight. set (k := n mod w) in *.
  rewrite Z.land_spec, Z.lor_spec, Z.shiftl_spec, Z.shiftr_spec by lia.
  rewrite testbit_mask, !testbit_land_mask by lia.
  case_ltb; try lia; cbn [andb orb];
    rewrite ?andb_true_r, ?andb_false_r, ?orb_false_r; cbn [andb orb];
    try reflexivity; same_bit.
Qed.

Lemma rotateRight_rotateLeft (v w n : Z) :
  1 <= w -> 0 <= v <= mask w -> rotateRight (rotateLeft v w n) w n = v.
Proof.
  intros Hw Hv. pose proof (Z.mod_pos_bound n w ltac:(lia)) as Hk.
  apply Z.bits_inj'. intros i Hi.
  rewrite rotateRight_bits by lia.
  destruct (Z.ltb_spec i w) as [Hlt|Hge]; cbn [andb].
  - destruct (Z.ltb_spec (i + n mod w) w);
      rewrite rotateLeft_bits by lia;
      case_ltb; try lia; cbn [andb]; same_bit.
  - symmetry. apply testbit_above with (w := w); lia.
Qed.

Lemma rotateLeft_land_mask (v w n : Z) :
  0 <= w -> rotateLeft (Z.land v (mask w)) w n = rotateLeft v w n.
Proof.
  intros Hw. unfold rotateLeft.
  rewrite (land_mask_id (Z.land v (mask w)) w Hw (land_mask_range v w Hw)).
  reflexivity.
Qed.

Lemma rotateRight_land_mask (v w n : Z) :
  0 <= w -> rotateRight (Z.land v (mask w)) w n = rotateRight v w n.
Proof.
  intros Hw. unfold rotateRight.
  rewrite (land_mask_id (Z.land v (mask w)) w Hw (land_mask_range v w Hw)).
  reflexivity.
Qed.

(** ** Invert and reverse *)

Lemma invert_invert (v w : Z) :
  0 <= w -> 0 <= v <= mask w -> invert (invert v w) w = v.
Proof.
  intros Hw Hv. apply Z.bits_inj'. intros i Hi. unfold invert.
  rewrite !Z.land_spec, Z.lnot_spec, Z.land_spec, Z.lnot_spec by lia.
  rewrite testbit_mask by lia.
  destruct (Z.ltb_spec i w).
  - rewrite !andb_true_r. apply negb_involutive.
  - rewrite andb_false_r. symmetry.
    apply testbit_above with (w := w); lia.
Qed.

Lemma invert_land_mask (v w : Z) :
  0 <= w -> invert (Z.land v (mask w)) w = invert v w.
Proof.
  intros Hw. apply Z.bits_inj'. intros i Hi. unfold invert.
  rewrite !Z.land_spec, !Z.lnot_spec, Z.land_spec by lia.
  rewrite testbit_mask by lia.
  destruct (Z.ltb_spec i w); now rewrite ?andb_true_r, ?andb_false_r.
Qed.

Lemma reverse_prefix_bits (val w : Z) (k : nat) (j : Z) :
  Z.of_nat k <= w -> 0 <= j ->
  Z.testbit (fold_left (fun r i => reverse_step val w i r)
                       (map Z.of_nat (seq 0 k)) 0) j =
  (w - Z.of_nat k <=? j) && (j <? w) && Z.testbit val (w - 1 - j).
Proof.
  intros Hk Hj. induction k as [|k IH].
  - simpl. rewrite Z.bits_0. case_ltb; try lia; reflexivity.
  - rewrite seq_S, map_app, fold_left_app. cbn [map fold_left Nat.add].
    unfold reverse_step at 1. rewrite truthy_bit_at by lia.
    destruct (Z.testbit val (Z.of_nat k)) eqn:Hbit.
    + rewrite Z.lor_spec, testbit_shiftl_1, IH by lia.
      case_ltb; try lia; cbn [andb orb]; rewrite ?orb_false_r;
        try reflexivity.
      replace (w - 1 - j) with (Z.of_nat k) by lia. now rewrite Hbit.
    + rewrite IH by lia.
      case_ltb; try lia; cbn [andb]; try reflexivity.
      replace (w - 1 - j) with (Z.of_nat k) by lia. now rewrite Hbit.
Qed.

Lemma reverse_bits (v w j : Z) :
  0 <= w -> 0 <= j ->
  Z.testbit (reverse v w) j = (j <? w) && Z.testbit v (w - 1 - j).
Proof.
  intros Hw Hj. unfold reverse, range.
  rewrite reverse_prefix_bits by lia.
  rewrite testbit_land_mask by lia.
  case_ltb; try lia; cbn [andb]; now rewrite ?andb_true_r.
Qed.

Lemma reverse_reverse (v w : Z) :
  0 <= w -> 0 <= v <= mask w -> reverse (reverse v w) w = v.
Proof.
  intros Hw Hv. apply Z.bits_inj'. intros j Hj.
  rewrite reverse_bits by lia.
  destruct (Z.ltb_spec j w); cbn [andb].
  - rewrite reverse_bits by lia.
    case_ltb; try lia. cbn [andb]. same_bit.
  - symmetry. apply testbit_above with (w := w); lia.
Qed.

Lemma reverse_land_mask (v w : Z) :
  0 <= w -> reverse (Z.land v (mask w)) w = reverse v w.
Proof.
  intros Hw. unfold reverse.
  rewrite (land_mask_id (Z.land v (mask w)) w Hw (land_mask_range v w Hw)).
  reflexivity.
Qed.

(** ** What each operation does to the instance *)

Section Operations.

Variable st : BitCalc.
Hypothesis Hwf : well_formed st.
Hypothesis Hbytes : 1 <= num_bytes_var st.

Lemma stored_run (x : Z) :
  _update_display (set_current_value x st)
  = (Ok tt, displayed (set_current_value x st)).
Proof.
  apply _update_display_run; [exact Hwf | cbn; lia | cbn; lia].
Qed.

Lemma _shift_left_run :
  0 <= shift_amount_var st ->
  _shift_left st = (Ok tt, displayed (set_current_value (shiftLeft (_current_value st)
       (Width st) (shift_amount_var st)) st)).
Proof.
  intros Hn. unfold _shift_left. run.
  destruct (Z.ltb_spec (shift_amount_var st) 0); [lia|]. run.
  erewrite bind_run by (apply _get_mask_run; lia). run.
  rewrite lshift_nonneg by assumption. run.
  apply stored_run.
Qed.

Lemma _shift_right_logical_run :
  0 <= shift_amount_var st ->
  _shift_right_logical st
  = (Ok tt, displayed (set_current_value (shiftRightLogical (_current_value st)
       (Width st) (shift_amount_var st)) st)).
Proof.
  intros Hn. unfold _shift_right_logical. run.
  destruct (Z.ltb_spec (shift_amount_var st) 0); [lia|]. run.
  erewrite bind_run by (apply _get_mask_run; lia). run.
  rewrite rshift_nonneg by assumption. run.
  apply stored_run.
Qed.

Lemma _shift_right_arithmetic_run :
  0 <= shift_amount_var st ->
  _shift_right_arithmetic st
  = (Ok tt, displayed (set_current_value (shiftRightArithmetic (_current_value st)
       (Width st) (shift_amount_var st)) st)).
Proof.
  intros Hn. unfold _shift_right_arithmetic. run.
  destruct (Z.ltb_spec (shift_amount_var st) 0); [lia|]. run.
  erewrite bind_run by (apply _get_mask_run; lia). run.
  destruct (Z.eqb_spec (num_bytes_var st * 8) 0); [lia|]. run.
  rewrite rshift_nonneg by lia. run.
  erewrite bind_run.
  2:{ apply (for_in_ret (fun _ val => asr_step (bit_at (_current_value st) ((Width st) - 1)) (Width st) val)).
      intros x a _. unfold asr_step, bit_at. unfold Width.
      destruct (truthy _).
      - rewrite rshift_nonneg, lshift_nonneg by lia. reflexivity.
      - rewrite rshift_nonneg by lia. reflexivity. }
  run. apply stored_run.
Qed.

Lemma _rotate_left_run :
  0 <= shift_amount_var st ->
  _rotate_left st
  = (Ok tt, displayed (set_current_value (rotateLeft (_current_value st)
       (Width st) (shift_amount_var st)) st)).
Proof.
  intros Hn. unfold _rotate_left. run.
  destruct (Z.ltb_spec (shift_amount_var st) 0); [lia|]. run.
  destruct (Z.eqb_spec (num_bytes_var st * 8) 0); [lia|]. run.
  erewrite bind_run by (apply _get_mask_run; lia). run.
  pose proof (Z.mod_pos_bound (shift_amount_var st) (num_bytes_var st * 8)
                ltac:(lia)).
  rewrite lshift_nonneg, rshift_nonneg by lia. run.
  apply stored_run.
Qed.

Lemma _rotate_right_run :
  0 <= shift_amount_var st ->
  _rotate_right st
  = (Ok tt, displayed (set_current_value (rotateRight (_current_value st)
       (Width st) (shift_amount_var st)) st)).
Proof.
  intros Hn. unfold _rotate_right. run.
  destruct (Z.ltb_spec (shift_amount_var st) 0); [lia|]. run.
  destruct (Z.eqb_spec (num_bytes_var st * 8) 0); [lia|]. run.
  erewrite bind_run by (apply _get_mask_run; lia). run.
  pose proof (Z.mod_pos_bound (shift_amount_var st) (num_bytes_var st * 8)
                ltac:(lia)).
  rewrite lshift_nonneg, rshift_nonneg by lia. run.
  apply stored_run.
Qed.

Lemma _invert_bits_run :
  _invert_bits st = (Ok tt, displayed (set_current_value (invert (_current_value st) (Width st)) st)).
Proof.
  unfold _invert_bits.
  erewrite bind_run by (apply _get_mask_run; lia). run.
  apply stored_run.
Qed.

Lemma _reverse_bits_run :
  _reverse_bits st = (Ok tt, displayed (set_current_value (reverse (_current_value st) (Width st)) st)).
Proof.
  unfold _reverse_bits. run.
  erewrite bind_run by (apply _get_mask_run; lia). run.
  erewrite bind_run.
  2:{ apply (for_in_ret (fun i r => reverse_step (Z.land (_current_value st) (mask (Width st)))
                     (Width st) i r)).
      intros i r Hi. apply In_range in Hi. unfold reverse_step, bit_at.
      unfold Width.
      rewrite rshift_nonneg, bind_ret_l by lia.
      destruct (truthy _).
      - rewrite lshift_nonneg by lia. reflexivity.
      - reflexivity. }
  run. apply stored_run.
Qed.

Lemma _clear_bits_run :
  _clear_bits st = (Ok tt, displayed (set_current_value 0 st)).
Proof. unfold _clear_bits. run. apply stored_run. Qed.

Lemma _on_num_bytes_change_run :
  _on_num_bytes_change st
  = (Ok tt, displayed (set_current_value (Z.land (_current_value st) (mask (Width st))) st)).
Proof.
  unfold _on_num_bytes_change.
  erewrite bind_run by (apply _get_mask_run; lia). run.
  apply stored_run.
Qed.

End Operations.

Lemma well_formed_displayed (st : BitCalc) : well_formed (displayed st).
Proof. split; reflexivity. Qed.

Lemma Width_stored (x : Z) (st : BitCalc) :
  Width (displayed (set_current_value x st)) = Width st.
Proof. reflexivity. Qed.

(** ** Shifts and rotations *)

(** C2: at a width of 8 to 64 bits, for a stored value in range and an
    amount [n >= 0], the arithmetic shift right stores the sign-extended
    value: with [msb = (v >> (w-1)) & 1], if [msb = 1] it stores
    [(v >> n) | (mask(w) & ~(mask(w) >> n))] for [n < w] and [mask(w)] for
    [n >= w]; if [msb = 0] it stores what the logical shift right stores,
    which is 0 for [n >= w]. *)
Theorem shift_right_arithmetic_sign_extends (st : BitCalc) :
  let v := _current_value st in
  let w := Width st in
  let n := shift_amount_var st in
  let msb := Z.land (Z.shiftr v (w - 1)) 1 in
  well_formed st ->
  1 <= num_bytes_var st ->
  0 <= v <= mask w ->
  0 <= n ->
  exists st',
    _shift_right_arithmetic st = (Ok tt, st')
    /\ (msb = 0 \/ msb = 1)
    /\ (msb = 1 -> n < w ->
        _current_value st' =
        Z.lor (Z.shiftr v n) (Z.land (mask w) (Z.lnot (Z.shiftr (mask w) n))))
    /\ (msb = 1 -> w <= n -> _current_value st' = mask w)
    /\ (msb = 0 ->
        exists st'', _shift_right_logical st = (Ok tt, st'')
                     /\ _current_value st' = _current_value st'')
    /\ (msb = 0 -> w <= n -> _current_value st' = 0).
Proof.
  intros v w n msb Hwf Hbytes Hv Hn.
  assert (Hw : 1 <= w) by (subst w; unfold Width; lia).
  eexists. split; [now apply _shift_right_arithmetic_run|].
  cbn [displayed _current_value set_current_value].
  fold v w n. change msb with (bit_at v (w - 1)).
  split; [apply bit_at_cases|]. repeat split.
  - intros Hmsb Hlt. now apply shiftRightArithmetic_negative.
  - intros Hmsb Hge. now apply shiftRightArithmetic_negative_saturates.
  - intros Hmsb. eexists. split; [now apply _shift_right_logical_run|].
    cbn [displayed _current_value set_current_value]. fold v w n.
    now apply shiftRightArithmetic_positive.
  - intros Hmsb Hge. rewrite shiftRightArithmetic_positive by assumption.
    now apply shiftRightLogical_saturates.
Qed.

(** C5: at a width [w > 0], for a stored value in [0, 2^w - 1] and an
    amount [k >= 0] (so for each [k] in [0, w)), rotating left by [k] and
    then right by [k] stores the value it started from. *)
Theorem rotate_right_undoes_rotate_left (st : BitCalc) :
  well_formed st ->
  1 <= num_bytes_var st ->
  0 <= _current_value st <= mask (Width st) ->
  0 <= shift_amount_var st ->
  exists st',
    (_rotate_left ;; _rotate_right) st = (Ok tt, st')
    /\ _current_value st' = _current_value st.
Proof.
  intros Hwf Hbytes Hv Hn.
  erewrite bind_run by (now apply _rotate_left_run).
  eexists. split.
  - apply _rotate_right_run; [apply well_formed_displayed | exact Hbytes
                             | exact Hn].
  - cbn [displayed _current_value set_current_value shift_amount_var].
    rewrite Width_stored.
    apply rotateRight_rotateLeft; [unfold Width; lia | exact Hv].
Qed.

(** C9: with a negative amount each of the five shift and rotate
    operations returns without an exception and leaves the instance, the
    stored value included, as it was. *)
Theorem negative_amount_is_ignored (st : BitCalc) :
  shift_amount_var st < 0 ->
  _shift_left st = (Ok tt, st)
  /\ _shift_right_logical st = (Ok tt, st)
  /\ _shift_right_arithmetic st = (Ok tt, st)
  /\ _rotate_left st = (Ok tt, st)
  /\ _rotate_right st = (Ok tt, st).
Proof.
  intros Hneg.
  unfold _shift_left, _shift_right_logical, _shift_right_arithmetic,
    _rotate_left, _rotate_right.
  run. destruct (Z.ltb_spec (shift_amount_var st) 0); [|lia].
  repeat split.
Qed.

(** ** Invert, reverse and the bits above the width *)

(** C6: at a width of 8 to 64 bits and for a stored value in range,
    reversing twice stores the value it started from, and so does
    inverting twice. *)
Theorem reverse_and_invert_are_involutions (st : BitCalc) :
  well_formed st ->
  1 <= num_bytes_var st ->
  0 <= _current_value st <= mask (Width st) ->
  (exists st', (_reverse_bits ;; _reverse_bits) st = (Ok tt, st')
               /\ _current_value st' = _current_value st)
  /\ (exists st', (_invert_bits ;; _invert_bits) st = (Ok tt, st')
                  /\ _current_value st' = _current_value st).
Proof.
  intros Hwf Hbytes Hv. split.
  - erewrite bind_run by (now apply _reverse_bits_run).
    eexists. split.
    + apply _reverse_bits_run; [apply well_formed_displayed | exact Hbytes].
    + cbn [displayed _current_value set_current_value].
      rewrite Width_stored.
      apply reverse_reverse; [unfold Width; lia | exact Hv].
  - erewrite bind_run by (now apply _invert_bits_run).
    eexists. split.
    + apply _invert_bits_run; [apply well_formed_displayed | exact Hbytes].
    + cbn [displayed _current_value set_current_value].
      rewrite Width_stored.
      apply invert_invert; [unfold Width; lia | exact Hv].
Qed.

(** C10: at a width of 8 to 64 bits and with an amount [n >= 0], rotate
    left, rotate right, reverse and invert do the same on any stored
    integer [v] as on [v & mask(w)]: the same outcome, stored value and
    display. *)
Theorem bits_above_width_are_ignored (st : BitCalc) :
  let masked :=
    set_current_value (Z.land (_current_value st) (mask (Width st))) st in
  well_formed st ->
  1 <= num_bytes_var st ->
  0 <= shift_amount_var st ->
  _rotate_left st = _rotate_left masked
  /\ _rotate_right st = _rotate_right masked
  /\ _reverse_bits st = _reverse_bits masked
  /\ _invert_bits st = _invert_bits masked.
Proof.
  intros masked Hwf Hbytes Hn.
  assert (Hw : 0 <= Width st) by (unfold Width; lia).
  rewrite (_rotate_left_run st), (_rotate_left_run masked),
    (_rotate_right_run st), (_rotate_right_run masked),
    (_reverse_bits_run st), (_reverse_bits_run masked),
    (_invert_bits_run st), (_invert_bits_run masked)
    by assumption.
  subst masked.
  cbn [_current_value set_current_value shift_amount_var].
  change (Width (set_current_value _ st)) with (Width st).
  rewrite rotateLeft_land_mask, rotateRight_land_mask, reverse_land_mask,
    invert_land_mask by assumption.
  repeat split.
Qed.

(** ** Width changes *)

(** C7: selecting [bytes] in 1..8 sets the width to [bytes * 8] and stores
    the old value ANDed with [mask(Width)], so that no bit at or above the
    new width stays; a stored 0x1FF becomes 0xFF when one byte is
    selected. *)
Theorem select_bytes_truncates (st : BitCalc) (bytes : Z) :
  well_formed st ->
  1 <= bytes <= 8 ->
  exists st',
    select_bytes bytes st = (Ok tt, st')
    /\ Width st' = bytes * 8
    /\ _current_value st' = Z.land (_current_value st) (mask (bytes * 8))
    /\ 0 <= _current_value st' <= mask (Width st')
    /\ (forall i, bytes * 8 <= i -> Z.testbit (_current_value st') i = false)
    /\ (_current_value st = 511 -> bytes = 1 -> _current_value st' = 255).
Proof.
  intros Hwf Hb. unfold select_bytes. run.
  eexists. split.
  - apply _on_num_bytes_change_run; [exact Hwf | cbn; lia].
  - cbn [displayed _current_value set_current_value Width num_bytes_var
         set_num_bytes_var].
    split; [reflexivity|]. split; [reflexivity|]. split; [|split].
    + apply land_mask_range. change (0 <= bytes * 8). lia.
    + intros i Hi. change (mask (Width _)) with (mask (bytes * 8)). rewrite testbit_land_mask by lia.
      destruct (Z.ltb_spec i (bytes * 8)); [lia|]. apply andb_false_r.
    + intros -> ->. reflexivity.
Qed.

(** ** Characters *)


Lemma ord_chr (z : Z) : 0 <= z < 256 -> ord (chr z) = z.
Proof.
  intros Hz. unfold ord, chr. rewrite N_ascii_embedding by lia. lia.
Qed.

Lemma ord_inj (c c' : ascii) : ord c = ord c' -> c = c'.
Proof.
  unfold ord. intros H. apply N2Z.inj in H.
  rewrite <- (ascii_N_embedding c), <- (ascii_N_embedding c'). now rewrite H.
Qed.

Lemma ascii_eqb_ord (c c' : ascii) : Ascii.eqb c c' = (ord c =? ord c').
Proof.
  destruct (Ascii.eqb_spec c c') as [->|Hne].
  - now rewrite Z.eqb_refl.
  - destruct (Z.eqb_spec (ord c) (ord c')) as [He|]; [|reflexivity].
    now apply ord_inj in He.
Qed.

(** Character tests as tests on the code of the character. *)
Ltac by_code :=
  unfold is_digit, _PyLong_DigitValue, Py_ISSPACE, Py_UNICODE_ISSPACE,
    prefix_letter in *;
  rewrite ?ascii_eqb_ord in *;
  repeat match goal with
         | |- context [ord (Ascii ?a ?b ?c ?d ?e ?f ?g ?h)] =>
             let n := eval vm_compute in (ord (Ascii a b c d e f g h)) in
             change (ord (Ascii a b c d e f g h)) with n
         | H : context [ord (Ascii ?a ?b ?c ?d ?e ?f ?g ?h)] |- _ =>
             let n := eval vm_compute in (ord (Ascii a b c d e f g h)) in
             change (ord (Ascii a b c d e f g h)) with n in H
         end.

Lemma ord_digit_char (d : Z) :
  0 <= d < 10 -> ord (digit_char false d) = 48 + d.
Proof.
  intros Hd. unfold digit_char.
  destruct (Z.ltb_spec d 10); [|lia]. apply ord_chr. lia.
Qed.

Lemma decimal_digit_value (d : Z) :
  0 <= d < 10 -> _PyLong_DigitValue (digit_char false d) = d.
Proof.
  intros Hd. unfold _PyLong_DigitValue. rewrite ord_digit_char by assumption.
  case_ltb; cbn [andb]; lia.
Qed.

Lemma decimal_digit_plain (d : Z) (c : ascii) :
  0 <= d < 10 -> ord c < 48 \/ 57 < ord c ->
  Ascii.eqb (digit_char false d) c = false.
Proof.
  intros Hd Hc. rewrite ascii_eqb_ord, ord_digit_char by assumption.
  destruct (Z.eqb_spec (48 + d) (ord c)); [lia | reflexivity].
Qed.

Lemma decimal_digit_not_space (d : Z) :
  0 <= d < 10 ->
  Py_ISSPACE (digit_char false d) = false
  /\ Py_UNICODE_ISSPACE (digit_char false d) = false.
Proof.
  intros Hd. unfold Py_ISSPACE, Py_UNICODE_ISSPACE.
  rewrite ord_digit_char by assumption.
  split; case_ltb; cbn [andb orb]; lia.
Qed.

(** ** [str(n)] and back through [int()] *)

Lemma scan_decimal_digit (d a : Z) (k : nat) (prev : bool) (rest : string) :
  0 <= d < 10 ->
  scan_digits 10 prev a k (String (digit_char false d) rest)
  = scan_digits 10 false (a * 10 + d) (S k) rest.
Proof.
  intros Hd. cbn [scan_digits].
  rewrite decimal_digit_plain by (by_code; lia).
  rewrite decimal_digit_value by assumption.
  destruct (Z.ltb_spec d 10); [reflexivity | lia].
Qed.

Lemma to_digits_head (fuel : nat) :
  forall n acc,
    0 <= n ->
    (fuel = O -> exists d r, 0 <= d < 10 /\ acc = String (digit_char false d) r) ->
    exists d r,
      0 <= d < 10 /\ to_digits fuel 10 false n acc = String (digit_char false d) r.
Proof.
  induction fuel as [|fuel IH]; intros n acc Hn Hacc.
  - now apply Hacc.
  - cbn [to_digits].
    pose proof (Z.mod_pos_bound n 10 ltac:(lia)) as Hd.
    destruct (n / 10 =? 0).
    + exists (n mod 10), acc. now split.
    + apply IH.
      * apply Z.div_pos; lia.
      * intros _. exists (n mod 10), acc. now split.
Qed.

Lemma to_digits_all_chars (p : ascii -> bool) (fuel : nat) :
  (forall d, 0 <= d < 10 -> p (digit_char false d) = true) ->
  forall n acc,
    0 <= n -> all_chars p acc = true ->
    all_chars p (to_digits fuel 10 false n acc) = true.
Proof.
  intros Hp. induction fuel as [|fuel IH]; intros n acc Hn Hacc.
  - exact Hacc.
  - cbn [to_digits].
    pose proof (Z.mod_pos_bound n 10 ltac:(lia)) as Hd.
    assert (Hacc' : all_chars p (String (digit_char false (n mod 10)) acc)
                    = true).
    { cbn [all_chars]. now rewrite Hp, Hacc. }
    destruct (n / 10 =? 0); [exact Hacc'|].
    apply IH; [apply Z.div_pos; lia | exact Hacc'].
Qed.

Lemma scan_to_digits (fuel : nat) :
  forall n rest,
    0 <= n < 2 ^ Z.of_nat (S fuel) ->
    exists (m : Z) (len : nat),
      (1 <= len <= S fuel)%nat
      /\ forall a k,
          scan_digits 10 false a k (to_digits (S fuel) 10 false n rest)
          = scan_digits 10 false (a * m + n) (k + len) rest.
Proof.
  induction fuel as [|fuel IH]; intros n rest Hn.
  - exists 10, 1%nat. split; [lia|]. intros a k.
    cbn [to_digits]. change (2 ^ Z.of_nat 1) with 2 in Hn.
    rewrite (Z.div_small n 10), (Z.mod_small n 10) by lia. cbn [Z.eqb].
    rewrite scan_decimal_digit by lia. now rewrite Nat.add_1_r.
  - pose proof (Z.mod_pos_bound n 10 ltac:(lia)) as Hd.
    pose proof (Z.div_mod n 10 ltac:(lia)) as Hdm.
    cbn [to_digits]. destruct (Z.eqb_spec (n / 10) 0) as [Hz|Hnz].
    + exists 10, 1%nat. split; [lia|]. intros a k.
      rewrite scan_decimal_digit by lia. rewrite Nat.add_1_r.
      f_equal. lia.
    + destruct (IH (n / 10) (String (digit_char false (n mod 10)) rest))
        as [m [len [Hlen Hscan]]].
      { split; [apply Z.div_pos; lia|].
        apply Z.div_lt_upper_bound; [lia|].
        rewrite (Nat2Z.inj_succ (S fuel)), Z.pow_succ_r in Hn by lia.
        lia. }
      exists (m * 10), (S len). split; [lia|]. intros a k.
      cbn [to_digits] in Hscan. rewrite Hscan.
      rewrite scan_decimal_digit by lia.
      rewrite Nat.add_succ_r. f_equal. lia.
Qed.

Lemma digit_fuel_enough (m : Z) :
  0 <= m -> m < 2 ^ Z.of_nat (digit_fuel m).
Proof.
  intros Hm. unfold digit_fuel.
  rewrite Nat2Z.inj_succ, Z2Nat.id by apply Z.log2_nonneg.
  destruct (Z.eq_dec m 0) as [->|Hne]; [reflexivity|].
  apply Z.log2_spec. lia.
Qed.

Lemma skip_prefix_decimal (s : string) : skip_prefix 10 s = s.
Proof.
  destruct s as [|zero [|c r]]; try reflexivity.
  unfold skip_prefix, prefix_letter. cbn [Z.eqb andb orb].
  now rewrite andb_false_r.
Qed.

Lemma int_magnitude_digits (m : Z) :
  0 <= m -> Z.log2 m < 639 ->
  int_magnitude 10 (to_digits (digit_fuel m) 10 false m "") = Some m.
Proof.
  intros Hm Hlog. unfold int_magnitude. rewrite skip_prefix_decimal.
  destruct (to_digits_head (digit_fuel m) m "" Hm) as [d [r [Hd Hhead]]];
    [discriminate|].
  destruct (scan_to_digits (Z.to_nat (Z.log2 m)) m "") as [k [len [Hlen Hscan]]].
  { split; [exact Hm | apply (digit_fuel_enough m Hm)]. }
  fold (digit_fuel m) in Hscan. rewrite Hscan.
  rewrite Hhead. cbn [starts_with_underscore].
  rewrite decimal_digit_plain by (by_code; lia).
  cbn [scan_digits Nat.add skip_spaces is_empty negb].
  destruct (Nat.eqb_spec len 0); [lia|].
  unfold exceeds_max_str_digits.
  destruct (Nat.ltb_spec 640 len).
  - pose proof (Z.log2_nonneg m). lia.
  - rewrite andb_false_r. cbn [andb]. reflexivity.
Qed.

Lemma int_of_text_py_str (n : Z) :
  Z.log2 (Z.abs n) < 639 -> int_of_text (py_str n) 10 = Some n.
Proof.
  intros Hlog. unfold int_of_text, py_str, format_radix.
  pose proof (Z.abs_nonneg n) as Hm.
  destruct (to_digits_head (digit_fuel (Z.abs n)) (Z.abs n) "" Hm)
    as [d [r [Hd Hhead]]]; [discriminate|].
  destruct (Z.ltb_spec n 0) as [Hneg|Hpos].
  - cbn [skip_spaces]. replace (Py_ISSPACE "-") with false by reflexivity.
    cbn [take_sign]. replace (Ascii.eqb "-" "+") with false by reflexivity.
    replace (Ascii.eqb "-" "-") with true by reflexivity.
    rewrite (int_magnitude_digits (Z.abs n) Hm Hlog). f_equal. lia.
  - assert (Hskip : skip_spaces (to_digits (digit_fuel (Z.abs n)) 10 false
                                           (Z.abs n) "")
                    = to_digits (digit_fuel (Z.abs n)) 10 false (Z.abs n) "").
    { rewrite Hhead. cbn [skip_spaces].
      now rewrite (proj1 (decimal_digit_not_space d Hd)). }
    rewrite Hskip.
    assert (Hsign : take_sign (to_digits (digit_fuel (Z.abs n)) 10 false
                                         (Z.abs n) "")
                    = (1, to_digits (digit_fuel (Z.abs n)) 10 false
                                    (Z.abs n) "")).
    { rewrite Hhead. cbn [take_sign].
      now rewrite !decimal_digit_plain by (by_code; lia). }
    rewrite Hsign.
    rewrite (int_magnitude_digits (Z.abs n) Hm Hlog). f_equal. lia.
Qed.

Lemma strip_without_space (s : string) :
  all_chars (fun c => negb (Py_UNICODE_ISSPACE c)) s = true -> strip s = s.
Proof.
  intros Hs. unfold strip.
  assert (Hl : lstrip s = s).
  { destruct s as [|c r]; [reflexivity|]. cbn [all_chars] in Hs.
    apply andb_prop in Hs as [Hc _]. cbn [lstrip].
    now destruct (Py_UNICODE_ISSPACE c). }
  rewrite Hl. clear Hl.
  induction s as [|c r IH]; [reflexivity|].
  cbn [all_chars] in Hs. apply andb_prop in Hs as [Hc Hr].
  cbn [rstrip]. rewrite (IH Hr).
  now destruct (Py_UNICODE_ISSPACE c).
Qed.

Lemma strip_py_str (n : Z) : strip (py_str n) = py_str n.
Proof.
  apply strip_without_space. unfold py_str, format_radix.
  assert (Hbody : all_chars (fun c => negb (Py_UNICODE_ISSPACE c))
                    (to_digits (digit_fuel (Z.abs n)) 10 false (Z.abs n) "")
                  = true).
  { apply to_digits_all_chars; [|apply Z.abs_nonneg | reflexivity].
    intros d Hd. now rewrite (proj2 (decimal_digit_not_space d Hd)). }
  destruct (n <? 0); [|exact Hbody].
  cbn [all_chars]. now rewrite Hbody.
Qed.


(** ** Text entry *)

Lemma try_except_ok {A : Type} (body handler : M A) (st st' : BitCalc)
      (a : A) :
  body st = (Ok a, st') -> try_except_ValueError body handler st = (Ok a, st').
Proof. intros H. unfold try_except_ValueError. now rewrite H. Qed.

Lemma int_of_text_not_empty (text : string) (base v : Z) :
  int_of_text text base = Some v -> is_empty text = false.
Proof. destruct text; [discriminate | reflexivity]. Qed.

Lemma py_int_run (text : string) (base v : Z) :
  int_of_text text base = Some v -> py_int text base = ret v.
Proof. intros H. unfold py_int. now rewrite H. Qed.

Lemma _update_from_entry_signed (st : BitCalc) (literal : Z) :
  well_formed st ->
  1 <= num_bytes_var st ->
  _is_updating st = false ->
  signed_mode_var st = true ->
  int_of_text (strip (dec_var st)) 10 = Some literal ->
  _update_from_entry dec st
  = (Ok tt, displayed (set_current_value
                         (signed_entry_value literal (Width st)) st)).
Proof.
  intros Hwf Hbytes Hupd Hsigned Hint.
  unfold _update_from_entry. run. rewrite Hupd. run.
  cbn [var_map]. rewrite (int_of_text_not_empty _ _ _ Hint).
  erewrite bind_run; [apply stored_run; assumption|].
  apply try_except_ok. run. rewrite Hsigned. cbn [entry_eqb andb].
  rewrite (py_int_run _ _ _ Hint). run.
  unfold signed_entry_value, Width.
  destruct (literal <? 0).
  - rewrite lshift_nonneg by lia. run. rewrite Z.shiftl_1_l.
    destruct (literal >=? - 2 ^ (num_bytes_var st * 8 - 1)).
    + rewrite lshift_nonneg by lia. run. now rewrite Z.shiftl_1_l.
    + erewrite bind_run by (apply _get_mask_run; lia). reflexivity.
  - rewrite lshift_nonneg by lia. run. rewrite Z.shiftl_1_l.
    destruct (literal <? 2 ^ (num_bytes_var st * 8 - 1)).
    + reflexivity.
    + erewrite bind_run by (apply _get_mask_run; lia). reflexivity.
Qed.

(** C3: in signed mode, a decimal field whose text [int()] reads as
    [literal] stores: [literal] itself when [0 <= literal < 2^(w-1)];
    [literal & mask(w)] when [literal >= 2^(w-1)]; [2^w + literal] when
    [-2^(w-1) <= literal < 0]; and [literal & mask(w)] when
    [literal < -2^(w-1)]. *)
Theorem signed_decimal_entry_four_cases (st : BitCalc) (literal : Z) :
  let w := Width st in
  well_formed st ->
  1 <= num_bytes_var st ->
  _is_updating st = false ->
  signed_mode_var st = true ->
  int_of_text (strip (dec_var st)) 10 = Some literal ->
  exists st',
    _update_from_entry dec st = (Ok tt, st')
    /\ (0 <= literal < 2 ^ (w - 1) -> _current_value st' = literal)
    /\ (2 ^ (w - 1) <= literal ->
        _current_value st' = Z.land literal (mask w))
    /\ (- 2 ^ (w - 1) <= literal < 0 -> _current_value st' = 2 ^ w + literal)
    /\ (literal < - 2 ^ (w - 1) ->
        _current_value st' = Z.land literal (mask w)).
Proof.
  intros w Hwf Hbytes Hupd Hsigned Hint.
  eexists. split; [apply _update_from_entry_signed; eassumption|].
  cbn [displayed _current_value set_current_value]. fold w.
  unfold signed_entry_value.
  assert (0 < 2 ^ (w - 1)) by (apply Z.pow_pos_nonneg; subst w; unfold Width; lia).
  repeat split; intros Hcase.
  - destruct (Z.ltb_spec literal 0); [lia|].
    destruct (Z.ltb_spec literal (2 ^ (w - 1))); [reflexivity | lia].
  - destruct (Z.ltb_spec literal 0); [lia|].
    destruct (Z.ltb_spec literal (2 ^ (w - 1))); [lia | reflexivity].
  - destruct (Z.ltb_spec literal 0); [|lia].
    destruct (Z.geb_spec literal (- 2 ^ (w - 1))); [reflexivity | lia].
  - destruct (Z.ltb_spec literal 0); [|lia].
    destruct (Z.geb_spec literal (- 2 ^ (w - 1))); [lia | reflexivity].
Qed.

Lemma msb_threshold (v w : Z) :
  1 <= w -> 0 <= v <= mask w -> Z.testbit v (w - 1) = (2 ^ (w - 1) <=? v).
Proof.
  intros Hw Hv. unfold mask in Hv.
  assert (Hp : 2 ^ w = 2 * 2 ^ (w - 1)).
  { rewrite <- Z.pow_succ_r by lia. f_equal. lia. }
  assert (Hpos : 0 < 2 ^ (w - 1)) by (apply Z.pow_pos_nonneg; lia).
  rewrite Z.testbit_eqb by lia.
  destruct (Z.leb_spec (2 ^ (w - 1)) v) as [Hge|Hlt].
  - replace (v / 2 ^ (w - 1)) with 1; [reflexivity|].
    apply Z.div_unique with (r := v - 2 ^ (w - 1)); lia.
  - rewrite Z.div_small by lia. reflexivity.
Qed.

(** C4: at a width of 8 to 64 bits, in signed mode and for a stored value
    [v] in range, the display writes [v - 2^w], with its minus sign, into
    the decimal field when bit [w - 1] of [v] is set and [v] otherwise;
    reading the field back stores [v] again, whatever value [other] is
    stored when the field is read. *)
Theorem signed_decimal_round_trip (st : BitCalc) (other : Z) :
  let v := _current_value st in
  let w := Width st in
  well_formed st ->
  1 <= num_bytes_var st <= 8 ->
  signed_mode_var st = true ->
  0 <= v <= mask w ->
  exists st1 st2,
    _update_display st = (Ok tt, st1)
    /\ dec_var st1 = (if Z.testbit v (w - 1) then py_str (v - 2 ^ w)
                      else py_str v)
    /\ (Z.testbit v (w - 1) = true -> startswith_minus (dec_var st1) = true)
    /\ _update_from_entry dec (set_current_value other st1) = (Ok tt, st2)
    /\ _current_value st2 = v.
Proof.
  intros v w Hwf Hbytes Hsigned Hv.
  assert (Hw : 1 <= w) by (subst w; unfold Width; lia).
  assert (Hw64 : w <= 64) by (subst w; unfold Width; lia).
  assert (H2w : 2 ^ w <= 2 ^ 64) by (apply Z.pow_le_mono_r; lia).
  assert (Hp : 2 ^ w = 2 * 2 ^ (w - 1)).
  { rewrite <- Z.pow_succ_r by lia. f_equal. lia. }
  assert (Hdec : dec_var (displayed st)
                 = if Z.testbit v (w - 1) then py_str (v - 2 ^ w)
                   else py_str v).
  { cbn [displayed dec_var]. fold v w. rewrite Hsigned.
    rewrite (land_mask_id v w) by (assumption || lia).
    unfold dec_text. rewrite truthy_bit_at by lia. reflexivity. }
  set (x := if Z.testbit v (w - 1) then v - 2 ^ w else v).
  assert (Hx : dec_var (displayed st) = py_str x).
  { rewrite Hdec. subst x. now destruct (Z.testbit v (w - 1)). }
  assert (Hxv : signed_entry_value x w = v).
  { subst x. unfold signed_entry_value. unfold mask in Hv.
    rewrite (msb_threshold v w Hw Hv).
    destruct (Z.leb_spec (2 ^ (w - 1)) v).
    - destruct (Z.ltb_spec (v - 2 ^ w) 0); [|lia].
      destruct (Z.geb_spec (v - 2 ^ w) (- 2 ^ (w - 1))); lia.
    - destruct (Z.ltb_spec v 0); [lia|].
      destruct (Z.ltb_spec v (2 ^ (w - 1))); lia. }
  assert (Hlog : Z.log2 (Z.abs x) < 639).
  { assert (Z.abs x <= 2 ^ 64).
    { subst x. unfold mask in Hv. destruct (Z.testbit v (w - 1)); lia. }
    apply Z.le_lt_trans with (m := Z.log2 (2 ^ 64)).
    - now apply Z.log2_le_mono.
    - reflexivity. }
  set (typed := set_current_value other (displayed st)).
  exists (displayed st),
         (displayed (set_current_value (signed_entry_value x (Width typed))
                                       typed)).
  split; [apply _update_display_run; [assumption | lia | lia]|].
  split; [exact Hdec|]. split.
  - intros Hmsb. rewrite Hdec, Hmsb. unfold py_str, format_radix.
    unfold mask in Hv.
    destruct (Z.ltb_spec (v - 2 ^ w) 0); [reflexivity | lia].
  - split; [|exact Hxv].
    apply _update_from_entry_signed;
      [split; reflexivity | cbn; lia | reflexivity | exact Hsigned |].
    change (dec_var typed) with (dec_var (displayed st)).
    rewrite Hx, strip_py_str. now apply int_of_text_py_str.
Qed.

(** ** The texts [int()] reads *)

Lemma digit_code (base : Z) (c : ascii) :
  base <= 36 -> is_digit base c = true ->
  (48 <= ord c <= 57 \/ 65 <= ord c <= 90 \/ 97 <= ord c <= 122).
Proof.
  intros Hb Hd. unfold is_digit, _PyLong_DigitValue in Hd.
  destruct (Z.leb_spec 48 (ord c)), (Z.leb_spec (ord c) 57),
    (Z.leb_spec 97 (ord c)), (Z.leb_spec (ord c) 122),
    (Z.leb_spec 65 (ord c)), (Z.leb_spec (ord c) 90);
    cbn [andb] in Hd; try lia; apply Z.ltb_lt in Hd; lia.
Qed.

Lemma space_code (c : ascii) :
  Py_ISSPACE c = true -> ord c <= 32.
Proof. by_code. case_ltb; cbn [andb orb]; intros; (lia || discriminate). Qed.

Lemma prefix_letter_cases (base : Z) (c : ascii) :
  prefix_letter base c = true ->
  (base = 16 /\ (ord c = 120 \/ ord c = 88))
  \/ (base = 8 /\ (ord c = 111 \/ ord c = 79))
  \/ (base = 2 /\ (ord c = 98 \/ ord c = 66)).
Proof.
  by_code. case_ltb; cbn [andb orb]; intros; try discriminate; lia.
Qed.

Lemma prefix_letter_code (base : Z) (c : ascii) :
  prefix_letter base c = true ->
  is_digit base c = false /\ 65 <= ord c <= 122 /\ ord c <> 95.
Proof.
  intros Hp. apply prefix_letter_cases in Hp.
  unfold is_digit, _PyLong_DigitValue.
  destruct Hp as [[-> [Hc|Hc]]|[[-> [Hc|Hc]]|[-> [Hc|Hc]]]]; rewrite Hc;
    repeat split; lia.
Qed.

Lemma code_underscore (c : ascii) : Ascii.eqb c "_" = (ord c =? 95).
Proof. now rewrite ascii_eqb_ord. Qed.

Lemma code_plus (c : ascii) : Ascii.eqb c "+" = (ord c =? 43).
Proof. now rewrite ascii_eqb_ord. Qed.

Lemma code_minus (c : ascii) : Ascii.eqb c "-" = (ord c =? 45).
Proof. now rewrite ascii_eqb_ord. Qed.

Lemma digit_not_underscore (base : Z) (c : ascii) :
  base <= 36 -> is_digit base c = true -> Ascii.eqb c "_" = false.
Proof.
  intros Hb Hc. rewrite code_underscore.
  destruct (digit_code base c Hb Hc) as [?|[?|?]];
    destruct (Z.eqb_spec (ord c) 95); (lia || reflexivity).
Qed.

Lemma digit_not_space (base : Z) (c : ascii) :
  base <= 36 -> is_digit base c = true -> Py_ISSPACE c = false.
Proof.
  intros Hb Hc. destruct (Py_ISSPACE c) eqn:Hs; [|reflexivity].
  apply space_code in Hs.
  destruct (digit_code base c Hb Hc) as [?|[?|?]]; lia.
Qed.

Lemma digit_not_sign (base : Z) (c : ascii) :
  base <= 36 -> is_digit base c = true ->
  Ascii.eqb c "+" = false /\ Ascii.eqb c "-" = false.
Proof.
  intros Hb Hc. rewrite code_plus, code_minus.
  destruct (digit_code base c Hb Hc) as [?|[?|?]];
    split; case_ltb; (lia || reflexivity).
Qed.

Lemma space_stops (base : Z) (c : ascii) :
  base <= 36 -> Py_ISSPACE c = true ->
  Ascii.eqb c "_" = false /\ is_digit base c = false
  /\ prefix_letter base c = false.
Proof.
  intros Hb Hs. pose proof (space_code c Hs) as Hc. split; [|split].
  - rewrite code_underscore. case_ltb; (lia || reflexivity).
  - destruct (is_digit base c) eqn:Hd; [|reflexivity].
    destruct (digit_code base c Hb Hd) as [?|[?|?]]; lia.
  - destruct (prefix_letter base c) eqn:Hp; [|reflexivity].
    apply prefix_letter_code in Hp. lia.
Qed.


Lemma skip_spaces_split (s : string) :
  exists blanks, blank blanks /\ s = (blanks ++ skip_spaces s)%string.
Proof.
  induction s as [|c s [blanks [Hb Hs]]].
  - exists "". now split.
  - cbn [skip_spaces]. destruct (Py_ISSPACE c) eqn:Hc.
    + exists (String c blanks). split.
      * unfold blank. cbn [all_chars]. now rewrite Hc.
      * cbn. now rewrite <- Hs.
    + exists "". now split.
Qed.

Lemma skip_spaces_blank (blanks s : string) :
  blank blanks -> skip_spaces (blanks ++ s) = skip_spaces s.
Proof.
  unfold blank. induction blanks as [|c blanks IH]; intros Hb.
  - reflexivity.
  - cbn [all_chars] in Hb. apply andb_prop in Hb as [Hc Hb].
    cbn. rewrite Hc. now apply IH.
Qed.

Lemma skip_spaces_empty (s : string) :
  is_empty (skip_spaces s) = true <-> blank s.
Proof.
  unfold blank. induction s as [|c s IH]; cbn [skip_spaces all_chars].
  - now split.
  - destruct (Py_ISSPACE c); cbn [andb is_empty]; [exact IH | now split].
Qed.

Lemma scan_digits_sound (base : Z) (s : string) :
  forall prev a d v k rest,
    scan_digits base prev a d s = Some (v, k, rest) ->
    if prev then
      exists c t cnt,
        s = String c (t ++ rest) /\ is_digit base c = true
        /\ digit_tail base t cnt /\ k = S (d + cnt)
    else
      exists t cnt,
        s = (t ++ rest)%string /\ digit_tail base t cnt /\ k = (d + cnt)%nat.
Proof.
  induction s as [|c s IH]; intros prev a d v k rest Hscan;
    cbn [scan_digits] in Hscan.
  - destruct prev; [discriminate|]. injection Hscan as <- <- <-.
    exists "", 0%nat. repeat split; [constructor | lia].
  - destruct (Ascii.eqb_spec c "_") as [->|Hc].
    + destruct prev; [discriminate|].
      apply IH in Hscan. destruct Hscan as [c' [t [cnt [-> [Hd [Ht ->]]]]]].
      exists (String "_" (String c' t)), (S cnt).
      repeat split; [now constructor | lia].
    + destruct (_PyLong_DigitValue c <? base) eqn:Hd.
      * apply IH in Hscan. destruct Hscan as [t [cnt [-> [Ht ->]]]].
        destruct prev.
        -- exists c, t, cnt. repeat split; assumption.
        -- exists (String c t), (S cnt).
           repeat split; [now constructor | lia].
      * destruct prev; [discriminate|]. injection Hscan as <- <- <-.
        exists "", 0%nat. repeat split; [constructor | lia].
Qed.

Lemma scan_digits_complete (base : Z) (t : string) (cnt : nat) :
  base <= 36 -> digit_tail base t cnt ->
  forall a d rest,
    blank rest ->
    exists v, scan_digits base false a d (t ++ rest) = Some (v, (d + cnt)%nat, rest).
Proof.
  intros Hb Ht. induction Ht as [|c t k Hc Ht IH|c t k Hc Ht IH];
    intros a d rest Hrest.
  - cbn [append]. rewrite Nat.add_0_r. destruct rest as [|c r].
    + now exists a.
    + unfold blank in Hrest. cbn [all_chars] in Hrest.
      apply andb_prop in Hrest as [Hs _].
      destruct (space_stops base c Hb Hs) as [Hu [Hd _]].
      cbn [scan_digits]. rewrite Hu. unfold is_digit in Hd. rewrite Hd.
      now exists a.
  - cbn [append scan_digits].
    rewrite (digit_not_underscore base c Hb Hc).
    unfold is_digit in Hc. rewrite Hc.
    destruct (IH (a * base + _PyLong_DigitValue c) (S d) rest Hrest)
      as [v Hv].
    exists v. rewrite Hv. do 3 f_equal. lia.
  - cbn [append scan_digits]. cbn [Ascii.eqb Bool.eqb andb].
    rewrite (digit_not_underscore base c Hb Hc).
    unfold is_digit in Hc. rewrite Hc.
    destruct (IH (a * base + _PyLong_DigitValue c) (S d) rest Hrest)
      as [v Hv].
    exists v. rewrite Hv. do 3 f_equal. lia.
Qed.

Lemma int_magnitude_sound (base : Z) (s : string) (v : Z) :
  int_magnitude base s = Some v ->
  exists pre body blanks k,
    s = (pre ++ body ++ blanks)%string
    /\ prefix_text base pre /\ digit_group base body k /\ blank blanks
    /\ exceeds_max_str_digits base k = false.
Proof.
  unfold int_magnitude. intros H.
  assert (Hpre : exists pre, prefix_text base pre
                             /\ s = (pre ++ skip_prefix base s)%string).
  { destruct s as [|zero [|c r]]; try (exists ""; split; [constructor | reflexivity]).
    unfold skip_prefix.
    destruct (Ascii.eqb_spec zero "0") as [->|]; cbn [andb];
      [|exists ""; split; [constructor | reflexivity]].
    destruct (prefix_letter base c) eqn:Hp;
      [|exists ""; split; [constructor | reflexivity]].
    destruct r as [|u r]; [exists (String "0" (String c "")); split;
                           [now constructor | reflexivity]|].
    cbn [starts_with_underscore].
    destruct (Ascii.eqb_spec u "_") as [->|].
    - exists (String "0" (String c "_")). split; [now constructor | reflexivity].
    - exists (String "0" (String c "")). split; [now constructor | reflexivity]. }
  destruct Hpre as [pre [Hpre Hs]].
  set (s3 := skip_prefix base s) in *.
  destruct (starts_with_underscore s3) eqn:Hu; [discriminate|].
  destruct (scan_digits base false 0 0 s3) as [[[v' k] rest]|] eqn:Hscan;
    [|discriminate].
  destruct (Nat.eqb_spec k 0) as [|Hk]; [discriminate|].
  destruct (is_empty (skip_spaces rest)) eqn:Hrest; [|discriminate].
  cbn [negb] in H.
  destruct (exceeds_max_str_digits base k) eqn:Hlim; [discriminate|].
  apply scan_digits_sound in Hscan. destruct Hscan as [t [cnt [Ht [Htail Hcnt]]]].
  cbn [Nat.add] in Hcnt. subst cnt.
  destruct Htail as [|c t k Hc Htail|c t k Hc Htail].
  - contradiction.
  - exists pre, (String c t), rest, (S k). repeat split; try assumption.
    + now rewrite <- Ht.
    + now apply skip_spaces_empty.
  - rewrite Ht in Hu. discriminate.
Qed.

Lemma int_magnitude_complete (base : Z) (pre body blanks : string) (k : nat) :
  base <= 36 ->
  prefix_text base pre -> digit_group base body k -> blank blanks ->
  exceeds_max_str_digits base k = false ->
  exists v, int_magnitude base (pre ++ body ++ blanks) = Some v.
Proof.
  intros Hb Hpre Hbody Hblanks Hlim.
  destruct Hbody as [c t k Hc Htail].
  assert (Hskip : skip_prefix base (pre ++ String c t ++ blanks)
                  = (String c t ++ blanks)%string).
  { destruct Hpre as [|p Hp|p Hp].
    - cbn [append]. unfold skip_prefix.
      destruct (t ++ blanks)%string as [|c2 r] eqn:Hr; [reflexivity|].
      assert (Hc2 : prefix_letter base c2 = false).
      { destruct Htail as [|c' t k Hc' Htail|c' t k Hc' Htail];
          cbn [append] in Hr.
        - subst blanks. unfold blank in Hblanks. cbn [all_chars] in Hblanks.
          apply andb_prop in Hblanks as [Hs _].
          now destruct (space_stops base c2 Hb Hs) as [_ [_ ?]].
        - injection Hr as <- _.
          destruct (prefix_letter base c') eqn:Hp; [|reflexivity].
          apply prefix_letter_code in Hp. destruct Hp as [Hp _]. congruence.
        - injection Hr as <- _.
          destruct (prefix_letter base "_") eqn:Hp; [|reflexivity].
          apply prefix_letter_code in Hp. destruct Hp as [_ [_ Hp]].
          now contradiction Hp. }
      rewrite Hc2. now rewrite andb_false_r.
    - cbn [append]. unfold skip_prefix. rewrite Hp. cbn [Ascii.eqb Bool.eqb andb].
      cbn [starts_with_underscore].
      now rewrite (digit_not_underscore base c Hb Hc).
    - cbn [append]. unfold skip_prefix. rewrite Hp. reflexivity. }
  unfold int_magnitude. rewrite Hskip. cbn [append starts_with_underscore].
  rewrite (digit_not_underscore base c Hb Hc).
  cbn [scan_digits]. rewrite (digit_not_underscore base c Hb Hc).
  unfold is_digit in Hc. rewrite Hc.
  destruct (scan_digits_complete base t k Hb Htail
              (0 * base + _PyLong_DigitValue c) 1%nat blanks Hblanks)
    as [v Hv].
  rewrite Hv. cbn [Nat.add Nat.eqb].
  rewrite (proj2 (skip_spaces_empty blanks) Hblanks). cbn [negb].
  rewrite Hlim. now exists v.
Qed.

Lemma int_of_text_sound (base : Z) (text : string) (v : Z) :
  int_of_text text base = Some v ->
  exists k, int_literal base text k /\ exceeds_max_str_digits base k = false.
Proof.
  unfold int_of_text. intros H.
  destruct (skip_spaces_split text) as [blanks1 [Hb1 Htext]].
  assert (Hsign : exists sign,
             sign_text sign
             /\ skip_spaces text
                = (sign ++ snd (take_sign (skip_spaces text)))%string).
  { destruct (skip_spaces text) as [|c r]; [exists ""; split; [constructor | reflexivity]|].
    cbn [take_sign].
    destruct (Ascii.eqb_spec c "+") as [->|];
      [exists "+"; split; [constructor | reflexivity]|].
    destruct (Ascii.eqb_spec c "-") as [->|];
      [exists "-"; split; [constructor | reflexivity]|].
    exists "". split; [constructor | reflexivity]. }
  destruct Hsign as [sign [Hsign Hs1]].
  destruct (take_sign (skip_spaces text)) as [sg s2]. cbn [snd] in Hs1.
  destruct (int_magnitude base s2) as [m|] eqn:Hm; [|discriminate].
  apply int_magnitude_sound in Hm.
  destruct Hm as [pre [body [blanks2 [k [Hs2 [Hpre [Hbody [Hb2 Hlim]]]]]]]].
  exists k. split; [|exact Hlim].
  exists blanks1, sign, pre, body, blanks2.
  repeat split; try assumption.
  now rewrite Htext, Hs1, Hs2.
Qed.

Lemma int_of_text_complete (base : Z) (text : string) (k : nat) :
  base <= 36 ->
  int_literal base text k -> exceeds_max_str_digits base k = false ->
  exists v, int_of_text text base = Some v.
Proof.
  intros Hb [blanks1 [sign [pre [body [blanks2 [-> [Hb1 [Hsign [Hpre
                                                  [Hbody Hb2]]]]]]]]]] Hlim.
  destruct (int_magnitude_complete base pre body blanks2 k Hb Hpre Hbody Hb2
              Hlim) as [m Hm].
  unfold int_of_text. rewrite skip_spaces_blank by assumption.
  destruct Hsign.
  - cbn [append].
    assert (Hhead : exists c r,
               (pre ++ body ++ blanks2)%string = String c r
               /\ Py_ISSPACE c = false
               /\ Ascii.eqb c "+" = false /\ Ascii.eqb c "-" = false).
    { destruct Hpre as [|p Hp|p Hp].
      - destruct Hbody as [c t k Hc Ht]. exists c, (t ++ blanks2)%string.
        destruct (digit_not_sign base c Hb Hc).
        repeat split; try assumption. now apply (digit_not_space base).
      - eexists _, _. repeat split.
      - eexists _, _. repeat split. }
    destruct Hhead as [c [r [Hcr [Hs [Hplus Hminus]]]]].
    rewrite Hcr in *. cbn [skip_spaces]. rewrite Hs.
    cbn [take_sign]. rewrite Hplus, Hminus, Hm. now eexists.
  - cbn [append skip_spaces]. replace (Py_ISSPACE "+") with false by reflexivity.
    cbn [take_sign]. replace (Ascii.eqb "+" "+") with true by reflexivity.
    rewrite Hm. now eexists.
  - cbn [append skip_spaces]. replace (Py_ISSPACE "-") with false by reflexivity.
    cbn [take_sign]. replace (Ascii.eqb "-" "+") with false by reflexivity.
    replace (Ascii.eqb "-" "-") with true by reflexivity.
    rewrite Hm. now eexists.
Qed.



(** ** The validators *)

Lemma _validate_input_run (P : string) (base : Z) (st : BitCalc) :
  _validate_input P base st
  = (Ok (is_empty P || match int_of_text P base with
                       | Some _ => true
                       | None => false
                       end), st).
Proof.
  unfold _validate_input. destruct P as [|c r]; [reflexivity|].
  cbn [is_empty orb]. unfold try_except_ValueError, bind, py_int.
  now destruct (int_of_text (String c r) base).
Qed.




Lemma contains_minus_head (P : string) :
  contains_minus P = false -> startswith_minus P = false.
Proof.
  unfold contains_minus. destruct P as [|c r]; [reflexivity|].
  cbn [all_chars startswith_minus]. now destruct (Ascii.eqb c "-").
Qed.


(** ** The stored value and the width *)

Lemma reverse_range (v w : Z) : 0 <= w -> 0 <= reverse v w <= mask w.
Proof.
  intros Hw.
  replace (reverse v w) with (Z.land (reverse v w) (mask w));
    [now apply land_mask_range|].
  apply Z.bits_inj'. intros i Hi.
  rewrite testbit_land_mask, reverse_bits by lia.
  case_ltb; try lia; cbn [andb]; now rewrite ?andb_true_r.
Qed.

Lemma signed_entry_value_range (literal w : Z) :
  1 <= w -> 0 <= signed_entry_value literal w <= mask w.
Proof.
  intros Hw. unfold signed_entry_value.
  assert (Hp : 2 ^ w = 2 * 2 ^ (w - 1)).
  { rewrite <- Z.pow_succ_r by lia. f_equal. lia. }
  assert (Hpos : 0 < 2 ^ (w - 1)) by (apply Z.pow_pos_nonneg; lia).
  destruct (Z.ltb_spec literal 0).
  - destruct (Z.geb_spec literal (- 2 ^ (w - 1)));
      [unfold mask; lia | apply land_mask_range; lia].
  - destruct (Z.ltb_spec literal (2 ^ (w - 1)));
      [unfold mask; lia | apply land_mask_range; lia].
Qed.

(** Every operation, a width change and a signed decimal entry store a
    value within the width. *)
Lemma operations_store_in_range (st : BitCalc) (op : M unit) :
  well_formed st ->
  1 <= num_bytes_var st ->
  0 <= shift_amount_var st ->
  In op [_shift_left; _shift_right_logical; _shift_right_arithmetic;
         _rotate_left; _rotate_right; _invert_bits; _reverse_bits;
         _clear_bits; _on_num_bytes_change] ->
  exists st',
    op st = (Ok tt, st') /\ Width st' = Width st
    /\ 0 <= _current_value st' <= mask (Width st').
Proof.
  intros Hwf Hbytes Hn Hop.
  assert (Hw : 0 <= Width st) by (unfold Width; lia).
  cbn [In] in Hop.
  repeat destruct Hop as [<-|Hop]; try contradiction; eexists;
    (split; [first [ now apply _shift_left_run
                   | now apply _shift_right_logical_run
                   | now apply _shift_right_arithmetic_run
                   | now apply _rotate_left_run
                   | now apply _rotate_right_run
                   | now apply _invert_bits_run
                   | now apply _reverse_bits_run
                   | now apply _clear_bits_run
                   | now apply _on_num_bytes_change_run ]|]);
    (split; [reflexivity|]);
    rewrite Width_stored; cbn [displayed _current_value set_current_value];
    first [ now apply land_mask_range
          | now apply reverse_range
          | split; [lia | now apply mask_nonneg] ].
Qed.

Lemma signed_entry_stores_in_range (st : BitCalc) (literal : Z) :
  well_formed st ->
  1 <= num_bytes_var st ->
  _is_updating st = false ->
  signed_mode_var st = true ->
  int_of_text (strip (dec_var st)) 10 = Some literal ->
  exists st',
    _update_from_entry dec st = (Ok tt, st') /\ Width st' = Width st
    /\ 0 <= _current_value st' <= mask (Width st').
Proof.
  intros Hwf Hbytes Hupd Hsigned Hint. eexists.
  split; [apply _update_from_entry_signed; eassumption|].
  split; [reflexivity|]. rewrite Width_stored.
  cbn [displayed _current_value set_current_value].
  apply signed_entry_value_range. unfold Width. lia.
Qed.

(** C1, where the code leaves it: the tool started with one byte
    selected and unsigned mode, the text [1FF] typed into the hexadecimal
    field.  The validator lets the text through, the stored value becomes
    511, above [mask(8) = 255], while the field shows [FF]; a logical
    shift right by one then stores 255 and shows [FF] again, where the
    displayed [FF] shifted is [7F]. *)
Theorem hex_entry_stores_bits_above_width :
  let typed := entry_key hex "1FF" (instance_at 1 false 0 1) in
  let shifted := _shift_right_logical (snd typed) in
  startup 1 false 1 fresh = (Ok tt, instance_at 1 false 0 1)
  /\ fst typed = Ok tt
  /\ Width (snd typed) = 8
  /\ _current_value (snd typed) = 511
  /\ hex_var (snd typed) = "FF"
  /\ ~ (0 <= _current_value (snd typed) <= mask (Width (snd typed)))
  /\ fst shifted = Ok tt
  /\ _current_value (snd shifted) = 255
  /\ hex_var (snd shifted) = "FF".
Proof.
  cbv zeta. repeat split; try (vm_compute; reflexivity).
  intros [_ H]. vm_compute in H. now apply H.
Qed.

(** ** Shifts as arithmetic *)

Lemma pow2_pos (n : Z) : 0 <= n -> 0 < 2 ^ n.
Proof. intros. now apply Z.pow_pos_nonneg. Qed.

Lemma pow2_split (w : Z) : 1 <= w -> 2 ^ w = 2 * 2 ^ (w - 1).
Proof. intros Hw. rewrite <- Z.pow_succ_r by lia. f_equal. lia. Qed.

Lemma shiftLeft_mul (v w n : Z) :
  0 <= w -> 0 <= n -> shiftLeft v w n = (v * 2 ^ n) mod 2 ^ w.
Proof.
  intros Hw Hn. unfold shiftLeft.
  now rewrite land_mask_mod, Z.shiftl_mul_pow2 by lia.
Qed.

Lemma shiftLeft_saturates (v w n : Z) :
  0 <= w <= n -> shiftLeft v w n = 0.
Proof.
  intros Hn. rewrite shiftLeft_mul by lia.
  replace n with (n - w + w) by lia.
  rewrite Z.pow_add_r, Z.mul_assoc by lia.
  apply Z.mod_mul. pose proof (pow2_pos w). lia.
Qed.

Lemma shiftRightLogical_div (v w n : Z) :
  0 <= w -> 0 <= n -> 0 <= v <= mask w -> shiftRightLogical v w n = v / 2 ^ n.
Proof.
  intros Hw Hn Hv. unfold shiftRightLogical.
  rewrite Z.shiftr_div_pow2 by lia.
  apply land_mask_id; [lia|].
  pose proof (pow2_pos n Hn). split.
  - apply Z.div_pos; lia.
  - apply Z.le_trans with (m := v); [|lia].
    apply Z.div_le_upper_bound; nia.
Qed.

Lemma shiftLeft_shiftLeft (v w a b : Z) :
  0 <= w -> 0 <= a -> 0 <= b ->
  shiftLeft (shiftLeft v w a) w b = shiftLeft v w (a + b).
Proof.
  intros Hw Ha Hb. apply Z.bits_inj'. intros i Hi. unfold shiftLeft.
  rewrite !testbit_land_mask by lia. rewrite !Z.shiftl_spec by lia.
  rewrite testbit_land_mask by lia.
  destruct (Z.leb_spec 0 (i - b)).
  - rewrite Z.shiftl_spec by lia.
    replace (i - b - a) with (i - (a + b)) by lia.
    case_ltb; try lia; cbn [andb]; now rewrite ?andb_true_r, ?andb_false_r.
  - rewrite (Z.testbit_neg_r _ (i - (a + b))) by lia.
    now rewrite !andb_false_r.
Qed.

(** ** Arithmetic shift right as floor division of the signed value *)

Lemma lnot_mask (w : Z) : Z.lnot (mask w) = - 2 ^ w.
Proof. pose proof (Z.add_lnot_diag (mask w)). unfold mask in *. lia. Qed.

Lemma to_signed_bits (v w i : Z) :
  1 <= w -> 0 <= v <= mask w -> 0 <= i ->
  Z.testbit (to_signed v w) i =
  if i <? w then Z.testbit v i else Z.testbit v (w - 1).
Proof.
  intros Hw Hv Hi. unfold to_signed.
  destruct (Z.testbit v (w - 1)) eqn:Hmsb.
  - assert (Hdisjoint : Z.land v (Z.lnot (mask w)) = 0).
    { apply Z.bits_inj'. intros j Hj.
      rewrite Z.land_spec, Z.lnot_spec, testbit_mask, Z.bits_0 by lia.
      destruct (Z.ltb_spec j w); cbn [negb]; [apply andb_false_r|].
      now rewrite (testbit_above v w j) by lia. }
    replace (v - 2 ^ w) with (Z.lor v (Z.lnot (mask w))).
    + rewrite Z.lor_spec, Z.lnot_spec, testbit_mask by lia.
      destruct (Z.ltb_spec i w); cbn [negb];
        [apply orb_false_r | apply orb_true_r].
    + rewrite <- Z.lxor_lor, <- Z.add_nocarry_lxor by assumption.
      rewrite lnot_mask. lia.
  - destruct (Z.ltb_spec i w); [reflexivity|].
    apply testbit_above with (w := w); lia.
Qed.

Lemma to_signed_range (v w : Z) :
  1 <= w -> 0 <= v <= mask w ->
  - 2 ^ (w - 1) <= to_signed v w < 2 ^ (w - 1).
Proof.
  intros Hw Hv. unfold to_signed. rewrite (msb_threshold v w Hw Hv).
  pose proof (pow2_split w Hw). unfold mask in Hv.
  destruct (Z.leb_spec (2 ^ (w - 1)) v); lia.
Qed.

Lemma to_signed_mod (x w : Z) :
  1 <= w -> - 2 ^ (w - 1) <= x < 2 ^ (w - 1) ->
  to_signed (x mod 2 ^ w) w = x.
Proof.
  intros Hw Hx. pose proof (pow2_split w Hw) as Hp.
  pose proof (pow2_pos (w - 1) ltac:(lia)) as Hpos.
  assert (Hm : x mod 2 ^ w = if x <? 0 then x + 2 ^ w else x).
  { destruct (Z.ltb_spec x 0).
    - symmetry. apply Z.mod_unique with (q := -1); lia.
    - apply Z.mod_small. lia. }
  unfold to_signed. rewrite msb_threshold by (unfold mask; rewrite ?Hm;
    try assumption; destruct (Z.ltb_spec x 0); lia).
  rewrite Hm.
  destruct (Z.ltb_spec x 0);
    match goal with |- context [?a <=? ?b] => destruct (Z.leb_spec a b) end;
    lia.
Qed.

Lemma shiftRightArithmetic_floor (v w n : Z) :
  1 <= w -> 0 <= v <= mask w -> 0 <= n ->
  shiftRightArithmetic v w n = (to_signed v w / 2 ^ n) mod 2 ^ w.
Proof.
  intros Hw Hv Hn. rewrite <- land_mask_mod, <- Z.shiftr_div_pow2 by lia.
  apply Z.bits_inj'. intros i Hi.
  rewrite shiftRightArithmetic_bits by assumption.
  rewrite testbit_land_mask, Z.shiftr_spec, to_signed_bits by lia.
  case_ltb; try lia; cbn [andb]; now rewrite ?andb_true_r, ?andb_false_r.
Qed.

Lemma floor_shift_range (s w n : Z) :
  1 <= w -> 0 <= n -> - 2 ^ (w - 1) <= s < 2 ^ (w - 1) ->
  - 2 ^ (w - 1) <= s / 2 ^ n < 2 ^ (w - 1).
Proof.
  intros Hw Hn Hs. pose proof (pow2_pos n Hn) as Hpos.
  pose proof (pow2_pos (w - 1) ltac:(lia)) as Hpos'.
  split.
  - apply Z.div_le_lower_bound; nia.
  - apply Z.div_lt_upper_bound; nia.
Qed.

(** ** The stored value stays in range *)

(** At 1 to 8 bytes and for an amount from 0 to [2^16], each of the
    eight operation buttons and the width change returns without an
    exception, keeps the width and leaves a stored value in
    [[0, 2^w - 1]], whatever integer was stored before. *)
Theorem operations_keep_value_in_range (st : BitCalc) (op : M unit) :
  well_formed st ->
  1 <= num_bytes_var st <= 8 ->
  0 <= shift_amount_var st <= 2 ^ 16 ->
  In op [_shift_left; _shift_right_logical; _shift_right_arithmetic;
         _rotate_left; _rotate_right; _invert_bits; _reverse_bits;
         _clear_bits; _on_num_bytes_change] ->
  exists st',
    op st = (Ok tt, st') /\ Width st' = Width st
    /\ 0 <= _current_value st' <= mask (Width st').
Proof.
  intros Hwf [Hbytes _] [Hn _] Hop.
  now apply operations_store_in_range.
Qed.

(** ** What the shifts store *)

(** The left shift by an amount [n] of up to [2^16] multiplies by [2^n]
    modulo [2^w], whatever was stored, and stores 0 from [n = w] on
    (larger amounts are left out: past what the interpreter can allocate
    [<<] raises); the logical right shift of a value in range is the
    floor division by [2^n], 0 from [n = w] on. *)
Theorem shifts_multiply_and_divide (st : BitCalc) :
  let v := _current_value st in
  let w := Width st in
  let n := shift_amount_var st in
  well_formed st ->
  1 <= num_bytes_var st ->
  0 <= n ->
  (n <= 2 ^ 16 ->
   exists st',
      _shift_left st = (Ok tt, st')
      /\ _current_value st' = (v * 2 ^ n) mod 2 ^ w
      /\ (w <= n -> _current_value st' = 0))
  /\ (0 <= v <= mask w ->
      exists st',
        _shift_right_logical st = (Ok tt, st')
        /\ _current_value st' = v / 2 ^ n
        /\ (w <= n -> _current_value st' = 0)).
Proof.
  intros v w n Hwf Hbytes Hn.
  assert (Hw : 1 <= w) by (subst w; unfold Width; lia).
  split.
  - intros _. eexists. split; [now apply _shift_left_run|].
    cbn [displayed _current_value set_current_value]. fold v w n. split.
    + apply shiftLeft_mul; lia.
    + intros Hsat. apply shiftLeft_saturates. lia.
  - intros Hv. eexists. split; [now apply _shift_right_logical_run|].
    cbn [displayed _current_value set_current_value]. fold v w n.
    rewrite shiftRightLogical_div by lia. split; [reflexivity|].
    intros Hsat. apply Z.div_small. unfold mask in Hv.
    assert (2 ^ w <= 2 ^ n) by (apply Z.pow_le_mono_r; lia). lia.
Qed.

(** On a value in range the arithmetic right shift is the floor division
    by [2^n] of the two's complement reading: the result is in range,
    reads as [to_signed v / 2^n] and has the sign bit of [v]. *)
Theorem shift_right_arithmetic_is_floor_division (st : BitCalc) :
  let v := _current_value st in
  let w := Width st in
  let n := shift_amount_var st in
  well_formed st ->
  1 <= num_bytes_var st ->
  0 <= v <= mask w ->
  0 <= n ->
  exists st',
    _shift_right_arithmetic st = (Ok tt, st')
    /\ 0 <= _current_value st' <= mask w
    /\ to_signed (_current_value st') w = to_signed v w / 2 ^ n
    /\ Z.testbit (_current_value st') (w - 1) = Z.testbit v (w - 1).
Proof.
  intros v w n Hwf Hbytes Hv Hn.
  assert (Hw : 1 <= w) by (subst w; unfold Width; lia).
  eexists. split; [now apply _shift_right_arithmetic_run|].
  cbn [displayed _current_value set_current_value]. fold v w n.
  split; [|split].
  - unfold shiftRightArithmetic. apply land_mask_range. lia.
  - rewrite shiftRightArithmetic_floor by assumption.
    apply to_signed_mod; [assumption|].
    apply floor_shift_range; [assumption | assumption |].
    now apply to_signed_range.
  - rewrite shiftRightArithmetic_bits by (assumption || lia).
    case_ltb; try lia; cbn [andb]; try reflexivity. same_bit.
Qed.

(** ** How the operations compose *)

Lemma shiftRightLogical_shiftRightLogical (v w a b : Z) :
  0 <= w -> 0 <= a -> 0 <= b -> 0 <= v <= mask w ->
  shiftRightLogical (shiftRightLogical v w a) w b
  = shiftRightLogical v w (a + b).
Proof.
  intros Hw Ha Hb Hv.
  rewrite (shiftRightLogical_div v w a), (shiftRightLogical_div v w (a + b))
    by lia.
  pose proof (pow2_pos a Ha). pose proof (pow2_pos b Hb).
  rewrite shiftRightLogical_div; [| lia | lia |].
  - rewrite Z.div_div, Z.pow_add_r by lia. reflexivity.
  - rewrite <- (shiftRightLogical_div v w a) by lia.
    unfold shiftRightLogical. apply land_mask_range. lia.
Qed.

Lemma shiftRightArithmetic_shiftRightArithmetic (v w a b : Z) :
  1 <= w -> 0 <= a -> 0 <= b -> 0 <= v <= mask w ->
  shiftRightArithmetic (shiftRightArithmetic v w a) w b
  = shiftRightArithmetic v w (a + b).
Proof.
  intros Hw Ha Hb Hv.
  pose proof (pow2_pos a Ha). pose proof (pow2_pos b Hb).
  rewrite (shiftRightArithmetic_floor _ w b);
    [| lia | unfold shiftRightArithmetic; apply land_mask_range; lia | lia].
  rewrite (shiftRightArithmetic_floor v w a), (shiftRightArithmetic_floor v w (a + b))
    by lia.
  rewrite to_signed_mod;
    [| lia | apply floor_shift_range; [lia | lia | now apply to_signed_range]].
  rewrite Z.div_div, Z.pow_add_r by lia. reflexivity.
Qed.

Lemma rotateLeft_bits_mod (v w n i : Z) :
  1 <= w -> 0 <= i ->
  Z.testbit (rotateLeft v w n) i = (i <? w) && Z.testbit v ((i - n) mod w).
Proof.
  intros Hw Hi. rewrite rotateLeft_bits by assumption.
  pose proof (Z.mod_pos_bound n w ltac:(lia)) as Hk.
  destruct (Z.ltb_spec i w); [|reflexivity]. cbn [andb].
  rewrite <- Zminus_mod_idemp_r.
  destruct (Z.leb_spec (n mod w) i).
  - rewrite (Z.mod_small (i - n mod w) w) by lia. reflexivity.
  - replace ((i - n mod w) mod w) with (i + w - n mod w); [reflexivity|].
    apply Z.mod_unique with (q := -1); lia.
Qed.

Lemma rotateRight_bits_mod (v w n i : Z) :
  1 <= w -> 0 <= i ->
  Z.testbit (rotateRight v w n) i = (i <? w) && Z.testbit v ((i + n) mod w).
Proof.
  intros Hw Hi. rewrite rotateRight_bits by assumption.
  pose proof (Z.mod_pos_bound n w ltac:(lia)) as Hk.
  destruct (Z.ltb_spec i w); [|reflexivity]. cbn [andb].
  rewrite <- Zplus_mod_idemp_r.
  destruct (Z.ltb_spec (i + n mod w) w).
  - rewrite (Z.mod_small (i + n mod w) w) by lia. reflexivity.
  - replace ((i + n mod w) mod w) with (i + n mod w - w); [reflexivity|].
    apply Z.mod_unique with (q := 1); lia.
Qed.

Lemma rotateLeft_rotateLeft (v w a b : Z) :
  1 <= w -> rotateLeft (rotateLeft v w a) w b = rotateLeft v w (a + b).
Proof.
  intros Hw. apply Z.bits_inj'. intros i Hi.
  rewrite (rotateLeft_bits_mod _ w b i), (rotateLeft_bits_mod v w (a + b) i)
    by lia.
  destruct (Z.ltb_spec i w); [|reflexivity]. cbn [andb].
  pose proof (Z.mod_pos_bound (i - b) w ltac:(lia)).
  rewrite rotateLeft_bits_mod by lia.
  destruct (Z.ltb_spec ((i - b) mod w) w); [|lia]. cbn [andb].
  rewrite Zminus_mod_idemp_l. f_equal. f_equal. lia.
Qed.

Lemma rotateRight_rotateRight (v w a b : Z) :
  1 <= w -> rotateRight (rotateRight v w a) w b = rotateRight v w (a + b).
Proof.
  intros Hw. apply Z.bits_inj'. intros i Hi.
  rewrite (rotateRight_bits_mod _ w b i), (rotateRight_bits_mod v w (a + b) i)
    by lia.
  destruct (Z.ltb_spec i w); [|reflexivity]. cbn [andb].
  pose proof (Z.mod_pos_bound (i + b) w ltac:(lia)).
  rewrite rotateRight_bits_mod by lia.
  destruct (Z.ltb_spec ((i + b) mod w) w); [|lia]. cbn [andb].
  rewrite Zplus_mod_idemp_l. f_equal. f_equal. lia.
Qed.

Lemma rotateRight_as_rotateLeft (v w n : Z) :
  1 <= w -> rotateRight v w n = rotateLeft v w (w - n mod w).
Proof.
  intros Hw. apply Z.bits_inj'. intros i Hi.
  rewrite rotateRight_bits_mod, rotateLeft_bits_mod by lia.
  destruct (Z.ltb_spec i w); [|reflexivity]. cbn [andb]. f_equal.
  rewrite <- Zplus_mod_idemp_r.
  replace (i - (w - n mod w)) with (i + n mod w + (-1) * w) by lia.
  now rewrite Z_mod_plus_full.
Qed.

Lemma rotateLeft_rotateRight (v w n : Z) :
  1 <= w -> 0 <= v <= mask w -> rotateLeft (rotateRight v w n) w n = v.
Proof.
  intros Hw Hv. apply Z.bits_inj'. intros i Hi.
  rewrite rotateLeft_bits_mod by lia.
  destruct (Z.ltb_spec i w); cbn [andb].
  - pose proof (Z.mod_pos_bound (i - n) w ltac:(lia)).
    rewrite rotateRight_bits_mod by lia.
    destruct (Z.ltb_spec ((i - n) mod w) w); [|lia]. cbn [andb].
    rewrite Zplus_mod_idemp_l. f_equal.
    replace (i - n + n) with i by lia. apply Z.mod_small. lia.
  - symmetry. apply testbit_above with (w := w); lia.
Qed.

Lemma rotateLeft_full_turn (v w n : Z) :
  1 <= w -> n mod w = 0 -> rotateLeft v w n = Z.land v (mask w).
Proof.
  intros Hw Hn. apply Z.bits_inj'. intros i Hi.
  rewrite rotateLeft_bits_mod, testbit_land_mask by lia.
  destruct (Z.ltb_spec i w); [|now rewrite andb_false_r].
  rewrite <- Zminus_mod_idemp_r, Hn, Z.sub_0_r, (Z.mod_small i w) by lia.
  cbn [andb]. destruct (Z.leb_spec 0 i); [|lia]. now rewrite !andb_true_r.
Qed.

Lemma then_with_amount_run (op1 op2 : M unit) (st st1 st2 : BitCalc) (b : Z) :
  op1 st = (Ok tt, st1) ->
  op2 (set_shift_amount_var b st1) = (Ok tt, st2) ->
  (op1 ;; set_amount b ;; op2) st = (Ok tt, st2).
Proof.
  intros H1 H2. unfold bind, set_amount, update. now rewrite H1.
Qed.

Lemma well_formed_amount (st : BitCalc) (b : Z) :
  well_formed st -> well_formed (set_shift_amount_var b st).
Proof. intros H. exact H. Qed.

Ltac same_width st :=
  repeat match goal with
         | |- context [Width ?s] =>
             tryif constr_eq s st then fail
             else change (Width s) with (Width st)
         end.

(** Each step of a composition: the operation on the displayed result of
    the one before, with a new amount. *)
Ltac second_step lemma :=
  apply lemma;
  [ apply well_formed_amount, well_formed_displayed
  | assumption
  | assumption ].

(** Shifting by [a] and then by [b] stores what one shift by [a + b]
    stores: the left shift on any stored integer, for amounts of up to
    [2^16] in all (past what the interpreter can allocate [<<] raises),
    the two right shifts on a value in range. *)
Theorem shifts_compose (st : BitCalc) (b : Z) :
  let a := shift_amount_var st in
  let once := set_shift_amount_var (a + b) st in
  well_formed st ->
  1 <= num_bytes_var st ->
  0 <= a ->
  0 <= b ->
  (a + b <= 2 ^ 16 ->
   store_the_same (_shift_left ;; set_amount b ;; _shift_left) st
                  _shift_left once)
  /\ (0 <= _current_value st <= mask (Width st) ->
      store_the_same
        (_shift_right_logical ;; set_amount b ;; _shift_right_logical) st
        _shift_right_logical once
      /\ store_the_same
           (_shift_right_arithmetic ;; set_amount b ;; _shift_right_arithmetic)
           st _shift_right_arithmetic once).
Proof.
  intros a once Hwf Hbytes Ha Hb.
  assert (Hw : 1 <= Width st) by (unfold Width; lia).
  assert (Hab : 0 <= shift_amount_var once) by (cbn; lia).
  split; [intros _|intros Hv; split].
  - eexists. split.
    + eexists. split.
      * eapply then_with_amount_run;
          [now apply _shift_left_run | second_step _shift_left_run].
      * reflexivity.
    + eexists. split; [now apply _shift_left_run|].
      cbn [displayed _current_value set_current_value shift_amount_var
           set_shift_amount_var].
      same_width st.
      symmetry. apply shiftLeft_shiftLeft; lia.
  - eexists. split.
    + eexists. split.
      * eapply then_with_amount_run;
          [now apply _shift_right_logical_run
          | second_step _shift_right_logical_run].
      * reflexivity.
    + eexists. split; [now apply _shift_right_logical_run|].
      cbn [displayed _current_value set_current_value shift_amount_var
           set_shift_amount_var].
      same_width st.
      symmetry. apply shiftRightLogical_shiftRightLogical; (lia || assumption).
  - eexists. split.
    + eexists. split.
      * eapply then_with_amount_run;
          [now apply _shift_right_arithmetic_run
          | second_step _shift_right_arithmetic_run].
      * reflexivity.
    + eexists. split; [now apply _shift_right_arithmetic_run|].
      cbn [displayed _current_value set_current_value shift_amount_var
           set_shift_amount_var].
      same_width st.
      symmetry.
      apply shiftRightArithmetic_shiftRightArithmetic; (lia || assumption).
Qed.

(** Rotations add up in both directions, on any stored integer; a right
    rotation by [a] is the left rotation by [w - a mod w]; a rotation by a
    multiple of the width stores the value masked; and on a value in
    range rotating right and then left by the same amount gives the
    value back. *)
Theorem rotations_compose (st : BitCalc) (b : Z) :
  let a := shift_amount_var st in
  let v := _current_value st in
  let w := Width st in
  well_formed st ->
  1 <= num_bytes_var st ->
  0 <= a ->
  0 <= b ->
  store_the_same (_rotate_left ;; set_amount b ;; _rotate_left) st
                 _rotate_left (set_shift_amount_var (a + b) st)
  /\ store_the_same (_rotate_right ;; set_amount b ;; _rotate_right) st
                    _rotate_right (set_shift_amount_var (a + b) st)
  /\ store_the_same _rotate_right st
                    _rotate_left (set_shift_amount_var (w - a mod w) st)
  /\ (a mod w = 0 ->
      stores _rotate_left st (Z.land v (mask w))
      /\ stores _rotate_right st (Z.land v (mask w)))
  /\ (0 <= v <= mask w -> stores (_rotate_right ;; _rotate_left) st v).
Proof.
  intros a v w Hwf Hbytes Ha Hb.
  assert (Hw : 1 <= w) by (subst w; unfold Width; lia).
  pose proof (Z.mod_pos_bound a w ltac:(lia)) as Hmod.
  split; [|split; [|split; [|split]]].
  - eexists. split.
    + eexists. split.
      * eapply then_with_amount_run;
          [now apply _rotate_left_run | second_step _rotate_left_run].
      * reflexivity.
    + eexists. split; [apply _rotate_left_run; (assumption || (cbn; lia))|].
      cbn [displayed _current_value set_current_value shift_amount_var
           set_shift_amount_var].
      same_width st. symmetry. now apply rotateLeft_rotateLeft.
  - eexists. split.
    + eexists. split.
      * eapply then_with_amount_run;
          [now apply _rotate_right_run | second_step _rotate_right_run].
      * reflexivity.
    + eexists. split; [apply _rotate_right_run; (assumption || (cbn; lia))|].
      cbn [displayed _current_value set_current_value shift_amount_var
           set_shift_amount_var].
      same_width st. symmetry. now apply rotateRight_rotateRight.
  - eexists. split.
    + eexists. split; [now apply _rotate_right_run | reflexivity].
    + eexists. split;
        [apply _rotate_left_run; [assumption | assumption | cbn; lia]|].
      cbn [displayed _current_value set_current_value shift_amount_var
           set_shift_amount_var].
      same_width st. symmetry. now apply rotateRight_as_rotateLeft.
  - intros Hturn. split.
    + eexists. split; [now apply _rotate_left_run|].
      cbn [displayed _current_value set_current_value].
      now apply rotateLeft_full_turn.
    + eexists. split; [now apply _rotate_right_run|].
      cbn [displayed _current_value set_current_value].
      fold a v w. rewrite rotateRight_as_rotateLeft by assumption.
      apply rotateLeft_full_turn; [assumption|].
      rewrite Hturn, Z.sub_0_r. apply Z_mod_same_full.
  - intros Hv. eexists. split.
    + erewrite bind_run by (now apply _rotate_right_run).
      apply _rotate_left_run;
        [apply well_formed_displayed | assumption | assumption].
    + cbn [displayed _current_value set_current_value shift_amount_var].
      same_width st. now apply rotateLeft_rotateRight.
Qed.

Lemma invert_complement (v w : Z) :
  0 <= w -> invert v w = mask w - Z.land v (mask w).
Proof.
  intros Hw. unfold invert. rewrite !land_mask_mod by assumption.
  pose proof (pow2_pos w Hw) as Hpos.
  pose proof (Z.div_mod v (2 ^ w) ltac:(lia)) as Hdm.
  pose proof (Z.mod_pos_bound v (2 ^ w) Hpos) as Hr.
  pose proof (Z.add_lnot_diag v) as Hnot.
  set (p := 2 ^ w) in *. set (q := v / p) in *. set (r := v mod p) in *.
  symmetry. apply Z.mod_unique with (q := - q - 1); unfold mask; fold p.
  - lia.
  - nia.
Qed.

Lemma invert_bits_spec (v w i : Z) :
  0 <= w -> 0 <= i ->
  Z.testbit (invert v w) i = (i <? w) && negb (Z.testbit v i).
Proof.
  intros Hw Hi. unfold invert.
  rewrite Z.land_spec, Z.lnot_spec, testbit_mask by lia. apply andb_comm.
Qed.

Lemma reverse_invert (v w : Z) :
  0 <= w -> reverse (invert v w) w = invert (reverse v w) w.
Proof.
  intros Hw. apply Z.bits_inj'. intros j Hj.
  rewrite (reverse_bits (invert v w) w j), (invert_bits_spec (reverse v w) w j),
    (reverse_bits v w j) by lia.
  destruct (Z.ltb_spec j w); [|reflexivity]. cbn [andb].
  rewrite invert_bits_spec by lia.
  destruct (Z.ltb_spec (w - 1 - j) w); [reflexivity | lia].
Qed.

(** Invert stores the complement to the mask of the masked value;
    reverse stores the value whose bit [j] is bit [w - 1 - j] of the old
    one, with nothing at or above the width; the two commute. *)
Theorem invert_and_reverse_store (st : BitCalc) :
  let v := _current_value st in
  let w := Width st in
  well_formed st ->
  1 <= num_bytes_var st ->
  stores _invert_bits st (mask w - Z.land v (mask w))
  /\ (exists st',
        _reverse_bits st = (Ok tt, st')
        /\ forall j, 0 <= j ->
             Z.testbit (_current_value st') j
             = (j <? w) && Z.testbit v (w - 1 - j))
  /\ store_the_same (_invert_bits ;; _reverse_bits) st
                    (_reverse_bits ;; _invert_bits) st.
Proof.
  intros v w Hwf Hbytes.
  assert (Hw : 0 <= w) by (subst w; unfold Width; lia).
  split; [|split].
  - eexists. split; [now apply _invert_bits_run|].
    cbn [displayed _current_value set_current_value].
    now apply invert_complement.
  - eexists. split; [now apply _reverse_bits_run|].
    cbn [displayed _current_value set_current_value].
    intros j Hj. now apply reverse_bits.
  - eexists. split.
    + eexists. split.
      * erewrite bind_run by (now apply _invert_bits_run).
        apply _reverse_bits_run; [apply well_formed_displayed | assumption].
      * reflexivity.
    + eexists. split.
      * erewrite bind_run by (now apply _reverse_bits_run).
        apply _invert_bits_run; [apply well_formed_displayed | assumption].
      * cbn [displayed _current_value set_current_value]. same_width st.
        symmetry. now apply reverse_invert.
Qed.

(** ** The check boxes *)

Lemma nth_map_range {A : Type} (f : Z -> A) (n : Z) (i : nat) (d : A) :
  (i < Z.to_nat n)%nat -> nth i (map f (range n)) d = f (Z.of_nat i).
Proof.
  intros Hi. unfold range. rewrite map_map.
  rewrite (nth_indep _ d (f (Z.of_nat 0))) by (now rewrite length_map, length_seq).
  rewrite (map_nth (fun k => f (Z.of_nat k)) (seq 0 (Z.to_nat n)) 0%nat i).
  now rewrite seq_nth by assumption.
Qed.

Lemma from_bits_fold (l : list Z) :
  forall (k : nat) (acc j : Z),
    0 <= j ->
    Z.testbit
      (fold_left (fun new_value (iv : Z * Z) =>
                    if snd iv =? 1
                    then Z.lor new_value (Z.shiftl 1 (fst iv))
                    else new_value)
                 (combine (map Z.of_nat (seq k (List.length l))) l) acc) j
    = Z.testbit acc j
      || ((Z.of_nat k <=? j) && (nth (Z.to_nat j - k) l 0 =? 1)).
Proof.
  induction l as [|x l IH]; intros k acc j Hj.
  - cbn [List.length seq map combine fold_left].
    destruct (Z.to_nat j - k)%nat; cbn [nth Z.eqb];
      now rewrite andb_false_r, orb_false_r.
  - cbn [List.length seq map combine fold_left fst snd].
    rewrite IH by assumption.
    assert (Hacc : Z.testbit (if x =? 1 then Z.lor acc (Z.shiftl 1 (Z.of_nat k))
                              else acc) j
                   = Z.testbit acc j || ((x =? 1) && (Z.of_nat k =? j))).
    { destruct (x =? 1); cbn [andb]; [|now rewrite orb_false_r].
      now rewrite Z.lor_spec, testbit_shiftl_1 by lia. }
    rewrite Hacc.
    destruct (Z.eqb_spec (Z.of_nat k) j) as [Heq|Hne].
    + replace (Z.to_nat j - k)%nat with 0%nat by lia.
      destruct (Z.leb_spec (Z.of_nat (S k)) j); [lia|].
      destruct (Z.leb_spec (Z.of_nat k) j); [|lia].
      cbn [nth andb]. now rewrite andb_true_r, orb_false_r.
    + rewrite andb_false_r, orb_false_r.
      destruct (Z.leb_spec (Z.of_nat k) j).
      * destruct (Z.leb_spec (Z.of_nat (S k)) j); [|lia].
        replace (Z.to_nat j - k)%nat with (S (Z.to_nat j - S k)) by lia.
        reflexivity.
      * destruct (Z.leb_spec (Z.of_nat (S k)) j); [lia|]. reflexivity.
Qed.

Lemma from_bits_spec (l : list Z) (j : Z) :
  0 <= j -> Z.testbit (from_bits l) j = (nth (Z.to_nat j) l 0 =? 1).
Proof.
  intros Hj. unfold from_bits, enumerate, range.
  rewrite Nat2Z.id, from_bits_fold by assumption.
  rewrite Z.bits_0, Nat.sub_0_r. cbn [orb].
  destruct (Z.leb_spec (Z.of_nat 0) j); [reflexivity | lia].
Qed.

Lemma _update_from_bits_run (st : BitCalc) :
  well_formed st ->
  1 <= num_bytes_var st ->
  _is_updating st = false ->
  _update_from_bits st
  = (Ok tt, displayed (set_current_value (from_bits (bit_vars st)) st)).
Proof.
  intros Hwf Hbytes Hupd. unfold _update_from_bits. run. rewrite Hupd. run.
  erewrite bind_run.
  2:{ apply (for_in_ret (fun (iv : Z * Z) new_value =>
                           if snd iv =? 1
                           then Z.lor new_value (Z.shiftl 1 (fst iv))
                           else new_value)).
      intros [i var] a Hin. cbn [fst snd].
      apply in_combine_l, In_range in Hin.
      destruct (var =? 1); [|reflexivity].
      rewrite lshift_nonneg by lia. reflexivity. }
  run. now apply stored_run.
Qed.

Lemma bit_state_checked (value w j : Z) :
  0 <= j -> (bit_state value w j =? 1) = (j <? w) && Z.testbit value j.
Proof.
  intros Hj. unfold bit_state. rewrite truthy_bit_at by assumption.
  now destruct ((j <? w) && Z.testbit value j).
Qed.

Lemma from_bits_displayed (value w j : Z) :
  0 <= j ->
  Z.testbit (from_bits (map (bit_state value w) (range 64))) j
  = (j <? 64) && (j <? w) && Z.testbit value j.
Proof.
  intros Hj. rewrite from_bits_spec by assumption.
  destruct (Z.ltb_spec j 64).
  - rewrite nth_map_range by (change (Z.to_nat 64) with 64%nat; lia).
    rewrite Z2Nat.id by assumption. cbn [andb].
    now apply bit_state_checked.
  - rewrite nth_overflow; [reflexivity|].
    rewrite length_map. unfold range. rewrite length_map, length_seq.
    change (Z.to_nat 64) with 64%nat. lia.
Qed.

(** After [_update_display] a bit check box is disabled exactly from the
    width on; an enabled one shows its bit of the displayed value, a
    disabled one shows 0. *)
Theorem display_shows_active_bits (st : BitCalc) (i : nat) :
  let w := Width st in
  let value := Z.land (_current_value st) (mask w) in
  well_formed st ->
  1 <= num_bytes_var st ->
  (i < 64)%nat ->
  exists st',
    _update_display st = (Ok tt, st')
    /\ well_formed st'
    /\ nth i (checkbox_disabled st') true = (w <=? Z.of_nat i)
    /\ nth i (bit_vars st') 0
       = (if (Z.of_nat i <? w) && Z.testbit value (Z.of_nat i) then 1 else 0).
Proof.
  intros w value Hwf Hbytes Hi. eexists.
  split; [apply _update_display_run; (assumption || lia)|].
  split; [apply well_formed_displayed|].
  cbn [displayed checkbox_disabled bit_vars]. fold w value.
  rewrite !nth_map_range by (change (Z.to_nat 64) with 64%nat; lia).
  split.
  - case_ltb; (lia || reflexivity).
  - unfold bit_state. now rewrite truthy_bit_at by lia.
Qed.

(** Reading the check boxes back after a display stores the displayed
    value when the width is at most 64 bits; with more bytes selected
    only the 64 bits that have a check box are kept. *)
Theorem bits_round_trip (st : BitCalc) :
  let w := Width st in
  well_formed st ->
  1 <= num_bytes_var st ->
  stores (_update_display ;; _update_from_bits) st
         (Z.land (_current_value st) (mask (Z.min w 64))).
Proof.
  intros w Hwf Hbytes. eexists. split.
  - erewrite bind_run by (apply _update_display_run; (assumption || lia)).
    apply _update_from_bits_run;
      [apply well_formed_displayed | assumption | reflexivity].
  - cbn [displayed _current_value set_current_value bit_vars]. fold w.
    assert (Hw : 1 <= w) by (subst w; unfold Width; lia).
    apply Z.bits_inj'. intros j Hj.
    rewrite from_bits_displayed, !testbit_land_mask by lia.
    case_ltb; try lia; cbn [andb]; now rewrite ?andb_true_r, ?andb_false_r.
Qed.

Lemma length_map_range {A : Type} (f : Z -> A) (n : Z) :
  List.length (map f (range n)) = Z.to_nat n.
Proof. unfold range. now rewrite !length_map, length_seq. Qed.

Lemma length_list_set {A : Type} (l : list A) (i : nat) (v : A) :
  List.length (list_set l i v) = List.length l.
Proof.
  revert i. induction l as [|x l IH]; intros [|i]; cbn; auto.
Qed.

Lemma nth_list_set {A : Type} (l : list A) (i j : nat) (v d : A) :
  (i < List.length l)%nat ->
  nth j (list_set l i v) d = if (j =? i)%nat then v else nth j l d.
Proof.
  revert i j. induction l as [|x l IH]; intros i j Hi; cbn in Hi; [lia|].
  destruct i as [|i], j as [|j]; cbn; try reflexivity.
  apply IH. lia.
Qed.

Lemma setitem_in_range {A : Type} (l : list A) (i : nat) (v : A) :
  (i < List.length l)%nat ->
  setitem l (Z.of_nat i) v = Some (list_set l i v).
Proof.
  intros Hi. unfold setitem.
  destruct (Z.leb_spec 0 (Z.of_nat i)); [|lia].
  destruct (Z.ltb_spec (Z.of_nat i) (Z.of_nat (List.length l))); [|lia].
  cbn [andb]. now rewrite Nat2Z.id.
Qed.

(** On a displayed instance of at most 64 bits a click on an enabled bit
    check box stores the displayed value with that one bit flipped; a
    click on a disabled one changes nothing. *)
Theorem click_toggles_one_bit (st : BitCalc) (i : nat) :
  let w := Width st in
  let value := Z.land (_current_value st) (mask w) in
  well_formed st ->
  1 <= num_bytes_var st <= 8 ->
  (i < 64)%nat ->
  exists st1,
    _update_display st = (Ok tt, st1)
    /\ (Z.of_nat i < w ->
        stores (click_bit i) st1 (Z.lxor value (2 ^ Z.of_nat i)))
    /\ (w <= Z.of_nat i -> click_bit i st1 = (Ok tt, st1)).
Proof.
  intros w value Hwf Hbytes Hi.
  assert (Hw : 1 <= w <= 64) by (subst w; unfold Width; lia).
  exists (displayed st).
  split; [apply _update_display_run; (assumption || lia)|].
  assert (Hdisabled : nth i (checkbox_disabled (displayed st)) true
                      = (w <=? Z.of_nat i)).
  { cbn [displayed checkbox_disabled]. fold w.
    rewrite nth_map_range by (change (Z.to_nat 64) with 64%nat; lia).
    case_ltb; (lia || reflexivity). }
  split.
  - intros Hact.
    set (vars := map (bit_state value w) (range 64)).
    set (flipped := if nth i vars 0 =? 1 then 0 else 1).
    assert (Hset : set_bit_var (Z.of_nat i) flipped (displayed st)
                   = (Ok tt, set_bit_vars (list_set vars i flipped)
                                          (displayed st))).
    { unfold set_bit_var. cbn [displayed bit_vars]. fold w value vars.
      now rewrite setitem_in_range by (subst vars; rewrite length_map_range; lia). }
    assert (Hclick : click_bit i (displayed st)
                     = _update_from_bits
                         (set_bit_vars (list_set vars i flipped)
                                       (displayed st))).
    { unfold click_bit. cbn [bind get ret]. rewrite Hdisabled.
      destruct (Z.leb_spec w (Z.of_nat i)); [lia|].
      cbn [bind get ret].
      change (bit_vars (displayed st)) with vars. fold flipped.
      now rewrite (bind_run _ _ _ _ _ Hset). }
    eexists. split.
    + rewrite Hclick.
      apply _update_from_bits_run; [|exact (proj1 Hbytes)|reflexivity].
      split; [|reflexivity]. cbn [bit_vars set_bit_vars].
      now rewrite length_list_set.
    + cbn [displayed _current_value set_current_value bit_vars set_bit_vars].
      apply Z.bits_inj'. intros j Hj.
      rewrite from_bits_spec by assumption.
      rewrite nth_list_set by (subst vars; rewrite length_map_range; lia).
      rewrite Z.lxor_spec, Z.pow2_bits_eqb by lia.
      assert (Hold : forall k, 0 <= k ->
                 (nth (Z.to_nat k) vars 0 =? 1) = Z.testbit value k).
      { intros k Hk. rewrite <- from_bits_spec by assumption.
        subst vars. rewrite from_bits_displayed by assumption.
        subst value. rewrite testbit_land_mask by lia.
        case_ltb; try lia; cbn [andb];
          now rewrite ?andb_true_r, ?andb_false_r. }
      destruct (Nat.eqb_spec (Z.to_nat j) i) as [Heq|Hne].
      * destruct (Z.eqb_spec (Z.of_nat i) j); [|lia].
        subst flipped. specialize (Hold j Hj). rewrite Heq in Hold.
        rewrite <- Hold. now destruct (nth i vars 0 =? 1).
      * destruct (Z.eqb_spec (Z.of_nat i) j); [lia|].
        rewrite xorb_false_r. now apply Hold.
  - intros Hoff. unfold click_bit. cbn [bind get ret]. rewrite Hdisabled.
    destruct (Z.leb_spec w (Z.of_nat i)); [reflexivity | lia].
Qed.

(** ** Text entry: blank, unreadable and readable texts *)


Lemma signed_entry_value_mod (literal w : Z) :
  1 <= w -> signed_entry_value literal w = literal mod 2 ^ w.
Proof.
  intros Hw. unfold signed_entry_value.
  pose proof (pow2_split w Hw) as Hp.
  pose proof (pow2_pos (w - 1) ltac:(lia)) as Hpos.
  destruct (Z.ltb_spec literal 0).
  - destruct (Z.geb_spec literal (- 2 ^ (w - 1))).
    + apply Z.mod_unique with (q := -1); lia.
    + apply land_mask_mod. lia.
  - destruct (Z.ltb_spec literal (2 ^ (w - 1))).
    + symmetry. apply Z.mod_small. lia.
    + apply land_mask_mod. lia.
Qed.

Lemma _update_from_entry_blank (st : BitCalc) (source : entry) :
  _is_updating st = false ->
  is_empty (strip (var_map source st)) = true ->
  _update_from_entry source st = _update_display (set_current_value 0 st).
Proof.
  intros Hupd Hblank. unfold _update_from_entry. run. rewrite Hupd. run.
  rewrite Hblank. reflexivity.
Qed.


Lemma _update_from_entry_plain (st : BitCalc) (source : entry) (literal : Z) :
  _is_updating st = false ->
  entry_eqb source dec && signed_mode_var st = false ->
  int_of_text (strip (var_map source st)) (base_map source) = Some literal ->
  _update_from_entry source st
  = _update_display (set_current_value literal st).
Proof.
  intros Hupd Hplain Hint. unfold _update_from_entry. run. rewrite Hupd. run.
  rewrite (int_of_text_not_empty _ _ _ Hint). unfold bind at 1.
  rewrite try_except_ok with (st' := set_current_value literal st) (a := tt);
    [reflexivity|].
  run. rewrite Hplain, (py_int_run _ _ _ Hint). reflexivity.
Qed.

(** In signed mode the decimal field stores the literal modulo [2^w],
    whatever the literal: the four branches of the code agree with the
    wrap-around. *)
Theorem signed_entry_wraps_around (st : BitCalc) (literal : Z) :
  well_formed st ->
  1 <= num_bytes_var st ->
  _is_updating st = false ->
  signed_mode_var st = true ->
  int_of_text (strip (dec_var st)) 10 = Some literal ->
  stores (_update_from_entry dec) st (literal mod 2 ^ Width st).
Proof.
  intros Hwf Hbytes Hupd Hsigned Hint. eexists.
  split; [apply _update_from_entry_signed; eassumption|].
  cbn [displayed _current_value set_current_value].
  apply signed_entry_value_mod. unfold Width. lia.
Qed.

(** Whatever the field and the mode, after a text that [int()] reads as
    [literal] the display shows [literal mod 2^w]. *)
Theorem entry_displays_literal_modulo_width (st : BitCalc) (source : entry)
        (literal : Z) :
  let w := Width st in
  well_formed st ->
  1 <= num_bytes_var st ->
  _is_updating st = false ->
  int_of_text (strip (var_map source st)) (base_map source) = Some literal ->
  exists st',
    _update_from_entry source st = (Ok tt, st')
    /\ Z.land (_current_value st') (mask w) = literal mod 2 ^ w
    /\ hex_var st' = format_X (literal mod 2 ^ w)
    /\ oct_var st' = format_o (literal mod 2 ^ w)
    /\ bin_var st' = format_b (literal mod 2 ^ w)
    /\ dec_var st' = py_str (if signed_mode_var st
                             then to_signed (literal mod 2 ^ w) w
                             else literal mod 2 ^ w).
Proof.
  intros w Hwf Hbytes Hupd Hint.
  assert (Hw : 1 <= w) by (subst w; unfold Width; lia).
  assert (Hshow : forall x,
             Z.land x (mask w) = literal mod 2 ^ w ->
             let st' := displayed (set_current_value x st) in
             Z.land (_current_value st') (mask w) = literal mod 2 ^ w
             /\ hex_var st' = format_X (literal mod 2 ^ w)
             /\ oct_var st' = format_o (literal mod 2 ^ w)
             /\ bin_var st' = format_b (literal mod 2 ^ w)
             /\ dec_var st' = py_str (if signed_mode_var st
                                      then to_signed (literal mod 2 ^ w) w
                                      else literal mod 2 ^ w)).
  { intros x Hx.
    cbn [displayed _current_value set_current_value hex_var oct_var bin_var
         dec_var signed_mode_var].
    same_width st. fold w. rewrite Hx.
    repeat split.
    - unfold bin_text. destruct (Z.gtb_spec w 0); [reflexivity | lia].
    - unfold dec_text, to_signed. rewrite truthy_bit_at by lia.
      destruct (signed_mode_var st); cbn [andb]; [|reflexivity].
      now destruct (Z.testbit (literal mod 2 ^ w) (w - 1)). }
  destruct (entry_eqb source dec && signed_mode_var st) eqn:Hdec.
  - apply andb_prop in Hdec as [Hsrc Hsigned].
    destruct source; try discriminate. cbn [var_map base_map] in Hint.
    eexists. split; [apply _update_from_entry_signed; eassumption|].
    apply Hshow. fold w. rewrite signed_entry_value_mod by assumption.
    rewrite land_mask_mod by lia. apply Z.mod_mod.
    pose proof (pow2_pos w ltac:(lia)). lia.
  - eexists. split.
    + rewrite (_update_from_entry_plain st source literal) by assumption.
      now apply stored_run.
    + apply Hshow. apply land_mask_mod. lia.
Qed.

(** ** The four fields read back what the display writes *)

Lemma ord_radix_digit (upper : bool) (d : Z) :
  0 <= d < 16 ->
  ord (digit_char upper d)
  = if d <? 10 then 48 + d else if upper then 55 + d else 87 + d.
Proof.
  intros Hd. unfold digit_char. apply ord_chr.
  destruct (d <? 10), upper; lia.
Qed.

Lemma radix_digit_value (upper : bool) (d : Z) :
  0 <= d < 16 -> _PyLong_DigitValue (digit_char upper d) = d.
Proof.
  intros Hd. unfold _PyLong_DigitValue. rewrite ord_radix_digit by assumption.
  destruct (Z.ltb_spec d 10), upper; case_ltb; cbn [andb]; lia.
Qed.

Lemma radix_digit_is_digit (b : Z) (upper : bool) (d : Z) :
  0 <= d < b -> b <= 16 -> is_digit b (digit_char upper d) = true.
Proof.
  intros Hd Hb. unfold is_digit. rewrite radix_digit_value by lia.
  apply Z.ltb_lt. lia.
Qed.

Lemma scan_radix_digit (b : Z) (upper : bool) (d a : Z) (k : nat)
      (prev : bool) (rest : string) :
  0 <= d < b -> b <= 16 ->
  scan_digits b prev a k (String (digit_char upper d) rest)
  = scan_digits b false (a * b + d) (S k) rest.
Proof.
  intros Hd Hb. cbn [scan_digits].
  pose proof (radix_digit_is_digit b upper d Hd Hb) as Hdig.
  rewrite (digit_not_underscore b _ ltac:(lia) Hdig).
  unfold is_digit in Hdig. rewrite Hdig.
  now rewrite radix_digit_value by lia.
Qed.

Lemma to_radix_digits_head (b : Z) (upper : bool) (fuel : nat) :
  2 <= b ->
  forall n acc,
    0 <= n ->
    (fuel = O -> exists d r, 0 <= d < b /\ acc = String (digit_char upper d) r) ->
    exists d r,
      0 <= d < b /\ to_digits fuel b upper n acc = String (digit_char upper d) r.
Proof.
  intros Hb. induction fuel as [|fuel IH]; intros n acc Hn Hacc.
  - now apply Hacc.
  - cbn [to_digits].
    pose proof (Z.mod_pos_bound n b ltac:(lia)) as Hd.
    destruct (n / b =? 0).
    + exists (n mod b), acc. now split.
    + apply IH.
      * apply Z.div_pos; lia.
      * intros _. exists (n mod b), acc. now split.
Qed.

Lemma to_digits_all_digits (b : Z) (upper : bool) (fuel : nat) :
  2 <= b <= 16 ->
  forall n acc,
    0 <= n -> all_chars (is_digit b) acc = true ->
    all_chars (is_digit b) (to_digits fuel b upper n acc) = true.
Proof.
  intros Hb. induction fuel as [|fuel IH]; intros n acc Hn Hacc.
  - exact Hacc.
  - cbn [to_digits].
    pose proof (Z.mod_pos_bound n b ltac:(lia)) as Hd.
    assert (Hacc' : all_chars (is_digit b)
                      (String (digit_char upper (n mod b)) acc) = true).
    { cbn [all_chars]. now rewrite radix_digit_is_digit, Hacc by lia. }
    destruct (n / b =? 0); [exact Hacc'|].
    apply IH; [apply Z.div_pos; lia | exact Hacc'].
Qed.

Lemma scan_to_radix_digits (b : Z) (upper : bool) (fuel : nat) :
  2 <= b <= 16 ->
  forall n rest,
    0 <= n < 2 ^ Z.of_nat (S fuel) ->
    exists (m : Z) (len : nat),
      (1 <= len <= S fuel)%nat
      /\ forall a k,
          scan_digits b false a k (to_digits (S fuel) b upper n rest)
          = scan_digits b false (a * m + n) (k + len) rest.
Proof.
  intros Hb. induction fuel as [|fuel IH]; intros n rest Hn.
  - exists b, 1%nat. split; [lia|]. intros a k.
    cbn [to_digits]. change (2 ^ Z.of_nat 1) with 2 in Hn.
    rewrite (Z.div_small n b), (Z.mod_small n b) by lia. cbn [Z.eqb].
    rewrite scan_radix_digit by lia. now rewrite Nat.add_1_r.
  - pose proof (Z.mod_pos_bound n b ltac:(lia)) as Hd.
    pose proof (Z.div_mod n b ltac:(lia)) as Hdm.
    cbn [to_digits]. destruct (Z.eqb_spec (n / b) 0) as [Hz|Hnz].
    + exists b, 1%nat. split; [lia|]. intros a k.
      rewrite scan_radix_digit by lia. rewrite Nat.add_1_r.
      f_equal. lia.
    + destruct (IH (n / b) (String (digit_char upper (n mod b)) rest))
        as [m [len [Hlen Hscan]]].
      { split; [apply Z.div_pos; lia|].
        apply Z.div_lt_upper_bound; [lia|].
        rewrite (Nat2Z.inj_succ (S fuel)), Z.pow_succ_r in Hn by lia.
        pose proof (pow2_pos (Z.of_nat (S fuel)) ltac:(lia)). nia. }
      exists (m * b), (S len). split; [lia|]. intros a k.
      cbn [to_digits] in Hscan. rewrite Hscan.
      rewrite scan_radix_digit by lia.
      rewrite Nat.add_succ_r. f_equal. lia.
Qed.

Lemma skip_prefix_digits (b : Z) (s : string) :
  all_chars (is_digit b) s = true -> skip_prefix b s = s.
Proof.
  intros Hs. destruct s as [|zero [|c r]]; try reflexivity.
  cbn [all_chars] in Hs. apply andb_prop in Hs as [_ Hs].
  apply andb_prop in Hs as [Hc _].
  unfold skip_prefix. destruct (prefix_letter b c) eqn:Hp.
  - apply prefix_letter_code in Hp. destruct Hp as [Hp _]. congruence.
  - now rewrite andb_false_r.
Qed.

Lemma int_of_text_format (b : Z) (upper : bool) (n : Z) :
  2 <= b <= 16 -> 0 <= n -> Z.log2 n < 639 ->
  int_of_text (format_radix b upper n) b = Some n.
Proof.
  intros Hb Hn Hlog. unfold format_radix.
  destruct (Z.ltb_spec n 0); [lia|]. rewrite Z.abs_eq by assumption.
  set (text := to_digits (digit_fuel n) b upper n "").
  destruct (to_radix_digits_head b upper (digit_fuel n) ltac:(lia) n "" Hn)
    as [d [r [Hd Hhead]]]; [discriminate|]. fold text in Hhead.
  pose proof (radix_digit_is_digit b upper d Hd ltac:(lia)) as Hdig.
  destruct (digit_not_sign b _ ltac:(lia) Hdig) as [Hplus Hminus].
  assert (Hall : all_chars (is_digit b) text = true)
    by (apply to_digits_all_digits; (assumption || reflexivity)).
  destruct (scan_to_radix_digits b upper (Z.to_nat (Z.log2 n)) Hb n "")
    as [m [len [Hlen Hscan]]].
  { split; [exact Hn | apply (digit_fuel_enough n Hn)]. }
  fold (digit_fuel n) in Hscan. fold text in Hscan.
  assert (Hmag : int_magnitude b text = Some n).
  { unfold int_magnitude. rewrite skip_prefix_digits by assumption.
    rewrite Hscan. rewrite Hhead. cbn [starts_with_underscore].
    rewrite (digit_not_underscore b _ ltac:(lia) Hdig).
    cbn [scan_digits Nat.add skip_spaces is_empty negb].
    destruct (Nat.eqb_spec len 0); [lia|].
    unfold exceeds_max_str_digits.
    destruct (Nat.ltb_spec 640 len).
    - pose proof (Z.log2_nonneg n). lia.
    - rewrite andb_false_r. cbn [andb]. reflexivity. }
  unfold int_of_text.
  assert (Hskip : skip_spaces text = text).
  { rewrite Hhead. cbn [skip_spaces].
    now rewrite (digit_not_space b _ ltac:(lia) Hdig). }
  rewrite Hskip.
  assert (Hsign : take_sign text = (1, text)).
  { rewrite Hhead. cbn [take_sign]. now rewrite Hplus, Hminus. }
  rewrite Hsign, Hmag. f_equal. lia.
Qed.

Lemma digit_not_unicode_space (b : Z) (c : ascii) :
  b <= 36 -> is_digit b c = true -> Py_UNICODE_ISSPACE c = false.
Proof.
  intros Hb Hc. unfold Py_UNICODE_ISSPACE.
  destruct (digit_code b c Hb Hc) as [?|[?|?]];
    case_ltb; cbn [andb orb]; (lia || reflexivity).
Qed.

Lemma strip_format (b : Z) (upper : bool) (n : Z) :
  2 <= b <= 16 -> 0 <= n ->
  strip (format_radix b upper n) = format_radix b upper n.
Proof.
  intros Hb Hn. apply strip_without_space. unfold format_radix.
  destruct (Z.ltb_spec n 0); [lia|]. rewrite Z.abs_eq by assumption.
  pose proof (to_digits_all_digits b upper (digit_fuel n) Hb n "" Hn eq_refl)
    as Hall.
  induction (to_digits (digit_fuel n) b upper n "") as [|c s IH];
    [reflexivity|].
  cbn [all_chars] in *. apply andb_prop in Hall as [Hc Hs].
  rewrite (digit_not_unicode_space b c ltac:(lia) Hc). cbn [negb andb].
  now apply IH.
Qed.

Lemma format_starts_with_digit (b : Z) (upper : bool) (n : Z) :
  2 <= b <= 16 -> 0 <= n -> startswith_minus (format_radix b upper n) = false.
Proof.
  intros Hb Hn. unfold format_radix.
  destruct (Z.ltb_spec n 0); [lia|]. rewrite Z.abs_eq by assumption.
  destruct (to_radix_digits_head b upper (digit_fuel n) ltac:(lia) n "" Hn)
    as [d [r [Hd Hhead]]]; [discriminate|].
  rewrite Hhead. cbn [startswith_minus].
  pose proof (radix_digit_is_digit b upper d Hd ltac:(lia)) as Hdig.
  now destruct (digit_not_sign b _ ltac:(lia) Hdig).
Qed.


Lemma write_var_same (st : BitCalc) (source : entry) :
  write_var source (var_map source st) st = st.
Proof. now destruct st, source. Qed.

Lemma _validate_dec_run (P : string) (st : BitCalc) :
  _validate_dec P st
  = (Ok (if signed_mode_var st
         then String.eqb P "-" || is_empty P
              || match int_of_text P 10 with Some _ => true | None => false end
         else negb (startswith_minus P)
              && (is_empty P
                  || match int_of_text P 10 with
                     | Some _ => true
                     | None => false
                     end)), st).
Proof.
  unfold _validate_dec. run. destruct (signed_mode_var st).
  - destruct (String.eqb P "-"); [reflexivity|]. cbn [orb].
    destruct (startswith_minus P) eqn:Hm.
    + destruct P as [|c r]; [discriminate|]. cbn [is_empty orb].
      unfold try_except_ValueError, bind, py_int.
      now destruct (int_of_text (String c r) 10).
    + apply _validate_input_run.
  - destruct (startswith_minus P); [reflexivity|]. apply _validate_input_run.
Qed.

Lemma validatecommand_readable (st : BitCalc) (source : entry) (P : string)
      (x : Z) :
  int_of_text P (base_map source) = Some x ->
  (signed_mode_var st = false -> source = dec -> startswith_minus P = false) ->
  validatecommand source P st = (Ok true, st).
Proof.
  intros Hint Hminus.
  destruct source; cbn [validatecommand base_map] in *;
    unfold _validate_hex, _validate_oct, _validate_bin;
    rewrite ?_validate_input_run, ?_validate_dec_run, Hint;
    rewrite ?orb_true_r; try reflexivity.
  destruct (signed_mode_var st); [reflexivity|].
  now rewrite Hminus.
Qed.

Lemma displayed_text_readable (st : BitCalc) (source : entry) :
  1 <= num_bytes_var st <= 8 ->
  let value := Z.land (_current_value st) (mask (Width st)) in
  let text := var_map source (displayed st) in
  strip text = text
  /\ (signed_mode_var st = false -> startswith_minus text = false)
  /\ exists x,
      int_of_text text (base_map source) = Some x
      /\ x mod 2 ^ Width st = value
      /\ (entry_eqb source dec && signed_mode_var st = false -> x = value).
Proof.
  intros Hbytes value text.
  set (w := Width st) in *.
  assert (Hw : 8 <= w <= 64) by (subst w; unfold Width; lia).
  pose proof (land_mask_range (_current_value st) w ltac:(lia)) as Hv.
  fold value in Hv. unfold mask in Hv.
  assert (H2w : 2 ^ w <= 2 ^ 64) by (apply Z.pow_le_mono_r; lia).
  assert (Hlog : forall y, 0 <= y <= 2 ^ w -> Z.log2 y < 639).
  { intros y Hy. destruct (Z.eq_dec y 0) as [->|Hne]; [reflexivity|].
    assert (Z.log2 y <= Z.log2 (2 ^ 64)) by (apply Z.log2_le_mono; lia).
    rewrite Z.log2_pow2 in * by lia. lia. }
  assert (Hplain : forall b upper,
             2 <= b <= 16 ->
             let t := format_radix b upper value in
             strip t = t /\ startswith_minus t = false
             /\ int_of_text t b = Some value).
  { intros b upper Hb. repeat split.
    - apply strip_format; lia.
    - apply format_starts_with_digit; lia.
    - apply int_of_text_format; [lia | lia | apply Hlog; lia]. }
  assert (Hsmall : value mod 2 ^ w = value) by (apply Z.mod_small; lia).
  destruct source; subst text; cbn [var_map displayed hex_var dec_var oct_var
                                    bin_var base_map entry_eqb andb];
    fold w value.
  - destruct (Hplain 16 true ltac:(lia)) as [Hs [Hm Hi]].
    split; [exact Hs|]. split; [intros _; exact Hm|].
    exists value. now repeat split.
  - unfold dec_text. rewrite truthy_bit_at by lia.
    destruct (signed_mode_var st) eqn:Hsigned; cbn [andb].
    + destruct (Z.testbit value (w - 1)).
      * split; [apply strip_py_str|]. split; [discriminate|].
        exists (value - 2 ^ w). split; [|split; [|discriminate]].
        -- apply int_of_text_py_str. rewrite Z.abs_neq by lia.
           apply Hlog. lia.
        -- symmetry. apply Z.mod_unique with (q := -1); lia.
      * destruct (Hplain 10 false ltac:(lia)) as [Hs [Hm Hi]].
        split; [exact Hs|]. split; [discriminate|].
        exists value. now repeat split.
    + destruct (Hplain 10 false ltac:(lia)) as [Hs [Hm Hi]].
      split; [exact Hs|]. split; [intros _; exact Hm|].
      exists value. now repeat split.
  - destruct (Hplain 8 false ltac:(lia)) as [Hs [Hm Hi]].
    split; [exact Hs|]. split; [intros _; exact Hm|].
    exists value. now repeat split.
  - unfold bin_text. destruct (Z.gtb_spec w 0); [|lia]. cbn [orb].
    destruct (Hplain 2 false ltac:(lia)) as [Hs [Hm Hi]].
    split; [exact Hs|]. split; [intros _; exact Hm|].
    exists value. now repeat split.
Qed.

Lemma displayed_truncated (st : BitCalc) :
  0 <= num_bytes_var st ->
  displayed (set_current_value
               (Z.land (_current_value st) (mask (Width st))) (displayed st))
  = set_current_value (Z.land (_current_value st) (mask (Width st)))
                      (displayed st).
Proof.
  intros Hbytes. unfold displayed at 1.
  cbn [displayed set_current_value _current_value _is_updating num_bytes_var
       hex_var dec_var oct_var bin_var bit_vars checkbox_disabled
       signed_mode_var shift_amount_var].
  same_width st.
  rewrite (land_mask_id (Z.land (_current_value st) (mask (Width st))))
    by (try apply land_mask_range; unfold Width; lia).
  reflexivity.
Qed.

(** Each of the four fields reads back what the display wrote into it:
    at a width of 8 to 64 bits and in either mode, the text shown in a
    field passes the validator of the field, and entering it again
    stores the displayed value, that is the stored value cut to the
    width, and leaves every text and check box as it was. *)
Theorem fields_read_back_what_is_displayed (st : BitCalc) (source : entry) :
  let shown := displayed st in
  let text := var_map source shown in
  well_formed st ->
  1 <= num_bytes_var st <= 8 ->
  accepts (validatecommand source) shown text
  /\ entry_key source text shown
     = (Ok tt, set_current_value
                 (Z.land (_current_value st) (mask (Width st))) shown).
Proof.
  intros shown text Hwf Hbytes.
  destruct (displayed_text_readable st source Hbytes)
    as [Hstrip [Hminus [x [Hint [Hmod Hplain]]]]].
  fold shown text in Hstrip, Hminus, Hint.
  assert (Hvalid : validatecommand source text shown = (Ok true, shown)).
  { apply validatecommand_readable with (x := x); [exact Hint|].
    intros Hsigned _. now apply Hminus. }
  split; [exact Hvalid|].
  unfold entry_key. rewrite (bind_run _ _ _ _ _ Hvalid). run.
  subst text. rewrite write_var_same.
  rewrite <- displayed_truncated by lia. fold shown.
  assert (Hwf' : well_formed shown) by apply well_formed_displayed.
  destruct (entry_eqb source dec && signed_mode_var st) eqn:Hdec.
  - apply andb_prop in Hdec as [Hsrc Hsigned].
    destruct source; try discriminate. cbn [var_map base_map] in *.
    rewrite (_update_from_entry_signed shown x Hwf');
      [| exact (proj1 Hbytes) | reflexivity | exact Hsigned
       | now rewrite Hstrip ].
    rewrite signed_entry_value_mod by (unfold Width; cbn; lia).
    change (Width shown) with (Width st). now rewrite Hmod.
  - rewrite (_update_from_entry_plain shown source x);
      [| reflexivity | exact Hdec | now rewrite Hstrip ].
    rewrite (Hplain eq_refl).
    apply stored_run; [exact Hwf' | exact (proj1 Hbytes)].
Qed.


(** ** One value for a literal, whatever blanks surround it *)






(** ** [strip] on a text that [int()] reads *)








(** ** A text without a minus sign is not read as a negative number *)

Lemma digit_value_nonneg (c : ascii) : 0 <= _PyLong_DigitValue c.
Proof.
  unfold _PyLong_DigitValue.
  destruct (Z.leb_spec 48 (ord c)), (Z.leb_spec (ord c) 57),
    (Z.leb_spec 97 (ord c)), (Z.leb_spec (ord c) 122),
    (Z.leb_spec 65 (ord c)), (Z.leb_spec (ord c) 90);
    cbn [andb]; lia.
Qed.

Lemma scan_digits_nonneg (base : Z) (s : string) :
  0 <= base ->
  forall prev a d v k rest,
    0 <= a -> scan_digits base prev a d s = Some (v, k, rest) -> 0 <= v.
Proof.
  intros Hb. induction s as [|c s IH]; intros prev a d v k rest Ha Hscan;
    cbn [scan_digits] in Hscan.
  - destruct prev; [discriminate|]. now injection Hscan as <- _ _.
  - destruct (Ascii.eqb c "_").
    + destruct prev; [discriminate|]. now apply IH in Hscan.
    + destruct (_PyLong_DigitValue c <? base).
      * apply IH in Hscan; [assumption|].
        pose proof (digit_value_nonneg c). nia.
      * destruct prev; [discriminate|]. now injection Hscan as <- _ _.
Qed.

Lemma int_magnitude_nonneg (base : Z) (s : string) (v : Z) :
  0 <= base -> int_magnitude base s = Some v -> 0 <= v.
Proof.
  intros Hb. unfold int_magnitude.
  destruct (starts_with_underscore (skip_prefix base s)); [discriminate|].
  destruct (scan_digits base false 0 0 (skip_prefix base s))
    as [[[v' k] rest]|] eqn:Hscan; [|discriminate].
  destruct (k =? 0)%nat; [discriminate|].
  destruct (negb (is_empty (skip_spaces rest))); [discriminate|].
  destruct (exceeds_max_str_digits base k); [discriminate|].
  intros Hv. injection Hv as <-.
  apply (scan_digits_nonneg base _ Hb _ _ _ _ _ _ (Z.le_refl 0) Hscan).
Qed.

Lemma contains_minus_skip_spaces (P : string) :
  contains_minus P = false -> contains_minus (skip_spaces P) = false.
Proof.
  unfold contains_minus. induction P as [|c r IH]; [reflexivity|].
  cbn [skip_spaces]. destruct (Py_ISSPACE c); [|trivial].
  cbn [all_chars]. intros H. apply IH.
  apply negb_false_iff in H. apply andb_prop in H as [_ H].
  now rewrite H.
Qed.

Lemma int_of_text_nonneg (base : Z) (P : string) (v : Z) :
  0 <= base -> contains_minus P = false ->
  int_of_text P base = Some v -> 0 <= v.
Proof.
  intros Hb Hminus. apply contains_minus_skip_spaces in Hminus.
  unfold int_of_text.
  destruct (skip_spaces P) as [|c r]; cbn [take_sign].
  - destruct (int_magnitude base "") as [m|] eqn:Hm; [|discriminate].
    intros Hv. assert (Hone : v = 1 * m) by congruence.
    apply int_magnitude_nonneg in Hm; lia.
  - apply contains_minus_head in Hminus. cbn [startswith_minus] in Hminus.
    rewrite Hminus.
    destruct (Ascii.eqb c "+");
      match goal with
      | |- match int_magnitude base ?s with _ => _ end = _ -> _ =>
          destruct (int_magnitude base s) as [m|] eqn:Hm; [|discriminate]
      end;
      intros Hv; assert (Hone : v = 1 * m) by congruence;
      apply int_magnitude_nonneg in Hm; lia.
Qed.

(** ** What a key edit can do *)




(** ** The validators of the signed decimal field and of the amount *)

(** In signed mode, for a candidate text of ASCII characters, the
    decimal validator answers without an exception; it accepts the empty
    text, a lone minus sign and the texts [int(text)] reads, and nothing
    else; so it accepts whatever the unsigned mode accepts. *)
Theorem signed_decimal_validator (st : BitCalc) (P : string) :
  isascii P = true ->
  signed_mode_var st = true ->
  (accepts _validate_dec st P \/ rejects _validate_dec st P)
  /\ (accepts _validate_dec st P <->
      P = "" \/ P = "-"
      \/ exists k, int_literal 10 P k
                   /\ exceeds_max_str_digits 10 k = false)
  /\ (accepts _validate_dec (set_signed_mode_var false st) P ->
      accepts _validate_dec st P).
Proof.
  intros _ Hsigned. unfold accepts, rejects.
  rewrite !_validate_dec_run, Hsigned. cbn [signed_mode_var set_signed_mode_var].
  split; [|split].
  - match goal with |- (Ok ?b, _) = _ \/ _ => destruct b end; auto.
  - split.
    + intros H. injection H as H.
      destruct (String.eqb_spec P "-") as [->|_]; [now right; left|].
      destruct P as [|c r]; [now left|]. right; right.
      cbn [orb is_empty] in H.
      destruct (int_of_text (String c r) 10) as [v|] eqn:Hv; [|discriminate].
      now apply int_of_text_sound in Hv.
    + intros [->|[->|[k [Hlit Hlim]]]]; try reflexivity.
      destruct (int_of_text_complete 10 P k ltac:(lia) Hlit Hlim) as [v Hv].
      now rewrite Hv, orb_true_r.
  - intros H. injection H as H. apply andb_prop in H as [_ Hread].
    f_equal. f_equal.
    destruct (String.eqb P "-"); [reflexivity | exact Hread].
Qed.

Lemma _validate_shift_amount_run (P : string) (st : BitCalc) :
  _validate_shift_amount P st
  = (Ok (is_empty P || match int_of_text P 10 with
                       | Some val => val >=? 0
                       | None => false
                       end), st).
Proof.
  unfold _validate_shift_amount. destruct P as [|c r]; [reflexivity|].
  cbn [is_empty orb]. unfold try_except_ValueError, bind, py_int.
  now destruct (int_of_text (String c r) 10).
Qed.

Lemma _validate_shift_amount_spec (st : BitCalc) (P : string) :
  (accepts _validate_shift_amount st P \/ rejects _validate_shift_amount st P)
  /\ (accepts _validate_shift_amount st P <->
      P = "" \/ exists val, int_of_text P 10 = Some val /\ 0 <= val).
Proof.
  unfold accepts, rejects. rewrite _validate_shift_amount_run. split.
  - match goal with |- (Ok ?b, _) = _ \/ _ => destruct b end; auto.
  - split.
    + intros H. injection H as H.
      destruct P as [|c r]; [now left | right]. cbn [is_empty orb] in H.
      destruct (int_of_text (String c r) 10) as [val|]; [|discriminate].
      exists val. split; [reflexivity | lia].
    + intros [->|[val [Hval Hpos]]]; [reflexivity|].
      rewrite Hval. destruct (Z.geb_spec val 0); [|lia].
      now rewrite orb_true_r.
Qed.

(** The validator of the amount field, for a candidate text of ASCII
    characters: it answers without an exception; what it accepts is
    empty or read by [int(text)] as a number that is not negative (so
    [-0] passes); a text that holds no minus sign is accepted exactly
    when it is empty or a decimal literal (blanks, a plus sign, digits
    with single underscores between them, blanks) within the digit
    limit; of the texts [str(n)] it accepts those with [n >= 0]. *)
Theorem shift_amount_validator (st : BitCalc) (P : string) :
  isascii P = true ->
  (accepts _validate_shift_amount st P \/ rejects _validate_shift_amount st P)
  /\ (accepts _validate_shift_amount st P <->
      P = "" \/ exists val, int_of_text P 10 = Some val /\ 0 <= val)
  /\ (contains_minus P = false ->
      (accepts _validate_shift_amount st P <->
       P = ""
       \/ exists k, int_literal 10 P k
                    /\ exceeds_max_str_digits 10 k = false))
  /\ (forall n, Z.log2 (Z.abs n) < 639 ->
        (accepts _validate_shift_amount st (py_str n) <-> 0 <= n)).
Proof.
  intros _.
  destruct (_validate_shift_amount_spec st P) as [Hanswer Hiff].
  split; [exact Hanswer|]. split; [exact Hiff|]. split.
  - intros Hminus. rewrite Hiff. split.
    + intros [->|[val [Hval _]]]; [now left | right].
      now apply int_of_text_sound in Hval.
    + intros [->|[k [Hlit Hlim]]]; [now left | right].
      destruct (int_of_text_complete 10 P k ltac:(lia) Hlit Hlim) as [val Hval].
      exists val. split; [exact Hval|].
      apply (int_of_text_nonneg 10 P val); (lia || assumption).
  - intros n Hlog. unfold accepts. rewrite _validate_shift_amount_run.
    rewrite (int_of_text_py_str n Hlog).
    rewrite (int_of_text_not_empty _ _ _ (int_of_text_py_str n Hlog)).
    cbn [orb]. destruct (Z.geb_spec n 0); split; intros Hacc;
      (reflexivity || lia || discriminate).
Qed.

(** ** The width out of range *)

Lemma bind_raise {A B : Type} (m : M A) (k : A -> M B) (st st' : BitCalc)
      (e : exn) :
  m st = (Raise e, st') -> (x <- m ;; k x) st = (Raise e, st').
Proof. intros H. unfold bind. now rewrite H. Qed.

Lemma zero_text : format_X 0 = "0" /\ format_o 0 = "0" /\ format_b 0 = "0"
                  /\ py_str 0 = "0".
Proof. repeat split. Qed.

Lemma displayed_zero (st : BitCalc) :
  let st' := displayed (set_current_value 0 st) in
  0 <= num_bytes_var st ->
  _current_value st' = 0
  /\ hex_var st' = "0" /\ dec_var st' = "0" /\ oct_var st' = "0"
  /\ bin_var st' = "0"
  /\ bit_vars st' = repeat 0 64.
Proof.
  intros st' Hbytes. subst st'.
  cbn [displayed set_current_value _current_value hex_var dec_var oct_var
       bin_var bit_vars signed_mode_var].
  same_width st. rewrite Z.land_0_l.
  assert (Hbit : forall i, truthy (bit_at 0 i) = false).
  { intros i. unfold bit_at. now rewrite Z.shiftr_0_l. }
  repeat split.
  - unfold dec_text. rewrite Hbit. now rewrite andb_false_r.
  - unfold bin_text. now destruct (_ || _).
  - change (repeat 0 64) with (map (fun _ : Z => 0) (range 64)).
    apply map_ext. intros i. unfold bit_state.
    now rewrite Hbit, andb_false_r.
Qed.

(** Clear stores 0, writes [0] into the four fields and unchecks the 64
    boxes, at any width and in either mode; a blank text in a field does
    exactly the same. *)
Theorem clear_shows_zero (st : BitCalc) (source : entry) :
  well_formed st ->
  1 <= num_bytes_var st ->
  exists st',
    _clear_bits st = (Ok tt, st')
    /\ _current_value st' = 0
    /\ hex_var st' = "0" /\ dec_var st' = "0" /\ oct_var st' = "0"
    /\ bin_var st' = "0"
    /\ bit_vars st' = repeat 0 64
    /\ (_is_updating st = false -> strip (var_map source st) = "" ->
        _update_from_entry source st = (Ok tt, st')).
Proof.
  intros Hwf Hbytes. eexists.
  split; [now apply _clear_bits_run|].
  destruct (displayed_zero st ltac:(lia)) as [H0 [H1 [H2 [H3 [H4 H5]]]]].
  repeat (split; [assumption|]).
  intros Hupd Hblank.
  rewrite _update_from_entry_blank by (rewrite ?Hblank; (assumption || reflexivity)).
  now apply stored_run.
Qed.

Lemma mask_zero_width (st : BitCalc) :
  num_bytes_var st = 0 -> mask (Width st) = 0.
Proof. intros H. unfold Width. now rewrite H. Qed.

(** With no byte selected, in unsigned mode and for an amount from 0 to
    [2^16]: the rotations leave the instance alone; the shifts, Invert,
    Reverse, Clear and the width change store 0 and show [0] in the four
    fields. *)
Theorem zero_width_operations (st : BitCalc) (op : M unit) :
  well_formed st ->
  num_bytes_var st = 0 ->
  signed_mode_var st = false ->
  0 <= shift_amount_var st <= 2 ^ 16 ->
  (In op [_rotate_left; _rotate_right] -> op st = (Ok tt, st))
  /\ (In op [_shift_left; _shift_right_logical; _shift_right_arithmetic;
             _invert_bits; _reverse_bits; _clear_bits;
             _on_num_bytes_change] ->
      exists st',
        op st = (Ok tt, st')
        /\ _current_value st' = 0
        /\ hex_var st' = "0" /\ dec_var st' = "0" /\ oct_var st' = "0"
        /\ bin_var st' = "0").
Proof.
  intros Hwf Hbytes Hsigned [Hn _].
  pose proof (mask_zero_width st Hbytes) as Hmask.
  assert (Hshow : forall x,
             _update_display (set_current_value x st)
             = (Ok tt, displayed (set_current_value x st))).
  { intros x. apply _update_display_run; [exact Hwf | cbn; lia|].
    cbn [signed_mode_var set_current_value]. congruence. }
  assert (Hget : _get_mask st = (Ok 0, st)).
  { rewrite <- Hmask. apply _get_mask_run. lia. }
  split.
  - intros Hop. cbn [In] in Hop.
    repeat destruct Hop as [<-|Hop]; try contradiction.
    + unfold _rotate_left. run.
      destruct (Z.ltb_spec (shift_amount_var st) 0); [lia|]. run.
      now rewrite Hbytes.
    + unfold _rotate_right. run.
      destruct (Z.ltb_spec (shift_amount_var st) 0); [lia|]. run.
      now rewrite Hbytes.
  - intros Hop.
    assert (Hzero : op st = (Ok tt, displayed (set_current_value 0 st))).
    { cbn [In] in Hop.
      repeat destruct Hop as [<-|Hop]; try contradiction.
      - unfold _shift_left. run.
        destruct (Z.ltb_spec (shift_amount_var st) 0); [lia|]. run.
        rewrite (bind_run _ _ _ _ _ Hget). run.
        rewrite lshift_nonneg by assumption. run.
        rewrite Z.land_0_r. apply Hshow.
      - unfold _shift_right_logical. run.
        destruct (Z.ltb_spec (shift_amount_var st) 0); [lia|]. run.
        rewrite (bind_run _ _ _ _ _ Hget). run.
        rewrite rshift_nonneg by assumption. run.
        rewrite Z.land_0_r. apply Hshow.
      - unfold _shift_right_arithmetic. run.
        destruct (Z.ltb_spec (shift_amount_var st) 0); [lia|]. run.
        rewrite (bind_run _ _ _ _ _ Hget). rewrite Hbytes. run.
        apply Hshow.
      - unfold _invert_bits. rewrite (bind_run _ _ _ _ _ Hget). run.
        rewrite Z.land_0_r. apply Hshow.
      - unfold _reverse_bits. run. rewrite (bind_run _ _ _ _ _ Hget).
        rewrite Hbytes. run. apply Hshow.
      - unfold _clear_bits. run. apply Hshow.
      - unfold _on_num_bytes_change. rewrite (bind_run _ _ _ _ _ Hget). run.
        rewrite Z.land_0_r. apply Hshow. }
    eexists. split; [exact Hzero|].
    destruct (displayed_zero st ltac:(lia)) as [H0 [H1 [H2 [H3 [H4 _]]]]].
    now repeat split.
Qed.

(** For a number of bytes of at most 8, [_update_display] returns
    exactly when the number is not negative and, in signed mode, not
    zero.  Otherwise it raises [ValueError] (a negative shift count) with
    the stored value untouched and [_is_updating] left set, and from then
    on a text entry and a bit click return without doing anything. *)
Theorem display_fails_on_bad_width (st : BitCalc) :
  let bad := num_bytes_var st < 0
             \/ (num_bytes_var st = 0 /\ signed_mode_var st = true) in
  well_formed st ->
  num_bytes_var st <= 8 ->
  (~ bad -> _update_display st = (Ok tt, displayed st))
  /\ (bad ->
      exists st',
        _update_display st = (Raise ValueError, st')
        /\ _is_updating st' = true
        /\ _current_value st' = _current_value st
        /\ (forall source, _update_from_entry source st' = (Ok tt, st'))
        /\ _update_from_bits st' = (Ok tt, st')).
Proof.
  intros bad Hwf _. subst bad. split.
  - intros Hgood.
    assert (Hnonneg : 0 <= num_bytes_var st).
    { destruct (Z.lt_ge_cases (num_bytes_var st) 0); [|assumption].
      exfalso. apply Hgood. now left. }
    apply _update_display_run; [exact Hwf | exact Hnonneg|].
    intros Hsigned.
    destruct (Z.eq_dec (num_bytes_var st) 0) as [Hzero|Hne]; [|lia].
    exfalso. apply Hgood. now right.
  - intros Hbad.
    assert (Hstuck : forall st',
               _is_updating st' = true ->
               (forall source, _update_from_entry source st' = (Ok tt, st'))
               /\ _update_from_bits st' = (Ok tt, st')).
    { intros st' Hupd. split; [intros source|].
      - unfold _update_from_entry. run. now rewrite Hupd.
      - unfold _update_from_bits. run. now rewrite Hupd. }
    destruct (Z.ltb_spec (num_bytes_var st) 0) as [Hneg|Hnonneg].
    + exists (set_is_updating true st). split.
      * unfold _update_display. run. apply bind_raise.
        unfold _get_mask, lshift. run.
        destruct (Z.ltb_spec (num_bytes_var st * 8) 0); [reflexivity | lia].
      * split; [reflexivity|]. split; [reflexivity|]. now apply Hstuck.
    + destruct Hbad as [Hneg|[Hzero Hsigned]]; [lia|].
      exists (set_hex_var (format_X (Z.land (_current_value st) 0))
                          (set_is_updating true st)).
      split.
      * unfold _update_display. run.
        rewrite (bind_run _ _ _ _ _
                   (_get_mask_run (set_is_updating true st) Hnonneg)).
        run. rewrite Hsigned. unfold rshift. rewrite Hzero.
        rewrite (mask_zero_width _ Hzero
                 : mask (Width (set_is_updating true st)) = 0).
        apply bind_raise. apply bind_raise. reflexivity.
      * split; [reflexivity|]. split; [reflexivity|]. now apply Hstuck.
Qed.


(** ** Width changes in a row, the mode and the start *)

Lemma land_mask_mask (v a b : Z) :
  0 <= a -> 0 <= b ->
  Z.land (Z.land v (mask a)) (mask b) = Z.land v (mask (Z.min a b)).
Proof.
  intros Ha Hb. apply Z.bits_inj'. intros i Hi.
  rewrite !testbit_land_mask by lia.
  destruct (Z.leb_spec 0 i); [|lia].
  destruct (Z.ltb_spec i a), (Z.ltb_spec i b), (Z.ltb_spec i (Z.min a b));
    try lia; cbn [andb]; now rewrite ?andb_true_r, ?andb_false_r.
Qed.

Lemma select_bytes_run (st : BitCalc) (bytes : Z) :
  well_formed st -> 1 <= bytes ->
  select_bytes bytes st
  = (Ok tt, displayed (set_current_value
                         (Z.land (_current_value st) (mask (bytes * 8)))
                         (set_num_bytes_var bytes st))).
Proof.
  intros Hwf Hb. unfold select_bytes. run.
  apply (_on_num_bytes_change_run (set_num_bytes_var bytes st)).
  - exact Hwf.
  - exact Hb.
Qed.

(** Two width changes in a row keep the bits below the narrower of the
    two widths: what a narrow width cut off does not come back when the
    width grows again. *)
Theorem width_changes_compose (st : BitCalc) (a b : Z) :
  well_formed st ->
  1 <= a ->
  1 <= b ->
  stores (select_bytes a ;; select_bytes b) st
         (Z.land (_current_value st) (mask (Z.min a b * 8)))
  /\ (a <= b ->
      store_the_same (select_bytes a ;; select_bytes b) st
                     (select_bytes a) st).
Proof.
  intros Hwf Ha Hb.
  assert (Hboth : stores (select_bytes a ;; select_bytes b) st
                         (Z.land (_current_value st) (mask (Z.min a b * 8)))).
  { eexists. split.
    - rewrite (bind_run _ _ _ _ _ (select_bytes_run st a Hwf Ha)).
      apply select_bytes_run; [apply well_formed_displayed | exact Hb].
    - cbn [displayed _current_value set_current_value set_num_bytes_var].
      rewrite land_mask_mask by lia. f_equal. f_equal. lia. }
  split; [exact Hboth|].
  intros Hab. exists (Z.land (_current_value st) (mask (Z.min a b * 8))).
  split; [exact Hboth|].
  eexists. split; [now apply select_bytes_run|].
  cbn [displayed _current_value set_current_value set_num_bytes_var].
  f_equal. f_equal. lia.
Qed.

Lemma py_str_inj (x y : Z) :
  Z.log2 (Z.abs x) < 639 -> Z.log2 (Z.abs y) < 639 ->
  py_str x = py_str y -> x = y.
Proof.
  intros Hx Hy Heq.
  pose proof (int_of_text_py_str x Hx) as H1.
  pose proof (int_of_text_py_str y Hy) as H2.
  rewrite Heq in H1. congruence.
Qed.

(** The Signed check button changes the decimal field and nothing else:
    the stored value, the other three texts and the check boxes are the
    same in both modes; the decimal field shows the value cut to the
    width in unsigned mode and its two's complement reading in signed
    mode, and the two texts differ exactly when the top bit is set. *)
Theorem signed_mode_changes_decimal_only (st : BitCalc) :
  let w := Width st in
  let value := Z.land (_current_value st) (mask w) in
  well_formed st ->
  1 <= num_bytes_var st <= 8 ->
  exists on off,
    select_signed true st = (Ok tt, on)
    /\ select_signed false st = (Ok tt, off)
    /\ _current_value on = _current_value st
    /\ _current_value off = _current_value st
    /\ hex_var on = hex_var off
    /\ oct_var on = oct_var off
    /\ bin_var on = bin_var off
    /\ bit_vars on = bit_vars off
    /\ checkbox_disabled on = checkbox_disabled off
    /\ dec_var off = py_str value
    /\ dec_var on = py_str (to_signed value w)
    /\ (dec_var on = dec_var off <-> Z.testbit value (w - 1) = false).
Proof.
  intros w value Hwf Hbytes.
  assert (Hw : 8 <= w <= 64) by (subst w; unfold Width; lia).
  pose proof (land_mask_range (_current_value st) w ltac:(lia)) as Hv.
  fold value in Hv. unfold mask in Hv.
  assert (H2w : 2 ^ w <= 2 ^ 64) by (apply Z.pow_le_mono_r; lia).
  assert (Hlog : forall y, 0 <= y <= 2 ^ w -> Z.log2 y < 639).
  { intros y Hy. destruct (Z.eq_dec y 0) as [->|Hne]; [reflexivity|].
    assert (Z.log2 y <= Z.log2 (2 ^ 64)) by (apply Z.log2_le_mono; lia).
    rewrite Z.log2_pow2 in * by lia. lia. }
  exists (displayed (set_signed_mode_var true st)),
         (displayed (set_signed_mode_var false st)).
  split; [|split].
  - unfold select_signed. run.
    apply _update_display_run; [exact Hwf | cbn; lia | cbn; lia].
  - unfold select_signed. run.
    apply _update_display_run; [exact Hwf | cbn; lia | cbn; lia].
  - cbn [displayed set_signed_mode_var _current_value hex_var dec_var oct_var
         bin_var bit_vars checkbox_disabled signed_mode_var].
    same_width st. fold w value.
    do 7 (split; [reflexivity|]).
    unfold dec_text, to_signed. rewrite truthy_bit_at by lia. cbn [andb].
    split; [reflexivity|].
    destruct (Z.testbit value (w - 1)); (split; [reflexivity|]).
    + split; [|discriminate]. intros Heq.
      apply py_str_inj in Heq; [lia | | apply Hlog; rewrite Z.abs_eq; lia].
      apply Hlog. rewrite Z.abs_neq; lia.
    + split; reflexivity.
Qed.

(** The start: whatever number of bytes (at least one), mode and amount
    the settings give, the tool comes up with the value 0 displayed at
    that width: [0] in the four fields, no box checked, the boxes at and
    above the width disabled, the amount as loaded. *)
Theorem startup_shows_zero (num_bytes : Z) (signed_mode : bool)
        (shift_amount : Z) :
  1 <= num_bytes ->
  exists st,
    startup num_bytes signed_mode shift_amount fresh = (Ok tt, st)
    /\ st = instance_at num_bytes signed_mode 0 shift_amount
    /\ _current_value st = 0
    /\ Width st = num_bytes * 8
    /\ hex_var st = "0" /\ dec_var st = "0" /\ oct_var st = "0"
    /\ bin_var st = "0"
    /\ bit_vars st = repeat 0 64
    /\ shift_amount_var st = shift_amount
    /\ signed_mode_var st = signed_mode
    /\ forall i, (i < 64)%nat ->
         nth i (checkbox_disabled st) true = (num_bytes * 8 <=? Z.of_nat i).
Proof.
  intros Hbytes.
  set (s0 := mkBitCalc 0 false num_bytes "" "" "" "" (repeat 0 64)
                       (repeat false 64) signed_mode shift_amount).
  assert (Hrun : startup num_bytes signed_mode shift_amount fresh
                 = (Ok tt, instance_at num_bytes signed_mode 0 shift_amount)).
  { unfold startup.
    rewrite (bind_run _ _ _ _ _
               (select_bytes_run fresh num_bytes ltac:(split; reflexivity)
                                 Hbytes)).
    unfold select_signed. rewrite bind_assoc_run. run.
    erewrite bind_run
      by (apply _update_display_run;
          [split; reflexivity | cbn; lia | cbn; lia]).
    run. rewrite _update_display_run
      by (try (split; reflexivity); cbn; lia).
    reflexivity. }
  exists (instance_at num_bytes signed_mode 0 shift_amount).
  split; [exact Hrun|]. split; [reflexivity|].
  destruct (displayed_zero s0 ltac:(cbn; lia)) as [H0 [H1 [H2 [H3 [H4 H5]]]]].
  unfold instance_at. fold s0.
  change (set_current_value 0 s0) with s0 in *.
  repeat (split; [assumption || reflexivity|]).
  intros i Hi. cbn [displayed checkbox_disabled].
  rewrite nth_map_range by (change (Z.to_nat 64) with 64%nat; lia).
  change (Width s0) with (num_bytes * 8).
  case_ltb; (lia || reflexivity).
Qed.


(** ** The bit grid *)

Lemma _create_bit_display_run :
  _create_bit_display
  = Some (map (fun b => Some (mkCheckbutton
                                (3 - 2 * (b / 32))
                                (9 * (3 - (b / 8) mod 4) + (7 - b mod 8))
                                b (py_str b)))
              (range 64),
          map (fun k => mkSeparator (k / 3 * 2 + 1) (k mod 3 * 9 + 8) 2)
              (range 6),
          map (fun i => mkByteLabel (py_str (8 - i) ++ "byte")
                                    (i / 4 * 2) (i mod 4 * 9) 8)
              (range 8)).
Proof. vm_compute. reflexivity. Qed.

(** The grid of [_create_bit_display]: every one of the 64 slots of
    [checkbox_widgets] gets a check button, wired to the variable of its
    own bit and labelled with the bit number.  Bits 32 to 63 are on grid
    row 1 and bits 0 to 31 on row 3, the most significant bit leftmost,
    eight to a byte with a free column between bytes: no check button is
    on a separator column and no two share a cell.  The label
    [(b / 8 + 1)byte] is on the row above the bit and spans its column. *)
Theorem bit_grid_layout (b : Z) :
  0 <= b < 64 ->
  exists widgets separators labels cb,
    _create_bit_display = Some (widgets, separators, labels)
    /\ List.length widgets = 64%nat
    /\ nth (Z.to_nat b) widgets None = Some cb
    /\ variable cb = b
    /\ label_text cb = py_str b
    /\ grid_row cb = (if b <? 32 then 3 else 1)
    /\ grid_column cb = 9 * (3 - (b / 8) mod 4) + (7 - b mod 8)
    /\ (forall sep, In sep separators -> sep_column sep <> grid_column cb)
    /\ (forall a ca,
          0 <= a < 64 -> nth (Z.to_nat a) widgets None = Some ca ->
          grid_row ca = grid_row cb -> grid_column ca = grid_column cb ->
          a = b)
    /\ (let lbl := nth (Z.to_nat (7 - b / 8)) labels (mkByteLabel "" 0 0 0) in
        byte_label_text lbl = (py_str (b / 8 + 1) ++ "byte")%string
        /\ label_row lbl = grid_row cb - 1
        /\ label_column lbl <= grid_column cb
           < label_column lbl + label_columnspan lbl).
Proof.
  intros Hb. do 4 eexists.
  split; [exact _create_bit_display_run|].
  split; [apply length_map_range|].
  assert (Hnth : forall a, 0 <= a < 64 ->
            nth (Z.to_nat a)
                (map (fun b => Some (mkCheckbutton
                                       (3 - 2 * (b / 32))
                                       (9 * (3 - (b / 8) mod 4) + (7 - b mod 8))
                                       b (py_str b)))
                     (range 64)) None
            = Some (mkCheckbutton
                      (3 - 2 * (a / 32))
                      (9 * (3 - (a / 8) mod 4) + (7 - a mod 8))
                      a (py_str a))).
  { intros a Ha. rewrite nth_map_range by lia.
    now rewrite Z2Nat.id by lia. }
  split; [apply Hnth; exact Hb|].
  cbn [variable label_text grid_row grid_column].
  split; [reflexivity|]. split; [reflexivity|].
  split; [destruct (Z.ltb_spec b 32); Z.div_mod_to_equations; lia|].
  split; [reflexivity|].
  split; [|split].
  - intros sep Hsep. apply in_map_iff in Hsep as [k [<- _]].
    cbn [sep_column]. Z.div_mod_to_equations. lia.
  - intros a ca Ha Hca.
    assert (Hcell : grid_row ca = 3 - 2 * (a / 32)
                    /\ grid_column ca
                       = 9 * (3 - (a / 8) mod 4) + (7 - a mod 8)).
    { rewrite (Hnth a Ha) in Hca. injection Hca as Hca.
      rewrite <- Hca. split; reflexivity. }
    destruct Hcell as [-> ->]. clear Hnth Hca.
    intros Hrow Hcol. Z.div_mod_to_equations. lia.
  - assert (Hbyte : 0 <= 7 - b / 8 < 8) by (Z.div_mod_to_equations; lia).
    cbv zeta.
    match goal with
    | |- context [nth ?n (map ?g (range 8)) ?d] =>
        assert (Hlbl : nth n (map g (range 8)) d = g (7 - b / 8))
    end.
    { rewrite nth_map_range by lia. now rewrite Z2Nat.id by lia. }
    rewrite Hlbl. clear Hlbl Hnth.
    cbn [byte_label_text label_row label_column label_columnspan].
    split; [|split].
    + do 2 f_equal. lia.
    + Z.div_mod_to_equations. lia.
    + Z.div_mod_to_equations. lia.
Qed.

End Interpreter.

(** * Instances of the theorems at concrete inputs *)

Lemma shift_right_arithmetic_sign_extends_witness :
  well_formed (instance_at 1 false 129 1)
  /\ exists st',
      _shift_right_arithmetic (instance_at 1 false 129 1) = (Ok tt, st')
      /\ _current_value st' = 192.
Proof.
  assert (Hwf : well_formed (instance_at 1 false 129 1))
    by (split; reflexivity).
  split; [exact Hwf|].
  destruct (shift_right_arithmetic_sign_extends (instance_at 1 false 129 1)
              Hwf ltac:(vm_compute; discriminate)
              ltac:(vm_compute; split; discriminate)
              ltac:(vm_compute; discriminate))
    as [st' [Hrun [_ [Hneg _]]]].
  exists st'. split; [exact Hrun|].
  rewrite Hneg; [reflexivity | reflexivity | vm_compute; reflexivity].
Defined.

Lemma signed_decimal_entry_four_cases_witness :
  int_of_text 4300 (strip (dec_var (instance_with_dec 1 true 0 "-5"))) 10
  = Some (-5)
  /\ exists st',
      _update_from_entry 4300 dec (instance_with_dec 1 true 0 "-5")
      = (Ok tt, st')
      /\ _current_value st' = 251.
Proof.
  split; [reflexivity|].
  destruct (signed_decimal_entry_four_cases 4300
              (instance_with_dec 1 true 0 "-5") (-5)
              ltac:(split; reflexivity) ltac:(vm_compute; discriminate)
              eq_refl eq_refl eq_refl)
    as [st' [Hrun [_ [_ [Hneg _]]]]].
  exists st'. split; [exact Hrun|].
  rewrite Hneg; [reflexivity | vm_compute; split; [discriminate | reflexivity]].
Defined.

Lemma signed_decimal_round_trip_witness :
  0 <= 200 <= mask 8
  /\ exists st1 st2,
      _update_display (instance_at 1 true 200 1) = (Ok tt, st1)
      /\ dec_var st1 = "-56"
      /\ _update_from_entry 4300 dec (set_current_value 7 st1) = (Ok tt, st2)
      /\ _current_value st2 = 200.
Proof.
  split; [vm_compute; split; discriminate|].
  destruct (signed_decimal_round_trip 4300 (instance_at 1 true 200 1) 7
              ltac:(split; reflexivity)
              ltac:(vm_compute; split; discriminate)
              eq_refl
              ltac:(vm_compute; split; discriminate))
    as [st1 [st2 [Hshow [Hdec [_ [Hread Hv]]]]]].
  exists st1, st2. repeat split; assumption.
Defined.

Lemma rotate_right_undoes_rotate_left_witness :
  0 <= 129 <= mask 8
  /\ exists st',
      bind _rotate_left (fun _ => _rotate_right) (instance_at 1 false 129 3)
      = (Ok tt, st')
      /\ _current_value st' = 129.
Proof.
  split; [vm_compute; split; discriminate|].
  exact (rotate_right_undoes_rotate_left (instance_at 1 false 129 3)
           ltac:(split; reflexivity)
           ltac:(vm_compute; discriminate)
           ltac:(vm_compute; split; discriminate)
           ltac:(vm_compute; discriminate)).
Defined.

Lemma negative_amount_is_ignored_witness :
  shift_amount_var (instance_at 1 false 129 (-1)) < 0
  /\ _shift_left (instance_at 1 false 129 (-1))
     = (Ok tt, instance_at 1 false 129 (-1)).
Proof.
  split; [reflexivity|].
  destruct (negative_amount_is_ignored (instance_at 1 false 129 (-1))
              eq_refl) as [Hshl _].
  exact Hshl.
Defined.

Lemma reverse_and_invert_are_involutions_witness :
  0 <= 193 <= mask 8
  /\ exists st',
      bind _reverse_bits (fun _ => _reverse_bits) (instance_at 1 false 193 1)
      = (Ok tt, st')
      /\ _current_value st' = 193.
Proof.
  split; [vm_compute; split; discriminate|].
  destruct (reverse_and_invert_are_involutions (instance_at 1 false 193 1)
              ltac:(split; reflexivity)
              ltac:(vm_compute; discriminate)
              ltac:(vm_compute; split; discriminate))
    as [Hreverse _].
  exact Hreverse.
Defined.

Lemma bits_above_width_are_ignored_witness :
  1 <= num_bytes_var (instance_at 1 false 511 1)
  /\ _invert_bits (instance_at 1 false 511 1)
     = _invert_bits
         (set_current_value (Z.land 511 (mask 8)) (instance_at 1 false 511 1)).
Proof.
  split; [vm_compute; discriminate|].
  destruct (bits_above_width_are_ignored (instance_at 1 false 511 1)
              ltac:(split; reflexivity)
              ltac:(vm_compute; discriminate)
              ltac:(vm_compute; discriminate))
    as [_ [_ [_ Hinvert]]].
  exact Hinvert.
Defined.

Lemma select_bytes_truncates_witness :
  1 <= 1 <= 8
  /\ exists st',
      select_bytes 1 (instance_at 2 false 511 1) = (Ok tt, st')
      /\ Width st' = 8
      /\ _current_value st' = 255.
Proof.
  split; [lia|].
  destruct (select_bytes_truncates (instance_at 2 false 511 1) 1
              ltac:(split; reflexivity) ltac:(lia))
    as [st' [Hrun [Hw [_ [_ [_ Hff]]]]]].
  exists st'. repeat split; [exact Hrun | exact Hw | now apply Hff].
Defined.


(** The decimal field in unsigned mode lets a minus sign through when a
    blank comes first: [startswith("-")] does not see it. *)
Lemma unsigned_decimal_accepts_minus_after_blank :
  accepts (_validate_dec 4300) (instance_at 1 false 0 1) " -5".
Proof. reflexivity. Qed.

(** Texts with a sign, an underscore or a blank that all four fields
    accept in unsigned mode. *)
Lemma validators_accept_sign_underscore_blank (source : entry) :
  accepts (validatecommand 4300 source) (instance_at 1 false 0 1) "+1"
  /\ accepts (validatecommand 4300 source) (instance_at 1 false 0 1) "1_0"
  /\ accepts (validatecommand 4300 source) (instance_at 1 false 0 1) " 1".
Proof. destruct source; repeat split. Qed.


(** * Instances of the further properties *)

Lemma shifts_multiply_and_divide_witness :
  well_formed (instance_at 1 false 129 1)
  /\ exists st',
      _shift_left (instance_at 1 false 129 1) = (Ok tt, st')
      /\ _current_value st' = 2.
Proof.
  assert (Hwf : well_formed (instance_at 1 false 129 1))
    by (split; reflexivity).
  split; [exact Hwf|].
  destruct (shifts_multiply_and_divide (instance_at 1 false 129 1) Hwf
              ltac:(vm_compute; discriminate)
              ltac:(vm_compute; discriminate))
    as [Hshl _].
  destruct (Hshl ltac:(vm_compute; discriminate)) as [st' [Hrun [Hv _]]].
  exists st'. split; [exact Hrun | exact Hv].
Defined.

Lemma shift_right_arithmetic_is_floor_division_witness :
  0 <= 129 <= mask 8
  /\ exists st',
      _shift_right_arithmetic (instance_at 1 false 129 1) = (Ok tt, st')
      /\ to_signed (_current_value st') 8 = -64.
Proof.
  split; [vm_compute; split; discriminate|].
  destruct (shift_right_arithmetic_is_floor_division
              (instance_at 1 false 129 1)
              ltac:(split; reflexivity)
              ltac:(vm_compute; discriminate)
              ltac:(vm_compute; split; discriminate)
              ltac:(vm_compute; discriminate))
    as [st' [Hrun [_ [Hv _]]]].
  exists st'. split; [exact Hrun | exact Hv].
Defined.

Lemma shifts_compose_witness :
  0 <= 2
  /\ store_the_same
       (bind _shift_left (fun _ => bind (set_amount 2) (fun _ => _shift_left)))
       (instance_at 1 false 3 1)
       _shift_left (set_shift_amount_var 3 (instance_at 1 false 3 1)).
Proof.
  split; [lia|].
  exact (proj1 (shifts_compose (instance_at 1 false 3 1) 2
                  ltac:(split; reflexivity)
                  ltac:(vm_compute; discriminate)
                  ltac:(vm_compute; discriminate)
                  ltac:(vm_compute; discriminate))
               ltac:(vm_compute; discriminate)).
Defined.

Lemma rotations_compose_witness :
  0 <= 129 <= mask 8
  /\ stores (bind _rotate_right (fun _ => _rotate_left))
            (instance_at 1 false 129 3) 129.
Proof.
  split; [vm_compute; split; discriminate|].
  destruct (rotations_compose (instance_at 1 false 129 3) 6
              ltac:(split; reflexivity)
              ltac:(vm_compute; discriminate)
              ltac:(vm_compute; discriminate)
              ltac:(vm_compute; discriminate))
    as [_ [_ [_ [_ Hback]]]].
  exact (Hback ltac:(vm_compute; split; discriminate)).
Defined.

Lemma invert_and_reverse_store_witness :
  1 <= num_bytes_var (instance_at 1 false 5 1)
  /\ stores _invert_bits (instance_at 1 false 5 1) 250.
Proof.
  split; [vm_compute; discriminate|].
  exact (proj1 (invert_and_reverse_store (instance_at 1 false 5 1)
                  ltac:(split; reflexivity)
                  ltac:(vm_compute; discriminate))).
Defined.

Lemma display_shows_active_bits_witness :
  (2 < 64)%nat
  /\ exists st',
      _update_display (instance_at 1 false 5 1) = (Ok tt, st')
      /\ nth 2 (checkbox_disabled st') true = false
      /\ nth 2 (bit_vars st') 0 = 1.
Proof.
  split; [lia|].
  destruct (display_shows_active_bits (instance_at 1 false 5 1) 2
              ltac:(split; reflexivity)
              ltac:(vm_compute; discriminate)
              ltac:(lia))
    as [st' [Hrun [_ [Hbox Hbit]]]].
  exists st'. split; [exact Hrun|]. split; [exact Hbox | exact Hbit].
Defined.

Lemma bits_round_trip_witness :
  1 <= num_bytes_var (instance_at 1 false 511 1)
  /\ stores (bind _update_display (fun _ => _update_from_bits))
            (instance_at 1 false 511 1) 255.
Proof.
  split; [vm_compute; discriminate|].
  exact (bits_round_trip (instance_at 1 false 511 1)
           ltac:(split; reflexivity)
           ltac:(vm_compute; discriminate)).
Defined.

Lemma click_toggles_one_bit_witness :
  (1 < 64)%nat
  /\ exists st1,
      _update_display (instance_at 1 false 5 1) = (Ok tt, st1)
      /\ stores (click_bit 1) st1 7.
Proof.
  split; [lia|].
  destruct (click_toggles_one_bit (instance_at 1 false 5 1) 1
              ltac:(split; reflexivity)
              ltac:(vm_compute; split; discriminate)
              ltac:(lia))
    as [st1 [Hrun [Hclick _]]].
  exists st1. split; [exact Hrun|].
  exact (Hclick ltac:(vm_compute; reflexivity)).
Defined.


Lemma signed_entry_wraps_around_witness :
  int_of_text 4300 (strip (dec_var (instance_with_dec 1 true 0 "300"))) 10
  = Some 300
  /\ stores (_update_from_entry 4300 dec) (instance_with_dec 1 true 0 "300") 44.
Proof.
  split; [reflexivity|].
  exact (signed_entry_wraps_around 4300 (instance_with_dec 1 true 0 "300") 300
           ltac:(split; reflexivity) ltac:(vm_compute; discriminate)
           eq_refl eq_refl eq_refl).
Defined.

Lemma entry_displays_literal_modulo_width_witness :
  int_of_text 4300 (strip (dec_var (instance_with_dec 1 false 0 "300"))) 10
  = Some 300
  /\ exists st',
      _update_from_entry 4300 dec (instance_with_dec 1 false 0 "300")
      = (Ok tt, st')
      /\ hex_var st' = "2C"
      /\ dec_var st' = "44".
Proof.
  split; [reflexivity|].
  destruct (entry_displays_literal_modulo_width 4300
              (instance_with_dec 1 false 0 "300") dec 300
              ltac:(split; reflexivity) ltac:(vm_compute; discriminate)
              eq_refl eq_refl)
    as [st' [Hrun [_ [Hhex [_ [_ Hdec]]]]]].
  exists st'. split; [exact Hrun|]. split; [exact Hhex | exact Hdec].
Defined.

Lemma fields_read_back_what_is_displayed_witness :
  1 <= num_bytes_var (instance_at 1 true 200 1) <= 8
  /\ accepts (validatecommand 4300 dec) (instance_at 1 true 200 1) "-56"
  /\ entry_key 4300 dec "-56" (instance_at 1 true 200 1)
     = (Ok tt, instance_at 1 true 200 1).
Proof.
  split; [vm_compute; split; discriminate|].
  exact (fields_read_back_what_is_displayed 4300 (instance_at 1 true 200 1) dec
           ltac:(split; reflexivity)
           ltac:(vm_compute; split; discriminate)).
Defined.

Lemma signed_decimal_validator_witness :
  isascii "-" = true
  /\ signed_mode_var (instance_at 1 true 0 1) = true
  /\ accepts (_validate_dec 4300) (instance_at 1 true 0 1) "-".
Proof.
  split; [reflexivity|]. split; [reflexivity|].
  exact (proj2 (proj1 (proj2 (signed_decimal_validator 4300
                                (instance_at 1 true 0 1) "-"
                                eq_refl eq_refl)))
               (or_intror (or_introl eq_refl))).
Defined.

Lemma clear_shows_zero_witness :
  1 <= num_bytes_var (instance_at 1 false 5 1)
  /\ exists st',
      _clear_bits (instance_at 1 false 5 1) = (Ok tt, st')
      /\ _current_value st' = 0
      /\ hex_var st' = "0".
Proof.
  split; [vm_compute; discriminate|].
  destruct (clear_shows_zero 4300 (instance_at 1 false 5 1) hex
              ltac:(split; reflexivity)
              ltac:(vm_compute; discriminate))
    as [st' [Hrun [Hv [Hhex _]]]].
  exists st'. split; [exact Hrun|]. split; [exact Hv | exact Hhex].
Defined.

Lemma zero_width_operations_witness :
  num_bytes_var (instance_at 0 false 5 3) = 0
  /\ _rotate_left (instance_at 0 false 5 3)
     = (Ok tt, instance_at 0 false 5 3)
  /\ exists st',
      _invert_bits (instance_at 0 false 5 3) = (Ok tt, st')
      /\ _current_value st' = 0.
Proof.
  split; [reflexivity|]. split.
  - exact (proj1 (zero_width_operations (instance_at 0 false 5 3) _rotate_left
                    ltac:(split; reflexivity) eq_refl eq_refl
                    ltac:(vm_compute; split; discriminate))
                 (or_introl eq_refl)).
  - destruct (proj2 (zero_width_operations (instance_at 0 false 5 3)
                       _invert_bits
                       ltac:(split; reflexivity) eq_refl eq_refl
                       ltac:(vm_compute; split; discriminate))
                    ltac:(do 3 right; left; reflexivity))
      as [st' [Hrun [Hv _]]].
    exists st'. split; [exact Hrun | exact Hv].
Defined.

Lemma display_fails_on_bad_width_witness :
  num_bytes_var (instance_at 0 true 5 1) <= 8
  /\ exists st',
      _update_display (instance_at 0 true 5 1) = (Raise ValueError, st')
      /\ _is_updating st' = true
      /\ _update_from_bits st' = (Ok tt, st').
Proof.
  split; [vm_compute; discriminate|].
  destruct (proj2 (display_fails_on_bad_width 4300 (instance_at 0 true 5 1)
                     ltac:(split; reflexivity)
                     ltac:(vm_compute; discriminate))
                  (or_intror (conj eq_refl eq_refl)))
    as [st' [Hrun [Hupd [_ [_ Hbits]]]]].
  exists st'. split; [exact Hrun|]. split; [exact Hupd | exact Hbits].
Defined.

Lemma width_changes_compose_witness :
  1 <= 1
  /\ stores (bind (select_bytes 1) (fun _ => select_bytes 2))
            (instance_at 2 false 511 1) 255.
Proof.
  split; [lia|].
  exact (proj1 (width_changes_compose (instance_at 2 false 511 1) 1 2
                  ltac:(split; reflexivity) ltac:(lia) ltac:(lia))).
Defined.

Lemma signed_mode_changes_decimal_only_witness :
  1 <= num_bytes_var (instance_at 1 false 200 1) <= 8
  /\ exists on off,
      select_signed true (instance_at 1 false 200 1) = (Ok tt, on)
      /\ select_signed false (instance_at 1 false 200 1) = (Ok tt, off)
      /\ hex_var on = hex_var off
      /\ dec_var off = "200"
      /\ dec_var on = "-56".
Proof.
  split; [vm_compute; split; discriminate|].
  destruct (signed_mode_changes_decimal_only 4300 (instance_at 1 false 200 1)
              ltac:(split; reflexivity)
              ltac:(vm_compute; split; discriminate))
    as [on [off [Hon [Hoff [_ [_ [Hhex [_ [_ [_ [_ [Hdoff [Hdon _]]]]]]]]]]]]].
  exists on, off. split; [exact Hon|]. split; [exact Hoff|].
  split; [exact Hhex|]. split; [exact Hdoff | exact Hdon].
Defined.

Lemma startup_shows_zero_witness :
  1 <= 4
  /\ exists st,
      startup 4 false 1 fresh = (Ok tt, st)
      /\ Width st = 32
      /\ hex_var st = "0".
Proof.
  split; [lia|].
  destruct (startup_shows_zero 4 false 1 ltac:(lia))
    as [st [Hrun [_ [_ [Hw [Hhex _]]]]]].
  exists st. split; [exact Hrun|]. split; [exact Hw | exact Hhex].
Defined.

Lemma bit_grid_layout_witness :
  0 <= 63 < 64
  /\ exists widgets separators labels cb,
      _create_bit_display = Some (widgets, separators, labels)
      /\ nth 63 widgets None = Some cb
      /\ variable cb = 63
      /\ grid_row cb = 1
      /\ grid_column cb = 0.
Proof.
  split; [lia|].
  destruct (bit_grid_layout 63 ltac:(lia))
    as [widgets [separators [labels [cb [Hrun [_ [Hcb [Hvar [_ [Hrow
                                                  [Hcol _]]]]]]]]]]].
  exists widgets, separators, labels, cb.
  split; [exact Hrun|]. split; [exact Hcb|]. split; [exact Hvar|].
  split; [exact Hrow | exact Hcol].
Defined.

Lemma operations_keep_value_in_range_witness :
  0 <= shift_amount_var (instance_at 1 false 129 1) <= 2 ^ 16
  /\ exists st',
      _invert_bits (instance_at 1 false 129 1) = (Ok tt, st')
      /\ 0 <= _current_value st' <= mask (Width st').
Proof.
  split; [vm_compute; split; discriminate|].
  destruct (operations_keep_value_in_range (instance_at 1 false 129 1)
              _invert_bits
              ltac:(split; reflexivity)
              ltac:(vm_compute; split; discriminate)
              ltac:(vm_compute; split; discriminate)
              ltac:(do 5 right; left; reflexivity))
    as [st' [Hrun [_ Hrange]]].
  exists st'. split; [exact Hrun | exact Hrange].
Defined.

Lemma shift_amount_validator_witness :
  isascii "3" = true
  /\ accepts (_validate_shift_amount 4300) (instance_at 1 false 0 1) "3".
Proof.
  split; [reflexivity|].
  destruct (shift_amount_validator 4300 (instance_at 1 false 0 1) "3" eq_refl)
    as [_ [Hiff _]].
  apply (proj2 Hiff). right. exists 3. split; [reflexivity | lia].
Defined.
